(** * Terminal input decoding: a shallow embedding of the two input drivers

    The development follows two Go sources of the repository:

    - the ANSI driver of package [ansi] ([driver.peekInput], [driver.parseCsi],
      [driver.parseSs3], [driver.parseOsc], [driver.parseCtrl],
      [driver.ReadInput], [driver.PeekInput]);
    - the driver of package [input] ([Driver.readEvents], with its bracketed
      paste accumulator).

    Go byte slices and Go strings are both sequences of bytes and are both
    modelled as [list byte]; the conversions [string(p)] and [[]byte(s)] are
    the identity on them.  The conversion [string(b)] of a single byte is not:
    Go reads the byte as a code point and returns its UTF-8 encoding, which is
    two bytes long from 0x80 on ([string_of_byte]).  A Go [map] is a [gmap];
    an index out of range is the outcome [Panics]; a loop that may spin is run
    with fuel and yields [Unfinished] when the fuel runs out. *)

From Stdlib Require Import ZArith List Bool Lia Strings.Byte.
From stdpp Require Import base option countable gmap list.
Import ListNotations.

Local Open Scope Z_scope.

(** ** Bytes *)

Abbreviation byte := Byte.byte.

#[global] Instance byte_eq_dec : EqDecision byte.
Proof.
  intros a b. destruct (Byte.eqb a b) eqn:E.
  - left. now apply Byte.byte_dec_bl.
  - right. intros ->. now rewrite (Byte.byte_dec_lb eq_refl) in E.
Defined.

#[global] Program Instance byte_countable : Countable byte :=
  inj_countable' Byte.to_N (fun n => default Byte.x00 (Byte.of_N n)) _.
Next Obligation. intros b. simpl. now rewrite Byte.of_to_N. Qed.

(** The numeric value of a byte, as Go's [int(b)]. *)
Definition val (b : byte) : Z := Z.of_N (Byte.to_N b).

(** Go's [byte(z)] for an integer already in range. *)
Definition byte_of (z : Z) : byte := default Byte.x00 (Byte.of_N (Z.to_N z)).

(** [b == c] on bytes. *)
Definition beq (b c : byte) : bool := Byte.eqb b c.

(** [lo <= b && b <= hi]. *)
Definition between (lo hi : Z) (b : byte) : bool := (lo <=? val b) && (val b <=? hi).

(** ** The outcome of running Go code *)

Inductive outcome (A : Type) : Type :=
| Returns (a : A)     (* the call returns [a] *)
| Panics              (* a run-time panic: index or slice bounds out of range *)
| Unfinished.         (* the fuel given to a loop ran out before it ended *)
Arguments Returns {A} a.
Arguments Panics {A}.
Arguments Unfinished {A}.

#[global] Instance outcome_ret : MRet outcome := @Returns.
#[global] Instance outcome_bind : MBind outcome := fun A B f m =>
  match m with
  | Returns a => f a
  | Panics => Panics
  | Unfinished => Unfinished
  end.

(** [p[i]]: panics when [i] is not an index of [p]. *)
Definition index {A} (p : list A) (i : nat) : outcome A :=
  match p !! i with
  | Some x => Returns x
  | None => Panics
  end.

(** [p[i-1]]: the index is negative when [i] is 0. *)
Definition index_before {A} (p : list A) (i : nat) : outcome A :=
  match i with
  | O => Panics
  | S j => index p j
  end.

(** ** Go's [unicode/utf8], as far as the drivers use it *)

Module utf8.

Definition RuneError : Z := 0xFFFD.

(** [utf8.RuneStart(b)]: [b&0xC0 != 0x80]. *)
Definition RuneStart (b : byte) : bool :=
  negb (Z.land (val b) 0xC0 =? 0x80).

(** [utf8.ValidRune(r)]. *)
Definition ValidRune (r : Z) : bool :=
  ((0 <=? r) && (r <? 0xD800)) || ((0xDFFF <? r) && (r <=? 0x10FFFF)).

(** What the table [first] of the package says about a lead byte. *)
Inductive lead : Type :=
| Ascii                          (* [as]: a one-byte rune *)
| Invalid                        (* [xx]: not a lead byte *)
| Lead (size : nat) (lo hi : Z). (* size of the encoding, accepted range of the second byte *)

Definition first (b : byte) : lead :=
  let v := val b in
  if v <? 0x80 then Ascii
  else if v <? 0xC2 then Invalid
  else if v <? 0xE0 then Lead 2 0x80 0xBF
  else if v =? 0xE0 then Lead 3 0xA0 0xBF
  else if v <? 0xED then Lead 3 0x80 0xBF
  else if v =? 0xED then Lead 3 0x80 0x9F
  else if v <? 0xF0 then Lead 3 0x80 0xBF
  else if v =? 0xF0 then Lead 4 0x90 0xBF
  else if v <? 0xF4 then Lead 4 0x80 0xBF
  else if v =? 0xF4 then Lead 4 0x80 0x8F
  else Invalid.

Definition cont (b : byte) : bool := between 0x80 0xBF b.
Definition low6 (b : byte) : Z := Z.land (val b) 0x3F.

(** [utf8.DecodeRune(p)]: the first rune of [p] and its width in bytes;
    [(RuneError, 0)] on an empty slice and [(RuneError, 1)] on an invalid
    or truncated encoding. *)
Definition DecodeRune (p : list byte) : Z * nat :=
  match p with
  | [] => (RuneError, 0%nat)
  | p0 :: rest =>
    match first p0 with
    | Ascii => (val p0, 1%nat)
    | Invalid => (RuneError, 1%nat)
    | Lead sz lo hi =>
      if (length p <? sz)%nat then (RuneError, 1%nat) else
      match rest with
      | [] => (RuneError, 1%nat)
      | b1 :: rest1 =>
        if negb (between lo hi b1) then (RuneError, 1%nat) else
        if (sz <=? 2)%nat then
          (Z.lor (Z.shiftl (Z.land (val p0) 0x1F) 6) (low6 b1), 2%nat)
        else
        match rest1 with
        | [] => (RuneError, 1%nat)
        | b2 :: rest2 =>
          if negb (cont b2) then (RuneError, 1%nat) else
          if (sz <=? 3)%nat then
            (Z.lor (Z.lor (Z.shiftl (Z.land (val p0) 0x0F) 12)
                          (Z.shiftl (low6 b1) 6)) (low6 b2), 3%nat)
          else
          match rest2 with
          | [] => (RuneError, 1%nat)
          | b3 :: _ =>
            if negb (cont b3) then (RuneError, 1%nat) else
            (Z.lor (Z.lor (Z.lor (Z.shiftl (Z.land (val p0) 0x07) 18)
                                 (Z.shiftl (low6 b1) 12))
                          (Z.shiftl (low6 b2) 6)) (low6 b3), 4%nat)
          end
        end
      end
    end
  end.

(** [utf8.EncodeRune(p, r)], and with it the conversion [string(r)] of a rune:
    the UTF-8 encoding of [r], one to four bytes long.  A rune out of range
    (read as [uint32], so a negative one too) or a surrogate half is encoded
    as [RuneError]. *)
Definition EncodeRune (r : Z) : list byte :=
  let i := r mod 2 ^ 32 in
  if i <=? 0x7F then [byte_of r]
  else if i <=? 0x7FF then
    [byte_of (Z.lor 0xC0 (Z.shiftr r 6)); byte_of (Z.lor 0x80 (Z.land r 0x3F))]
  else
    let invalid := (0x10FFFF <? i) || ((0xD800 <=? i) && (i <=? 0xDFFF)) in
    let r := if invalid then RuneError else r in
    if invalid || (i <=? 0xFFFF) then
      [byte_of (Z.lor 0xE0 (Z.shiftr r 12));
       byte_of (Z.lor 0x80 (Z.land (Z.shiftr r 6) 0x3F));
       byte_of (Z.lor 0x80 (Z.land r 0x3F))]
    else
      [byte_of (Z.lor 0xF0 (Z.shiftr r 18));
       byte_of (Z.lor 0x80 (Z.land (Z.shiftr r 12) 0x3F));
       byte_of (Z.lor 0x80 (Z.land (Z.shiftr r 6) 0x3F));
       byte_of (Z.lor 0x80 (Z.land r 0x3F))].

End utf8.

(** Go's conversion [string(b)] of a byte [b]: the UTF-8 encoding of the code
    point [b], one byte below 0x80 and two bytes from 0x80 on. *)
Definition string_of_byte (b : byte) : list byte :=
  if val b <? 0x80 then [b]
  else [byte_of (Z.lor 0xC0 (Z.shiftr (val b) 6));
        byte_of (Z.lor 0x80 (Z.land (val b) 0x3F))].

(** Go's [rune(n)] of an integer: its low 32 bits, read as signed. *)
Definition rune_of_int (n : Z) : Z := (n + 2 ^ 31) mod 2 ^ 32 - 2 ^ 31.

(** ** Package [ansi]: the ANSI input driver *)

Module ansi.

(** The C0 and C1 control codes the driver names (ECMA-48). *)
Definition BEL : byte := x07.
Definition ESC : byte := x1b.
Definition US  : byte := x1f.
Definition SP  : byte := x20.
Definition DEL : byte := x7f.
Definition SS3 : byte := x8f.
Definition DCS : byte := x90.
Definition CSI : byte := x9b.
Definition ST  : byte := x9c.
Definition OSC : byte := x9d.
Definition APC : byte := x9f.

(** [const esc = string(byte(ansi.ESC))]. *)
Definition esc : list byte := string_of_byte ESC.

(** [input.KeyPress], [input.KeyRepeat], [input.KeyRelease].  The type is
    declared outside the driver's file; after the specification (section 3:
    "default Press") the zero value of the action is the press. *)
Inductive KeyAction : Type := KeyPress | KeyRepeat | KeyRelease.

(** [input.KeyEvent], with the fields the driver reads and writes. *)
Record KeyEvent : Type := mkKey {
  Sym : Z;
  Runes : list Z;
  AltRunes : list Z;
  Mod : Z;
  Action : KeyAction
}.

(** [input.KeyEvent{}]. *)
Definition zeroKey : KeyEvent :=
  {| Sym := 0; Runes := []; AltRunes := []; Mod := 0; Action := KeyPress |}.

Definition setSym (s : Z) (k : KeyEvent) : KeyEvent :=
  {| Sym := s; Runes := Runes k; AltRunes := AltRunes k; Mod := Mod k; Action := Action k |}.
Definition setRunes (r : list Z) (k : KeyEvent) : KeyEvent :=
  {| Sym := Sym k; Runes := r; AltRunes := AltRunes k; Mod := Mod k; Action := Action k |}.
Definition setAltRunes (r : list Z) (k : KeyEvent) : KeyEvent :=
  {| Sym := Sym k; Runes := Runes k; AltRunes := r; Mod := Mod k; Action := Action k |}.
Definition setMod (m : Z) (k : KeyEvent) : KeyEvent :=
  {| Sym := Sym k; Runes := Runes k; AltRunes := AltRunes k; Mod := m; Action := Action k |}.
Definition setAction (a : KeyAction) (k : KeyEvent) : KeyEvent :=
  {| Sym := Sym k; Runes := Runes k; AltRunes := AltRunes k; Mod := Mod k; Action := a |}.

(** The error of a reader that has nothing left to give. *)
Inductive error : Type := EOF.

Section Driver.

(** Mouse events and colours are built by functions that are not part of the
    driver's file; their types are left open. *)
Context {Mouse Color : Type}.

(** [input.Event], as the driver produces it. *)
Inductive Event : Type :=
| Key (k : KeyEvent)                (* input.KeyEvent *)
| UnknownEvent (seq : list byte)    (* input.UnknownEvent(seq) *)
| MouseEvent (m : Mouse)            (* input.MouseEvent *)
| FgColorEvent (c : Color)
| BgColorEvent (c : Color)
| CursorColorEvent (c : Color).

(** What the driver calls outside its own file: the constant [input.Alt], the
    accessors of [ansi.CsiSequence] and [ansi.OscSequence], [ansi.Params], the
    table [kittyKeyMap], and the functions [fromKittyMod],
    [parseX10MouseEvent], [parseSGRMouseEvent] and [xParseColor]. *)
Record Externals : Type := {
  Alt : Z;
  CsiInitial : list byte -> Z;            (* ansi.CsiSequence(seq).Initial() *)
  CsiCommand : list byte -> Z;            (* ansi.CsiSequence(seq).Command() *)
  CsiParams : list byte -> list (list Z); (* ansi.Params(ansi.CsiSequence(seq).Params()) *)
  kittyKeyMap : Z -> option Z;
  fromKittyMod : Z -> Z;
  parseX10MouseEvent : list byte -> Event;
  parseSGRMouseEvent : list byte -> Event;
  OscIdentifier : list byte -> list byte; (* ansi.OscSequence(seq).Identifier() *)
  OscData : list byte -> list byte;       (* ansi.OscSequence(seq).Data() *)
  xParseColor : list byte -> Color
}.

(** The driver: its table of key sequences and the bytes its buffered reader
    holds.  ([term] and [flags] are read only when the table is built.) *)
Record driver : Type := mkDriver {
  table : gmap (list byte) KeyEvent;
  rd : list byte
}.

Variable X : Externals.

(** [key.Mod |= input.Alt]. *)
Definition withAlt (k : KeyEvent) : KeyEvent := setMod (Z.lor (Mod k) (Alt X)) k.

(** [if alt { key.Mod |= input.Alt }]. *)
Definition altIf (alt : bool) (k : KeyEvent) : KeyEvent :=
  if alt then withAlt k else k.

(** [d.table[s]] without the [ok]: the zero key when [s] is not a key of the map. *)
Definition tableGet (d : driver) (s : list byte) : KeyEvent :=
  default zeroKey (table d !! s).

(** The bytes a scanning loop [for ; i < len(p) && ok(p[i]); i++] walks over,
    given the slice from [i] on. *)
Fixpoint scan (ok : byte -> bool) (l : list byte) : list byte :=
  match l with
  | b :: l' => if ok b then b :: scan ok l' else []
  | [] => []
  end.

(** [seq += string(b)] for each scanned byte. *)
Definition str (l : list byte) : list byte := flat_map string_of_byte l.

(** The opening of every sequence parser:
[[
	if p[i] == intro8 || p[i] == ansi.ESC { seq += string(p[i]); i++ }
	if i < len(p) && p[i-1] == ansi.ESC && p[i] == intro7 { seq += string(p[i]); i++ }
]]
    It returns [seq] and the new [i]. *)
Definition introducer (intro8 intro7 : byte) (i : nat) (p : list byte)
  : outcome (list byte * nat) :=
  b ← index p i;
  let '(seq, i) :=
    if beq b intro8 || beq b ESC then (string_of_byte b, S i) else ([], i) in
  if (i <? length p)%nat then
    prev ← index_before p i;
    cur ← index p i;
    if beq prev ESC && beq cur intro7
    then Returns (seq ++ string_of_byte cur, S i)
    else Returns (seq, i)
  else Returns (seq, i).

(** The end of a sequence that did not reach its final byte: the table is
    asked for what was scanned, and a miss is an unknown event. *)
Definition partial (d : driver) (alt : bool) (seq : list byte) : nat * Event :=
  (length seq,
   match table d !! seq with
   | Some key => Key (altIf alt key)
   | None => UnknownEvent seq
   end).

(** The Kitty keyboard protocol branch of [parseCsi]. *)
Definition kittyKey (params : list (list Z)) : outcome KeyEvent :=
  let key := zeroKey in
  key ←
    (if (0 <? length params)%nat then
       p0 ← index params 0;
       code ← index p0 0;
       match kittyKeyMap X code with
       | Some sym => Returns (setSym sym key)
       | None =>
         let r := rune_of_int code in
         let r := if utf8.ValidRune r then r else utf8.RuneError in
         let key := setRunes [r] key in
         if (1 <? length p0)%nat then
           al ← index p0 1;
           let al := rune_of_int al in
           Returns (if utf8.ValidRune al then setAltRunes [al] key else key)
         else Returns key
       end
     else Returns key);
  key ←
    (if (1 <? length params)%nat then
       p1 ← index params 1;
       mod_ ← index p1 0;
       let key := if 1 <? mod_ then setMod (fromKittyMod X (mod_ - 1)) key else key in
       if (1 <? length p1)%nat then
         act ← index p1 1;
         Returns (if (act =? 0) || (act =? 1) then setAction KeyPress key
                  else if act =? 2 then setAction KeyRepeat key
                  else if act =? 3 then setAction KeyRelease key
                  else key)
       else Returns key
     else Returns key);
  if (2 <? length params)%nat then
    p2 ← index params 2;
    r ← index p2 0;
    let r := rune_of_int r in
    let r := if utf8.ValidRune r then r else utf8.RuneError in
    Returns (setAltRunes [r] key)
  else Returns key.

Definition is_param (b : byte) : bool := between 0x30 0x3F b.
Definition is_intermediate (b : byte) : bool := between 0x20 0x2F b.
Definition is_final (b : byte) : bool := between 0x40 0x7E b.

(** [p[lo:hi]] for [lo <= hi <= len(p)]. *)
Definition slice (p : list byte) (lo hi : nat) : list byte := take (hi - lo) (drop lo p).

(** The end of [parseCsi], from the scan for the final byte on: [seq] holds
    what was scanned and [i] is the index the scans stopped at. *)
Definition csiFinal (d : driver) (alt : bool) (seq : list byte) (i : nat)
  (p : list byte) : outcome (nat * Event) :=
  (* Scan final byte in the range 0x40-0x7E *)
  match p !! i with
  | None => Returns (partial d alt seq)
  | Some b =>
    if negb (is_final b) then Returns (partial d alt seq) else
    (* Add the final byte *)
    let seq := seq ++ string_of_byte b in
    match table d !! seq with
    | Some k => Returns (length seq, Key k)
    | None =>
      let initial := CsiInitial X seq in
      let cmd := CsiCommand X seq in
      if bool_decide (seq = [x1b; x5b; x4d]) && (i + 3 <? length p)%nat then
        (* Handle X10 mouse *)
        Returns ((length seq + 3)%nat,
                 parseX10MouseEvent X (seq ++ slice p (i + 1) (i + 3)))
      else if (initial =? 0x3c) && ((cmd =? 0x6d) || (cmd =? 0x4d)) then
        (* Handle SGR mouse *)
        Returns (length seq, parseSGRMouseEvent X seq)
      else if (initial =? 0) && (cmd =? 0x75) then
        (* Kitty keyboard protocol *)
        key ← kittyKey (CsiParams X seq);
        Returns (length seq, Key key)
      else Returns (length seq, UnknownEvent seq)
    end
  end.

(** [driver.parseCsi]. *)
Definition parseCsi (d : driver) (i : nat) (p : list byte) (alt : bool)
  : outcome (nat * Event) :=
  '(seq, i) ← introducer CSI x5b i p;
  (* Scan parameter bytes in the range 0x30-0x3F *)
  let ps := scan is_param (drop i p) in
  let seq := seq ++ str ps in
  let i := (i + length ps)%nat in
  (* Scan intermediate bytes in the range 0x20-0x2F *)
  let is_ := scan is_intermediate (drop i p) in
  let seq := seq ++ str is_ in
  let i := (i + length is_)%nat in
  csiFinal d alt seq i p.

(** [driver.parseSs3]. *)
Definition parseSs3 (d : driver) (i : nat) (p : list byte) (alt : bool)
  : outcome (nat * Event) :=
  '(seq, i) ← introducer SS3 x4f i p;
  (* Scan a GL character: a single byte in the range 0x21-0x7E *)
  match p !! i with
  | None => Returns (partial d alt seq)
  | Some b =>
    if negb (between 0x21 0x7E b) then Returns (partial d alt seq) else
    let seq := seq ++ string_of_byte b in
    match table d !! seq with
    | Some k => Returns (length seq, Key (altIf alt k))
    | None => Returns (length seq, UnknownEvent seq)
    end
  end.

(** The tail shared by [parseOsc] and [parseCtrl] once the scan stopped at a
    byte of the buffer: the terminator is added, and a backslash after an ESC
    with it. *)
Definition terminated (seq : list byte) (i : nat) (p : list byte) (b : byte)
  : list byte :=
  let seq := seq ++ string_of_byte b in
  (* Check 7-bit ST (string terminator) character *)
  match p !! S i with
  | Some b' => if beq b ESC && beq b' x5c then seq ++ string_of_byte b' else seq
  | None => seq
  end.

(** Where the scan of [parseOsc] stops: at a BEL, an ESC or an ST. *)
Definition oscBody (b : byte) : bool :=
  negb (beq b BEL) && negb (beq b ESC) && negb (beq b ST).

(** The end of [parseOsc], from the test for the end of the buffer on. *)
Definition oscFinal (seq : list byte) (i : nat) (p : list byte)
  : outcome (nat * Event) :=
  match p !! i with
  | None => Returns (length seq, UnknownEvent seq)
  | Some b =>
    let seq := terminated seq i p b in
    let ident := OscIdentifier X seq in
    if bool_decide (ident = [x31; x30]) then
      Returns (length seq, FgColorEvent (xParseColor X (OscData X seq)))
    else if bool_decide (ident = [x31; x31]) then
      Returns (length seq, BgColorEvent (xParseColor X (OscData X seq)))
    else if bool_decide (ident = [x31; x32]) then
      Returns (length seq, CursorColorEvent (xParseColor X (OscData X seq)))
    else Returns (length seq, UnknownEvent seq)
  end.

(** [driver.parseOsc]. *)
Definition parseOsc (d : driver) (i : nat) (p : list byte) (alt : bool)
  : outcome (nat * Event) :=
  '(seq, i) ← introducer OSC x5d i p;
  (* An OSC sequence is terminated by a BEL, ESC, or ST character *)
  let body := scan oscBody (drop i p) in
  let seq := seq ++ str body in
  let i := (i + length body)%nat in
  oscFinal seq i p.

(** [driver.parseCtrl]: a control sequence that is terminated by ST. *)
Definition parseCtrl (intro8 intro7 : byte) (i : nat) (p : list byte) (alt : bool)
  : outcome (nat * Event) :=
  '(seq, i) ← introducer intro8 intro7 i p;
  let body := scan (fun b => negb (beq b ST) && negb (beq b ESC)) (drop i p) in
  let seq := seq ++ str body in
  let i := (i + length body)%nat in
  match p !! i with
  | None => Returns (length seq, UnknownEvent seq)
  | Some b =>
    let seq := terminated seq i p b in
    Returns (length seq, UnknownEvent seq)
  end.

(** [driver.parseDcs]: DCS (0x90) or ESC P. *)
Definition parseDcs (d : driver) (i : nat) (p : list byte) (alt : bool) :=
  parseCtrl DCS x50 i p alt.

(** [driver.parseApc]: APC (0x9f) or ESC _. *)
Definition parseApc (d : driver) (i : nat) (p : list byte) (alt : bool) :=
  parseCtrl APC x5f i p alt.

(** [driver.handleSeq]: the parser runs at [i]; the count it returns is added
    to the index behind [np] and its event is appended to the list behind [ne]. *)
Definition handleSeq (seqFn : nat -> list byte -> bool -> outcome (nat * Event))
  (i : nat) (p : list byte) (alt : bool) (np : nat) (ne : list Event)
  : outcome (nat * list Event) :=
  '(n, e) ← seqFn i p alt;
  Returns ((np + n)%nat, ne ++ [e]).

(** Where the rune loop of [peekInput] stops. *)
Definition stops (r : Z) : bool :=
  (r =? utf8.RuneError) || (r <=? val US) || (r =? val DEL) || (r =? val SP).

(** The rune loop of [peekInput] over the slice [p[i:]]:
[[
	for rw := 0; i < len(p); i += rw {
		r, rw = utf8.DecodeRune(p[i:])
		if r == utf8.RuneError || r <= ansi.US || r == ansi.DEL || r == ansi.SP { break }
		k.Runes = append(k.Runes, r)
	}
]]
    It returns the runes and the number of bytes walked over.  Every pass that
    does not break moves on by at least one byte, so [length l] passes are
    enough ([collect_enough]). *)
Fixpoint collect (passes : nat) (l : list byte) : list Z * nat :=
  match passes, l with
  | S passes, _ :: _ =>
    let '(r, rw) := utf8.DecodeRune l in
    if stops r then ([], 0%nat)
    else let '(rs, n) := collect passes (drop rw l) in (r :: rs, (rw + n)%nat)
  | _, _ => ([], 0%nat)
  end.

Definition collectRunes (l : list byte) : list Z * nat := collect (length l) l.

(** The loop body of [peekInput] below its [switch], reached by the [break]
    of the ESC case, by the DCS case and by the default case. *)
Definition afterSwitch (d : driver) (p : list byte) (alt : bool) (b : byte)
  (i : nat) (ev : list Event) : nat * list Event :=
  if (val b <=? val US) || beq b DEL || beq b SP then
    (* Single byte control code or printable ASCII/UTF-8 *)
    let k := altIf alt (tableGet d (string_of_byte b)) in
    ((i + 1)%nat, ev ++ [Key k])
  else if utf8.RuneStart b then
    (* Collect UTF-8 sequences into a slice of runes. *)
    let '(runes, n) := collectRunes (drop i p) in
    let k := altIf alt (setRunes runes zeroKey) in
    ((i + n)%nat, ev ++ [Key k])
  else (i, ev).

(** A point of control in the loop of [peekInput]. *)
Inductive point : Type :=
| AtFor (i : nat) (ev : list Event)                            (* the test [i < len(p)] *)
| AtBegin (alt : bool) (b : byte) (i : nat) (ev : list Event). (* the label [begin] *)

(** [continue], after the index and the events have been updated: the loop
    goes to its test. *)
Definition continue (r : outcome (nat * list Event))
  : outcome (point + nat * list Event) :=
  '(i, ev) ← r; Returns (inl (AtFor i ev)).

(** One move of [peekInput]'s loop: from the loop test into the body, or from
    the label [begin] through the [switch] to the next loop test ([continue]),
    back to [begin] ([goto begin]), or, at the loop test, out of the loop with
    the pair [(i, ev)] the function returns. *)
Definition step (d : driver) (p : list byte) (pt : point)
  : outcome (point + nat * list Event) :=
  let bufferedBytes := length p in
  match pt with
  | AtFor i ev =>
    if (i <? length p)%nat then
      b ← index p i;
      Returns (inl (AtBegin false b i ev))
    else Returns (inr (i, ev))
  | AtBegin alt b i ev =>
    if beq b ESC then
      if (bufferedBytes =? 1)%nat then
        (* Special case for Esc *)
        Returns (inl (AtFor (i + 1) (ev ++ [Key (tableGet d esc)])))
      else if (length p <=? i + 1)%nat then
        (* Not enough bytes to peek *)
        continue (Returns (afterSwitch d p alt b i ev))
      else
        b1 ← index p (i + 1);
        if beq b1 x4f then continue (handleSeq (parseSs3 d) i p alt i ev)
        else if beq b1 x50 then continue (handleSeq (parseDcs d) i p alt i ev)
        else if beq b1 x5b then continue (handleSeq (parseCsi d) i p alt i ev)
        else if beq b1 x5d then continue (handleSeq (parseOsc d) i p alt i ev)
        else if beq b1 x5f then continue (handleSeq (parseApc d) i p alt i ev)
        else
          (* Start over with the next byte *)
          Returns (inl (AtBegin true b1 (i + 1) ev))
    else if beq b SS3 then continue (handleSeq (parseSs3 d) i p alt i ev)
    else if beq b DCS then
      (* no [continue] here: the body goes on below the switch *)
      '(i, ev) ← handleSeq (parseDcs d) i p alt i ev;
      continue (Returns (afterSwitch d p alt b i ev))
    else if beq b CSI then continue (handleSeq (parseCsi d) i p alt i ev)
    else if beq b OSC then continue (handleSeq (parseOsc d) i p alt i ev)
    else if beq b APC then continue (handleSeq (parseApc d) i p alt i ev)
    else continue (Returns (afterSwitch d p alt b i ev))
  end.

(** The loop of [peekInput], run for at most [fuel] moves. *)
Fixpoint run (fuel : nat) (d : driver) (p : list byte) (pt : point)
  : outcome (nat * list Event) :=
  match fuel with
  | O => Unfinished
  | S fuel =>
    match step d p pt with
    | Returns (inl pt') => run fuel d p pt'
    | Returns (inr r) => Returns r
    | Panics => Panics
    | Unfinished => Unfinished
    end
  end.

(** The buffered reader [d.rd], seen as the bytes it holds: [Peek(n)] shows the
    first [n] of them, [Buffered()] counts them, [Discard(n)] drops the first
    [n].  Asking for more bytes than are held is an error, the read behind the
    buffer having nothing more to give.  Each call returns the reader after it. *)
Definition Peek (r : list byte) (n : nat) : list byte * option error * list byte :=
  if (n <=? length r)%nat then (take n r, None, r) else (r, Some EOF, r).
Definition Buffered (r : list byte) : nat * list byte := (length r, r).
Definition Discard (r : list byte) (n : nat) : nat * option error * list byte :=
  if (n <=? length r)%nat then (n, None, drop n r) else (length r, Some EOF, []).

Definition setRd (r : list byte) (d : driver) : driver := {| table := table d; rd := r |}.

(** [driver.peekInput]: the number of bytes decoded, the events, the error,
    and the driver after the call. *)
Definition peekInput (fuel : nat) (d : driver)
  : outcome (nat * list Event * option error * driver) :=
  let '(p, err, r) := Peek (rd d) 1 in
  let d := setRd r d in
  match err with
  | Some e => Returns (0%nat, [], Some e, d)
  | None =>
    (* The number of bytes buffered. *)
    let '(bufferedBytes, r) := Buffered (rd d) in
    let d := setRd r d in
    (* Peek more bytes if needed. *)
    let '(p, err, r) :=
      if (length p <? bufferedBytes)%nat then Peek (rd d) bufferedBytes
      else (p, None, rd d) in
    let d := setRd r d in
    match err with
    | Some e => Returns (0%nat, [], Some e, d)
    | None =>
      (* Lookup table first *)
      match table d !! p with
      | Some k => Returns (length p, [Key k], None, d)
      | None =>
        '(i, ev) ← run fuel d p (AtFor 0 []);
        Returns (i, ev, None, d)
      end
    end
  end.

(** [driver.ReadInput]. *)
Definition ReadInput (fuel : nat) (d : driver)
  : outcome (list Event * option error * driver) :=
  '(nb, ne, err, d) ← peekInput fuel d;
  match err with
  | Some e => Returns ([], Some e, d)
  | None =>
    (* Consume the event *)
    let '(_, err, r) := Discard (rd d) nb in
    let d := setRd r d in
    match err with
    | Some e => Returns ([], Some e, d)
    | None => Returns (ne, None, d)
    end
  end.

(** [driver.PeekInput]. *)
Definition PeekInput (fuel : nat) (d : driver)
  : outcome (list Event * option error * driver) :=
  '(_, ne, err, d) ← peekInput fuel d;
  match err with
  | Some e => Returns ([], Some e, d)
  | None => Returns (ne, err, d)
  end.

End Driver.

Arguments Event : clear implicits.
Arguments Externals : clear implicits.
Arguments driver : clear implicits.

End ansi.

(** ** Package [input]: the driver with the bracketed-paste accumulator *)

Module input.

(** The error of a read that has nothing to give. *)
Inductive error : Type := EOF.

Section Driver.

(** Keys and the events the driver only passes on are defined outside the
    driver's file; their types are left open. *)
Context {Key Other : Type}.

(** [Event], with the dynamic types [readEvents] tells apart. *)
#[warnings="-register-all"]
Inductive Event : Type :=
| KeyDownEvent (k : Key)
| UnknownCsiEvent (seq : list byte)
| UnknownSs3Event (seq : list byte)
| UnknownEvent (seq : list byte)
| PasteStartEvent
| PasteEndEvent
| PasteEvent (text : list Z)
| MultiEvent (evs : list Event)
| OtherEvent (o : Other).

(** [*EventParser], of which [readEvents] calls two methods.  [ParseSequence]
    returns a count of bytes and an event, which may be the nil interface. *)
Record EventParser : Type := {
  LookupSequence : list byte -> option Key;
  ParseSequence : list byte -> nat * option Event
}.

(** [Driver].  The reader [rd] is the list of the results its next calls of
    [Read] will give, each a chunk of bytes or an error; [paste] is [None] for
    the nil slice and [Some acc] for the accumulator of a paste in progress;
    [buf] holds the 256 bytes of the read buffer. *)
Record Driver : Type := mkDriver {
  rd : list (list byte + error);
  parser : EventParser;
  paste : option (list byte);
  buf : list byte
}.

Definition setPaste (ps : option (list byte)) (d : Driver) : Driver :=
  {| rd := rd d; parser := parser d; paste := ps; buf := buf d |}.

(** [d.rd.Read(d.buf[:])]: the next result of the reader.  A chunk is written
    at the front of the buffer; what of it does not fit the buffer stays in
    the reader for the next call. *)
Definition Read (d : Driver) : (nat + error) * Driver :=
  match rd d with
  | [] => (inr EOF, d)
  | inr e :: rest =>
    (inr e, {| rd := rest; parser := parser d; paste := paste d; buf := buf d |})
  | inl chunk :: rest =>
    let now := take (length (buf d)) chunk in
    let later := drop (length (buf d)) chunk in
    (inl (length now),
     {| rd := match later with [] => rest | _ => inl later :: rest end;
        parser := parser d; paste := paste d;
        buf := now ++ drop (length now) (buf d) |})
  end.

(** [string(buf[lo:hi])] for the slice [buf := d.buf[:nb]], whose capacity is the
    whole array [arr]: the bounds are checked against the capacity. *)
Definition sliceString (arr : list byte) (lo hi : nat) : outcome (list byte) :=
  if (lo <=? hi)%nat && (hi <=? length arr)%nat
  then Returns (take (hi - lo) (drop lo arr))
  else Panics.

(** The loop that decodes the captured paste into runes:
[[
	for len(d.paste) > 0 {
		r, w := utf8.DecodeRune(d.paste)
		if r != utf8.RuneError { paste = append(paste, r) }
		d.paste = d.paste[w:]
	}
]]
    Every pass drops at least one byte, so [length l] passes are enough. *)
Fixpoint decode (passes : nat) (l : list byte) : list Z :=
  match passes, l with
  | S passes, _ :: _ =>
    let '(r, w) := utf8.DecodeRune l in
    (if r =? utf8.RuneError then [] else [r]) ++ decode passes (drop w l)
  | _, _ => []
  end.

Definition decodePaste (l : list byte) : list Z := decode (length l) l.

Definition isPasteEnd (ev : option Event) : bool :=
  match ev with Some PasteEndEvent => true | _ => false end.

(** [buf[i:]] for the slice [buf := d.buf[:nb]]. *)
Definition view (d : Driver) (nb i : nat) : list byte :=
  take (nb - i) (drop i (buf d)).

(** The loop of [readEvents] over [buf := d.buf[:nb]], from the index [i] with
    the events [e] collected so far, for at most [fuel] passes. *)
Fixpoint loop (fuel : nat) (nb : nat) (d : Driver) (i : nat) (e : list Event)
  : outcome (list Event * Driver) :=
  match fuel with
  | O => Unfinished
  | S fuel =>
    if negb (i <? nb)%nat then Returns (e, d) else
    let '(n, ev) := ParseSequence (parser d) (view d nb i) in
    (* Handle bracketed-paste *)
    match paste d, isPasteEnd ev with
    | Some acc, false =>
      b ← index (take nb (buf d)) i;
      loop fuel nb (setPaste (Some (acc ++ [b])) d) (i + 1)%nat e
    | _, _ =>
      match ev with
      | None => loop fuel nb d (i + 1)%nat e
      | Some (UnknownCsiEvent _ as ev) | Some (UnknownSs3Event _ as ev)
      | Some (UnknownEvent _ as ev) =>
        (* If the sequence is not recognized by the parser, try looking it up. *)
        s ← sliceString (buf d) i (i + n);
        let ev := match LookupSequence (parser d) s with
                  | Some k => KeyDownEvent k
                  | None => ev
                  end in
        loop fuel nb d (i + n)%nat (e ++ [ev])
      | Some PasteStartEvent =>
        loop fuel nb (setPaste (Some []) d) (i + n)%nat (e ++ [PasteStartEvent])
      | Some PasteEndEvent =>
        (* Decode the captured data into runes. *)
        let text := decodePaste (default [] (paste d)) in
        loop fuel nb (setPaste None d) (i + n)%nat
             (e ++ [PasteEvent text] ++ [PasteEndEvent])
      | Some (MultiEvent mevs) => loop fuel nb d (i + n)%nat (e ++ mevs)
      | Some ev => loop fuel nb d (i + n)%nat (e ++ [ev])
      end
    end
  end.

(** [Driver.readEvents]: the events, the error, and the driver after the call. *)
Definition readEvents (fuel : nat) (d : Driver)
  : outcome (list Event * option error * Driver) :=
  let '(r, d) := Read d in
  match r with
  | inr err => Returns ([], Some err, d)
  | inl nb =>
    let buf := take nb (buf d) in
    (* Lookup table first *)
    match LookupSequence (parser d) buf with
    | Some k => Returns ([KeyDownEvent k], None, d)
    | None =>
      '(e, d) ← loop fuel nb d 0 [];
      Returns (e, None, d)
    end
  end.

End Driver.

Arguments Event : clear implicits.
Arguments EventParser : clear implicits.
Arguments Driver : clear implicits.

End input.

(** ** Sample instances, for running the drivers on concrete buffers *)

Module sample.

(** The bytes of [l] up to the first [c], and the bytes after it. *)
Fixpoint cut (c : byte) (l : list byte) : list byte * option (list byte) :=
  match l with
  | [] => ([], None)
  | b :: l' =>
    if beq b c then ([], Some l')
    else let '(h, t) := cut c l' in (b :: h, t)
  end.

(** [l] split at every [c]. *)
Fixpoint split (fuel : nat) (c : byte) (l : list byte) : list (list byte) :=
  match cut c l, fuel with
  | (h, Some t), S fuel => h :: split fuel c t
  | (h, _), _ => [h]
  end.

(** A run of decimal digits as a number; no digit at all is 0. *)
Definition decimal (l : list byte) : Z :=
  fold_left (fun n b => 10 * n + (val b - 0x30)) l 0.

(** A sequence without its introducer: ESC and one more byte, or the two bytes
    that [string_of_byte] makes of an 8-bit introducer. *)
Definition body (seq : list byte) : list byte := drop 2 seq.

(** Modelled from the spec: the accessors of [ansi.CsiSequence] and
    [ansi.Params] are not among the sources.  After §4.3 and §4.4 a CSI
    sequence has an optional parameter prefix (a byte in 0x3C-0x3F, none is 0),
    a list of parameters separated by semicolons whose sub-values are
    separated by colons, and a final byte, its command. *)
Definition CsiInitial (seq : list byte) : Z :=
  match body seq with
  | b :: _ => if between 0x3C 0x3F b then val b else 0
  | [] => 0
  end.

Definition CsiCommand (seq : list byte) : Z :=
  match last seq with
  | Some b => val b
  | None => 0
  end.

Definition CsiParams (seq : list byte) : list (list Z) :=
  let ps := ansi.scan (between 0x30 0x3B) (body seq) in
  match ps with
  | [] => []
  | _ => map (fun part => map decimal (split (length part) x3a part))
             (split (length ps) x3b ps)
  end.

(** Modelled from the spec: the accessors of [ansi.OscSequence] are not among
    the sources.  After §4.6 the payload of an OSC sequence, the bytes between
    its introducer and its terminator, is split on the first semicolon into an
    identifier and the data. *)
Definition OscPayload (seq : list byte) : list byte :=
  ansi.scan (fun b => negb (beq b ansi.BEL) && negb (beq b ansi.ESC) && negb (beq b xc2))
            (body seq).

Definition OscIdentifier (seq : list byte) : list byte := fst (cut x3b (OscPayload seq)).

Definition OscData (seq : list byte) : list byte :=
  default [] (snd (cut x3b (OscPayload seq))).

(** An instance of the external functions of the ANSI driver.  Its mouse
    decoders and its colour parser return the bytes they were given, so that a
    run shows what the driver handed to them; no key code is symbolic, the
    modifier bits of the Kitty protocol are kept as they are, and [input.Alt] is
    the bit 2. *)
Definition externals : ansi.Externals (list byte) (list byte) :=
  {| ansi.Alt := 2;
     ansi.CsiInitial := CsiInitial;
     ansi.CsiCommand := CsiCommand;
     ansi.CsiParams := CsiParams;
     ansi.kittyKeyMap := fun _ => None;
     ansi.fromKittyMod := fun m => m;
     ansi.parseX10MouseEvent := fun b => ansi.MouseEvent b;
     ansi.parseSGRMouseEvent := fun b => ansi.MouseEvent b;
     ansi.OscIdentifier := OscIdentifier;
     ansi.OscData := OscData;
     ansi.xParseColor := fun s => s |}.

(** A table with two entries: the Escape key under ESC and the cursor-up key
    under ESC [ A (their symbols are 1 and 2 here). *)
Definition keyEscape : ansi.KeyEvent := ansi.setSym 1 ansi.zeroKey.
Definition keyUp : ansi.KeyEvent := ansi.setSym 2 ansi.zeroKey.
Definition table : gmap (list byte) ansi.KeyEvent :=
  <[ [x1b; x5b; x41] := keyUp ]> (<[ [x1b] := keyEscape ]> ∅).

(** The keys of the sample parser of package [input]. *)
Inductive Key : Type := Up | Char (b : byte).

(** Modelled from the spec: the methods of [EventParser] are not among the
    sources.  This parser knows the two markers of a bracketed paste
    (§4.7; ESC [ 200 ~ and ESC [ 201 ~), the cursor-up key ESC [ A (§8), and
    takes every other byte as a key of its own; its table holds the cursor-up
    key alone. *)
Definition ParseSequence (l : list byte) : nat * option (input.Event Key Empty_set) :=
  if bool_decide (take 6 l = [x1b; x5b; x32; x30; x30; x7e])
  then (6%nat, Some input.PasteStartEvent)
  else if bool_decide (take 6 l = [x1b; x5b; x32; x30; x31; x7e])
  then (6%nat, Some input.PasteEndEvent)
  else if bool_decide (take 3 l = [x1b; x5b; x41])
  then (3%nat, Some (input.KeyDownEvent Up))
  else match l with
       | [] => (0%nat, None)
       | b :: _ => (1%nat, Some (input.KeyDownEvent (Char b)))
       end.

Definition LookupSequence (l : list byte) : option Key :=
  if bool_decide (l = [x1b; x5b; x41]) then Some Up else None.

Definition parser : input.EventParser Key Empty_set :=
  {| input.LookupSequence := LookupSequence; input.ParseSequence := ParseSequence |}.

(** A read buffer of 256 zero bytes. *)
Definition emptyBuf : list byte := replicate 256 x00.

(** The two markers of a bracketed paste, and the pasted bytes ab ESC [ A c. *)
Definition pasteStart : list byte := [x1b; x5b; x32; x30; x30; x7e].
Definition pasteEnd : list byte := [x1b; x5b; x32; x30; x31; x7e].
Definition pasted : list byte := [x61; x62; x1b; x5b; x41; x63].

End sample.

(** ** Notions the statements use *)

(** The bytes that send an ESC before them to a sequence parser: O, P, the
    open bracket, the close bracket and the underscore. *)
Definition special (b : byte) : bool :=
  beq b x4f || beq b x50 || beq b x5b || beq b x5d || beq b x5f.

(** The bytes [peekInput] looks up in the table by themselves: the control
    codes up to US, DEL and the space. *)
Definition control (b : byte) : bool :=
  (val b <=? val ansi.US) || beq b ansi.DEL || beq b ansi.SP.

(** A byte no case of the switch of [peekInput] and no branch below it takes:
    a UTF-8 continuation byte (0x80-0xBF) that is not an 8-bit introducer. *)
Definition stray (b : byte) : bool :=
  negb (utf8.RuneStart b) &&
  negb (beq b ansi.SS3) && negb (beq b ansi.DCS) && negb (beq b ansi.CSI) &&
  negb (beq b ansi.OSC) && negb (beq b ansi.APC).

(** The action the second sub-value of the second parameter of a Kitty
    sequence selects: 2 is a repeat, 3 a release, 1 or none a press (and so is
    every other value, which leaves the action at its zero value). *)
Definition kittyAction (subs : list Z) : ansi.KeyAction :=
  match subs with
  | [] => ansi.KeyPress
  | a :: _ =>
    if a =? 2 then ansi.KeyRepeat
    else if a =? 3 then ansi.KeyRelease
    else ansi.KeyPress
  end.

(** The event of an OSC sequence, after the words of the specification: the
    identifiers 10, 11 and 12 select the foreground, background and cursor
    colour events, which carry the colour parsed from the data; any other
    identifier gives an unknown event that carries the sequence. *)
Definition oscEvent {Mouse Color : Type} (X : ansi.Externals Mouse Color)
  (seq : list byte) : ansi.Event Mouse Color :=
  let color := ansi.xParseColor X (ansi.OscData X seq) in
  let ident := ansi.OscIdentifier X seq in
  if bool_decide (ident = [x31; x30]) then ansi.FgColorEvent color
  else if bool_decide (ident = [x31; x31]) then ansi.BgColorEvent color
  else if bool_decide (ident = [x31; x32]) then ansi.CursorColorEvent color
  else ansi.UnknownEvent seq.

(** The two 7-bit ways to end an OSC sequence: a BEL, or the string
    terminator ESC backslash. *)
Definition oscEnd (term : list byte) : Prop :=
  term = [ansi.BEL] \/ term = [ansi.ESC; x5c].

(** A buffer of 7-bit bytes. *)
Definition sevenBit (p : list byte) : Prop := Forall (fun b => val b < 0x80) p.

(** What bounds a parser that ran at [i]: it returned a count of at least two
    bytes that stays inside the buffer. *)
Definition inside {Mouse Color : Type} (i : nat) (p : list byte)
  (r : outcome (nat * ansi.Event Mouse Color)) : Prop :=
  match r with
  | Returns (n, _) => (2 <= n)%nat /\ (i + n <= length p)%nat
  | _ => False
  end.

(** Where a move of [peekInput]'s loop from the label [begin] at the index [i]
    may lead: to the loop test at a later index inside the buffer, or back to
    the label at the next byte. *)
Definition advances {Mouse Color : Type} (i : nat) (p : list byte)
  (r : outcome (ansi.point (Mouse := Mouse) (Color := Color)
                + nat * list (ansi.Event Mouse Color))) : Prop :=
  match r with
  | Returns (inl (ansi.AtFor i' _)) => (i < i' <= length p)%nat
  | Returns (inl (ansi.AtBegin _ b1 i' _)) => i' = (i + 1)%nat /\ p !! i' = Some b1
  | _ => False
  end.

(** A rune the rune loop of [peekInput] collects: a valid rune that is none of
    those the loop stops at (the replacement rune, the control codes up to
    US, DEL and the space). *)
Definition printable (r : Z) : bool := utf8.ValidRune r && negb (ansi.stops r).

(** A text: the UTF-8 encoding of its runes, one after the other. *)
Definition encodeRunes (rs : list Z) : list byte := flat_map utf8.EncodeRune rs.

(** The 8-bit introducers the switch of [peekInput] has a case for. *)
Definition introducer8 (b : byte) : bool :=
  beq b ansi.SS3 || beq b ansi.DCS || beq b ansi.CSI || beq b ansi.OSC || beq b ansi.APC.

(** A byte from 0x80 on, which [string_of_byte] makes two bytes of. *)
Definition eightBit (b : byte) : bool := 0x80 <=? val b.

(** A complete 7-bit CSI sequence: ESC and the open bracket, parameter bytes,
    intermediate bytes and one final byte. *)
Inductive csiSeq : list byte -> Prop :=
| csi_seq params inters fin :
    Forall (fun b => ansi.is_param b = true) params ->
    Forall (fun b => ansi.is_intermediate b = true) inters ->
    ansi.is_final fin = true ->
    csiSeq (ansi.ESC :: x5b :: params ++ inters ++ [fin]).

(** The ways a DCS or APC string ends in the buffer: with the buffer, at an
    8-bit ST, at an ESC that is the last byte, or at the 7-bit string
    terminator ESC backslash. *)
Definition ctrlEnd (term : list byte) : Prop :=
  term = [] \/ term = [ansi.ST] \/ term = [ansi.ESC] \/ term = [ansi.ESC; x5c].

(** What holds at every point the loop of [peekInput] reaches from its start
    on a buffer that is not empty: an event has been collected, or the index
    is still inside the buffer. *)
Definition eventful {Mouse Color : Type} (p : list byte)
  (pt : ansi.point (Mouse := Mouse) (Color := Color)) : Prop :=
  match pt with
  | ansi.AtFor i ev => ev <> [] \/ (i < length p)%nat
  | ansi.AtBegin _ _ i _ => (i < length p)%nat
  end.

(** The byte the loop of [peekInput] holds at the label [begin] is the byte of
    the buffer at its index. *)
Definition wellPlaced {Mouse Color : Type} (p : list byte)
  (pt : ansi.point (Mouse := Mouse) (Color := Color)) : Prop :=
  match pt with
  | ansi.AtFor _ _ => True
  | ansi.AtBegin _ b i _ => p !! i = Some b
  end.

(** A parser that takes, with every event it returns for a slice that is not
    empty, at least one byte and no more bytes than the slice holds. *)
Definition wellBehaved {Key Other : Type} (P : input.EventParser Key Other) : Prop :=
  forall l n ev, l <> [] -> input.ParseSequence P l = (n, Some ev) ->
    (1 <= n <= length l)%nat.

(** * Properties of the drivers *)

(** ** Bytes, strings and scans *)

Section Facts.
Context {Mouse Color : Type}.
Variable X : ansi.Externals Mouse Color.
Implicit Types (b c : byte) (l p pre rest : list byte) (d : ansi.driver).

Lemma beq_eq b c : beq b c = true <-> b = c.
Proof.
  unfold beq. split.
  - apply Byte.byte_dec_bl.
  - apply Byte.byte_dec_lb.
Qed.

Lemma beq_refl b : beq b b = true.
Proof. now apply beq_eq. Qed.

Lemma beq_neq b c : b <> c -> beq b c = false.
Proof. intros H. destruct (beq b c) eqn:E; [|done]. now apply beq_eq in E. Qed.

Lemma string_of_byte_ascii b : val b < 0x80 -> string_of_byte b = [b].
Proof. unfold string_of_byte. intros H. now rewrite (proj2 (Z.ltb_lt _ _) H). Qed.

Lemma str_ascii l : Forall (fun b => val b < 0x80) l -> ansi.str l = l.
Proof.
  induction 1 as [|b l Hb _ IH]; [done|].
  unfold ansi.str in *. simpl. rewrite IH, string_of_byte_ascii; done.
Qed.

Lemma between_lt lo hi b : between lo hi b = true -> lo <= val b <= hi.
Proof. unfold between. rewrite andb_true_iff, Z.leb_le, Z.leb_le. done. Qed.

Lemma scan_all ok l rest :
  Forall (fun b => ok b = true) l ->
  match rest with [] => True | b :: _ => ok b = false end ->
  ansi.scan ok (l ++ rest) = l.
Proof.
  intros Hl Hr. induction Hl as [|b l Hb _ IH]; simpl.
  - destruct rest as [|b rest]; simpl; [done|]. now rewrite Hr.
  - now rewrite Hb, IH.
Qed.

Lemma index_middle {A} (l1 l2 : list A) x : index (l1 ++ x :: l2) (length l1) = Returns x.
Proof. unfold index. now rewrite list_lookup_middle. Qed.

Lemma index_before_middle {A} (l1 l2 : list A) x :
  index_before (l1 ++ x :: l2) (S (length l1)) = Returns x.
Proof. apply index_middle. Qed.

(** The opening of a parser at an ESC followed by the 7-bit introducer. *)
Lemma introducer_esc intro8 c7 pre rest :
  val c7 < 0x80 ->
  ansi.introducer intro8 c7 (length pre) (pre ++ ansi.ESC :: c7 :: rest)
  = Returns ([ansi.ESC; c7], (length pre + 2)%nat).
Proof.
  intros Hc. unfold ansi.introducer.
  rewrite index_middle. cbn [mbind outcome_bind].
  rewrite beq_refl, orb_true_r.
  assert (Hlt : (S (length pre) <? length (pre ++ ansi.ESC :: c7 :: rest))%nat = true).
  { apply Nat.ltb_lt. rewrite length_app. simpl. lia. }
  rewrite Hlt, index_before_middle. cbn [mbind outcome_bind].
  replace (pre ++ ansi.ESC :: c7 :: rest) with ((pre ++ [ansi.ESC]) ++ c7 :: rest)
    by now rewrite <- app_assoc.
  replace (S (length pre)) with (length (pre ++ [ansi.ESC]))
    by (rewrite length_app; simpl; lia).
  rewrite index_middle. cbn [mbind outcome_bind].
  rewrite !beq_refl. simpl.
  rewrite (string_of_byte_ascii c7 Hc).
  do 2 f_equal. rewrite length_app. simpl. lia.
Qed.

Lemma is_param_ascii b : ansi.is_param b = true -> val b < 0x80.
Proof. intros H%between_lt. lia. Qed.

Lemma is_intermediate_ascii b : ansi.is_intermediate b = true -> val b < 0x80.
Proof. intros H%between_lt. lia. Qed.

Lemma is_intermediate_not_param b :
  ansi.is_intermediate b = true -> ansi.is_param b = false.
Proof.
  intros H%between_lt. unfold ansi.is_param, between.
  apply andb_false_iff. left. apply Z.leb_gt. lia.
Qed.

(** The two scans of [parseCsi] walk over the parameter bytes and then over
    the intermediate bytes, and stop at the first byte that is neither. *)
Lemma parseCsi_shape d pre params inters rest alt :
  Forall (fun b => ansi.is_param b = true) params ->
  Forall (fun b => ansi.is_intermediate b = true) inters ->
  match rest with
  | [] => True
  | b :: _ => ansi.is_param b = false /\ ansi.is_intermediate b = false
  end ->
  let p := pre ++ ansi.ESC :: x5b :: params ++ inters ++ rest in
  ansi.parseCsi X d (length pre) p alt
  = ansi.csiFinal X d alt (ansi.ESC :: x5b :: params ++ inters)
      (length pre + 2 + length params + length inters)%nat p.
Proof.
  intros Hp Hi Hr p. unfold ansi.parseCsi. subst p.
  rewrite introducer_esc by done. cbn [mbind outcome_bind].
  assert (Hd : drop (length pre + 2) (pre ++ ansi.ESC :: x5b :: params ++ inters ++ rest)
               = params ++ inters ++ rest).
  { replace (pre ++ ansi.ESC :: x5b :: params ++ inters ++ rest)
      with ((pre ++ [ansi.ESC; x5b]) ++ params ++ inters ++ rest)
      by now rewrite <- app_assoc.
    apply drop_app_length'. rewrite length_app. simpl. lia. }
  rewrite Hd.
  assert (Hs1 : ansi.scan ansi.is_param (params ++ inters ++ rest) = params).
  { apply scan_all; [done|]. destruct Hi as [|b l Hb _]; simpl.
    - destruct rest; [done|]. apply Hr.
    - now apply is_intermediate_not_param. }
  rewrite Hs1.
  assert (Hd2 : drop (length pre + 2 + length params)
                  (pre ++ ansi.ESC :: x5b :: params ++ inters ++ rest) = inters ++ rest).
  { replace (pre ++ ansi.ESC :: x5b :: params ++ inters ++ rest)
      with ((pre ++ [ansi.ESC; x5b] ++ params) ++ inters ++ rest)
      by (rewrite <- !app_assoc; done).
    apply drop_app_length'. rewrite !length_app. simpl. lia. }
  rewrite Hd2.
  assert (Hs2 : ansi.scan ansi.is_intermediate (inters ++ rest) = inters).
  { apply scan_all; [done|]. destruct rest; [done|]. apply Hr. }
  rewrite Hs2.
  rewrite !str_ascii.
  - reflexivity.
  - eapply Forall_impl; [exact Hi|]. apply is_intermediate_ascii.
  - eapply Forall_impl; [exact Hp|]. apply is_param_ascii.
Qed.

(** *** The loop of [peekInput], move by move *)

Lemma step_for d p i ev b :
  p !! i = Some b ->
  ansi.step X d p (ansi.AtFor i ev) = Returns (inl (ansi.AtBegin false b i ev)).
Proof.
  intros H. unfold ansi.step.
  rewrite (proj2 (Nat.ltb_lt _ _) (lookup_lt_Some _ _ _ H)).
  unfold index. now rewrite H.
Qed.

Lemma step_exit d p i ev :
  (length p <= i)%nat ->
  ansi.step X d p (ansi.AtFor i ev) = Returns (inr (i, ev)).
Proof.
  intros H. unfold ansi.step.
  now rewrite (proj2 (Nat.ltb_ge _ _) H).
Qed.

Lemma run_S fuel d p pt :
  ansi.run X (S fuel) d p pt
  = match ansi.step X d p pt with
    | Returns (inl pt') => ansi.run X fuel d p pt'
    | Returns (inr r) => Returns r
    | Panics => Panics
    | Unfinished => Unfinished
    end.
Proof. reflexivity. Qed.

(** A pass of the loop that ends at or after the end of the buffer is the last. *)
Lemma run_exit fuel d p i ev :
  (length p <= i)%nat ->
  ansi.run X (S fuel) d p (ansi.AtFor i ev) = Returns (i, ev).
Proof. intros H. now rewrite run_S, step_exit. Qed.

(** At the label [begin] with an ESC that is followed by an open bracket, the
    CSI parser runs and the loop continues after what it consumed. *)
Lemma step_esc_csi d p i ev alt :
  length p <> 1%nat ->
  p !! (i + 1)%nat = Some x5b ->
  ansi.step X d p (ansi.AtBegin alt ansi.ESC i ev)
  = ('(n, e) ← ansi.parseCsi X d i p alt;
     Returns (inl (ansi.AtFor (i + n) (ev ++ [e])))).
Proof.
  intros H1 H. unfold ansi.step.
  rewrite beq_refl.
  rewrite (proj2 (Nat.eqb_neq _ _) H1).
  pose proof (lookup_lt_Some _ _ _ H) as Hlt.
  rewrite (proj2 (Nat.leb_gt _ _) Hlt).
  unfold index. rewrite H. cbn [mbind outcome_bind].
  change (beq x5b x4f) with false. change (beq x5b x50) with false.
  change (beq x5b x5b) with true. cbv iota.
  unfold ansi.handleSeq.
  destruct (ansi.parseCsi X d i p alt) as [[n e]| |]; reflexivity.
Qed.

(** A buffer that is one CSI sequence: three moves of the loop. *)
Lemma run_single_csi fuel d p n e :
  p !! 0%nat = Some ansi.ESC ->
  p !! 1%nat = Some x5b ->
  ansi.parseCsi X d 0 p false = Returns (n, e) ->
  (length p <= n)%nat ->
  ansi.run X (3 + fuel) d p (ansi.AtFor 0 []) = Returns (n, [e]).
Proof.
  intros H0 H1 Hparse Hn.
  change (3 + fuel)%nat with (S (S (S fuel))).
  rewrite run_S, (step_for d p 0 [] ansi.ESC) by done.
  rewrite run_S, step_esc_csi; [|apply lookup_lt_Some in H1; lia|done].
  rewrite Hparse. cbn [mbind outcome_bind].
  now rewrite run_exit.
Qed.

(** [peekInput] on a reader that holds bytes: the table is asked for the whole
    buffer, and the loop runs on a miss; the driver is returned as it was. *)
Lemma peekInput_buffered fuel d :
  ansi.rd d <> [] ->
  ansi.peekInput X fuel d
  = match ansi.table d !! ansi.rd d with
    | Some k => Returns (length (ansi.rd d), [ansi.Key k], None, d)
    | None =>
      '(i, ev) ← ansi.run X fuel d (ansi.rd d) (ansi.AtFor 0 []);
      Returns (i, ev, None, d)
    end.
Proof.
  destruct d as [t r]. simpl. intros Hr.
  destruct r as [|b tl]; [done|].
  unfold ansi.peekInput, ansi.Peek, ansi.Buffered, ansi.setRd. simpl.
  destruct tl as [|b' tl]; simpl.
  - reflexivity.
  - rewrite Nat.leb_refl. rewrite take_ge by lia. reflexivity.
Qed.

(** *** The CSI parser at the end of the buffer *)

(** C1, as amended.  A buffer that is the introducer ESC [ followed by
    parameter bytes and intermediate bytes, and ends there without a final
    byte: the decode call consumes the whole of it, never zero bytes, and
    reports it, as the key the table holds for these bytes when it holds one,
    and as an unknown event that carries them otherwise. *)
Theorem partial_csi_is_reported fuel t params inters :
  Forall (fun b => ansi.is_param b = true) params ->
  Forall (fun b => ansi.is_intermediate b = true) inters ->
  let p := ansi.ESC :: x5b :: params ++ inters in
  let d := ansi.mkDriver t p in
  ansi.peekInput X (3 + fuel) d
  = Returns (length p,
             [match t !! p with
              | Some k => ansi.Key k
              | None => ansi.UnknownEvent p
              end],
             None, d).
Proof.
  intros Hp Hi p d.
  rewrite peekInput_buffered by done.
  change (ansi.table d) with t. change (ansi.rd d) with p.
  destruct (t !! p) as [k|] eqn:Ht; [reflexivity|].
  assert (Hparse : ansi.parseCsi X d 0 p false
                   = Returns (length p, ansi.UnknownEvent p)).
  { pose proof (parseCsi_shape d [] params inters [] false Hp Hi I) as Hs.
    simpl in Hs. rewrite app_nil_r in Hs. fold p in Hs. rewrite Hs.
    unfold ansi.csiFinal.
    rewrite lookup_ge_None_2.
    - unfold ansi.partial. change (ansi.table d) with t. now rewrite Ht.
    - subst p. simpl. rewrite length_app. lia. }
  rewrite (run_single_csi fuel d p _ _ eq_refl eq_refl Hparse) by done.
  reflexivity.
Qed.

End Facts.

(** The theorem at ESC [ 1 ; $ with the sample table, which has no such key. *)
Lemma partial_csi_is_reported_witness :
  ansi.peekInput sample.externals 3
    (ansi.mkDriver sample.table [x1b; x5b; x31; x3b; x24])
  = Returns (5%nat, [ansi.UnknownEvent [x1b; x5b; x31; x3b; x24]], None,
             ansi.mkDriver sample.table [x1b; x5b; x31; x3b; x24]).
Proof.
  apply (partial_csi_is_reported sample.externals 0 sample.table [x31; x3b] [x24]).
  - repeat constructor.
  - repeat constructor.
Defined.

(** C1 as stated fails: on the buffer ESC [ 1, which ends before any final
    byte, the call consumes three bytes, not zero, and emits an unknown event
    that carries the partial sequence. *)
Lemma partial_csi_not_awaited :
  ansi.peekInput sample.externals 3 (ansi.mkDriver sample.table [x1b; x5b; x31])
  = Returns (3%nat, [ansi.UnknownEvent [x1b; x5b; x31]], None,
             ansi.mkDriver sample.table [x1b; x5b; x31]).
Proof. reflexivity. Qed.

(** ** An ESC at the end of the buffer *)

Section TrailingEscape.
Context {Mouse Color : Type}.
Variable X : ansi.Externals Mouse Color.
Implicit Types (b c : byte) (l p pre rest : list byte) (d : ansi.driver).

(** At the label [begin] with an ESC that is the last byte of a buffer of more
    than one byte, the switch is left by its [break] and the ESC is taken as
    the control code it is. *)
Lemma step_esc_last d p i ev alt :
  length p <> 1%nat ->
  (length p <= i + 1)%nat ->
  ansi.step X d p (ansi.AtBegin alt ansi.ESC i ev)
  = Returns (inl (ansi.AtFor (i + 1)
       (ev ++ [ansi.Key (ansi.altIf X alt (ansi.tableGet d ansi.esc))]))).
Proof.
  intros H1 Hi. unfold ansi.step.
  rewrite beq_refl, (proj2 (Nat.eqb_neq _ _) H1), (proj2 (Nat.leb_le _ _) Hi).
  reflexivity.
Qed.

(** The special case of the ESC case: in a buffer of exactly one byte the ESC
    is the Escape key of the table. *)
Lemma step_esc_alone d p i ev alt :
  length p = 1%nat ->
  ansi.step X d p (ansi.AtBegin alt ansi.ESC i ev)
  = Returns (inl (ansi.AtFor (i + 1) (ev ++ [ansi.Key (ansi.tableGet d ansi.esc)]))).
Proof.
  intros H1. unfold ansi.step. now rewrite beq_refl, H1.
Qed.


End TrailingEscape.


(** The whole call on the buffer a ESC: two bytes consumed, the key a and the
    Escape key. *)
Example peek_text_then_esc :
  ansi.peekInput sample.externals 5 (ansi.mkDriver sample.table [x61; x1b])
  = Returns (2%nat,
             [ansi.Key (ansi.setRunes [97] ansi.zeroKey); ansi.Key sample.keyEscape],
             None, ansi.mkDriver sample.table [x61; x1b]).
Proof. reflexivity. Qed.

(** ** Bytes the loop never gets past *)

Section Spin.
Context {Mouse Color : Type}.
Variable X : ansi.Externals Mouse Color.
Implicit Types (b c : byte) (l p pre rest : list byte) (d : ansi.driver).

(** The body of the loop leaves the index and the events as they are at a
    stray byte. *)
Lemma step_stray d p i ev alt b :
  stray b = true ->
  ansi.step X d p (ansi.AtBegin alt b i ev) = Returns (inl (ansi.AtFor i ev)).
Proof.
  intros Hb. unfold ansi.step, ansi.afterSwitch.
  destruct b; try discriminate Hb; reflexivity.
Qed.

(** At a stray byte the loop spins: no amount of fuel lets it end. *)
Lemma run_stray d p i ev b :
  p !! i = Some b ->
  stray b = true ->
  forall fuel, ansi.run X fuel d p (ansi.AtFor i ev) = Unfinished.
Proof.
  intros Hi Hb fuel.
  induction fuel as [fuel IH] using lt_wf_ind.
  destruct fuel as [|[|fuel]]; [reflexivity| |].
  - rewrite run_S, (step_for X d p i ev b Hi). reflexivity.
  - rewrite run_S, (step_for X d p i ev b Hi).
    rewrite run_S, step_stray by done.
    apply IH. lia.
Qed.

(** C4 fails on the code.  On the buffer of the single byte 0x80, which the
    table does not hold as a key, the loop of [peekInput] never ends: the byte
    matches no case of the switch, is no control code and starts no rune, so a
    pass of the loop leaves the index where it was, and the call returns
    neither a count nor zero, whatever the fuel. *)
Theorem peekInput_spins_on_stray_byte fuel t :
  t !! [x80] = None ->
  ansi.peekInput X fuel (ansi.mkDriver t [x80]) = Unfinished.
Proof.
  intros Ht. rewrite peekInput_buffered by done. simpl. rewrite Ht.
  now rewrite (run_stray _ [x80] 0%nat [] x80).
Qed.

End Spin.

(** The theorem with the sample table and a thousand moves. *)
Lemma peekInput_spins_witness :
  ansi.peekInput sample.externals 1000 (ansi.mkDriver sample.table [x80]) = Unfinished.
Proof.
  apply peekInput_spins_on_stray_byte. vm_compute. reflexivity.
Defined.

(** ** The legacy X10 mouse report *)

Section X10.
Context {Mouse Color : Type}.
Variable X : ansi.Externals Mouse Color.
Implicit Types (b c : byte) (l p pre rest : list byte) (d : ansi.driver).

(** C5 fails on the code.  For a buffer ESC [ M followed by exactly three more
    bytes (neither the buffer nor ESC [ M being a key of the table), the call
    consumes all six bytes, but the slice it hands to the X10 mouse decoder is
    ESC [ M followed by the first two of the three bytes only: [p[i+1:i+3]]
    misses the third, the row. *)
Theorem x10_decoder_gets_two_bytes fuel t b1 b2 b3 :
  let p := [x1b; x5b; x4d; b1; b2; b3] in
  let d := ansi.mkDriver t p in
  t !! p = None ->
  t !! [x1b; x5b; x4d] = None ->
  ansi.peekInput X (3 + fuel) d
  = Returns (6%nat, [ansi.parseX10MouseEvent X [x1b; x5b; x4d; b1; b2]], None, d).
Proof.
  intros p d Hp Hm.
  rewrite peekInput_buffered by done.
  change (ansi.table d) with t. change (ansi.rd d) with p. rewrite Hp.
  assert (Hparse : ansi.parseCsi X d 0 p false
            = Returns (6%nat, ansi.parseX10MouseEvent X [x1b; x5b; x4d; b1; b2])).
  { pose proof (parseCsi_shape X d [] [] [] [x4d; b1; b2; b3] false
                  (Forall_nil_2 _) (Forall_nil_2 _) (conj eq_refl eq_refl)) as Hs.
    cbv zeta in Hs.
    change ([] ++ ansi.ESC :: x5b :: [] ++ [] ++ [x4d; b1; b2; b3]) with p in Hs.
    change (length (@nil byte)) with 0%nat in Hs.
    rewrite Hs. unfold ansi.csiFinal.
    change (p !! (0 + 2 + 0 + 0)%nat) with (Some x4d).
    change (negb (ansi.is_final x4d)) with false. cbv iota zeta.
    change ((ansi.ESC :: x5b :: [] ++ []) ++ string_of_byte x4d) with [x1b; x5b; x4d].
    change (ansi.table d) with t. rewrite Hm.
    rewrite bool_decide_eq_true_2 by done. reflexivity. }
  rewrite (run_single_csi X fuel d p _ _ eq_refl eq_refl Hparse) by done.
  reflexivity.
Qed.

End X10.

(** The theorem at the bytes 0x20 0x0A 0x14, with the decoder that returns
    what it was given. *)
Lemma x10_decoder_gets_two_bytes_witness :
  ansi.peekInput sample.externals 3
    (ansi.mkDriver sample.table [x1b; x5b; x4d; x20; x0a; x14])
  = Returns (6%nat, [ansi.MouseEvent [x1b; x5b; x4d; x20; x0a]], None,
             ansi.mkDriver sample.table [x1b; x5b; x4d; x20; x0a; x14]).
Proof.
  apply (x10_decoder_gets_two_bytes sample.externals 0 sample.table x20 x0a x14).
  - vm_compute. reflexivity.
  - vm_compute. reflexivity.
Defined.

(** ** 8-bit introducers and the count of bytes *)

Section EightBit.
Context {Mouse Color : Type}.
Variable X : ansi.Externals Mouse Color.
Implicit Types (b c : byte) (l p pre rest : list byte) (d : ansi.driver).

(** The opening of a parser at its 8-bit introducer: [seq] is the two bytes
    that [string(p[i])] makes of it. *)
Lemma introducer_8bit intro8 c7 pre rest :
  intro8 <> ansi.ESC ->
  ansi.introducer intro8 c7 (length pre) (pre ++ intro8 :: rest)
  = Returns (string_of_byte intro8, (length pre + 1)%nat).
Proof.
  intros Hne. unfold ansi.introducer.
  rewrite index_middle. cbn [mbind outcome_bind].
  rewrite beq_refl. cbn [orb].
  destruct (Nat.ltb_spec (S (length pre)) (length (pre ++ intro8 :: rest)))
    as [Hlt|Hge].
  - rewrite index_before_middle. cbn [mbind outcome_bind].
    destruct (lookup_lt_is_Some_2 _ _ Hlt) as [cur Hcur].
    unfold index. rewrite Hcur. cbn [mbind outcome_bind].
    rewrite (beq_neq _ _ Hne). cbn [andb].
    do 2 f_equal. lia.
  - do 2 f_equal. lia.
Qed.

(** [parseCsi] at an 8-bit CSI that ends the buffer: the sequence is two bytes
    long, one more than the parser has read. *)
Lemma parseCsi_csi8_alone d pre alt :
  ansi.parseCsi X d (length pre) (pre ++ [ansi.CSI]) alt
  = Returns (ansi.partial X d alt [xc2; x9b]).
Proof.
  unfold ansi.parseCsi.
  rewrite introducer_8bit by done. cbn [mbind outcome_bind].
  rewrite drop_ge by (rewrite length_app; simpl; lia).
  cbn [ansi.scan ansi.str flat_map length app]. rewrite !Nat.add_0_r.
  rewrite drop_ge by (rewrite length_app; simpl; lia).
  cbn [ansi.scan ansi.str flat_map length app]. rewrite !Nat.add_0_r, !app_nil_r.
  unfold ansi.csiFinal.
  rewrite lookup_ge_None_2 by (rewrite length_app; simpl; lia).
  reflexivity.
Qed.

(** At the label [begin] with an 8-bit CSI, the CSI parser runs. *)
Lemma step_csi8 d p i ev alt :
  ansi.step X d p (ansi.AtBegin alt ansi.CSI i ev)
  = ('(n, e) ← ansi.parseCsi X d i p alt;
     Returns (inl (ansi.AtFor (i + n) (ev ++ [e])))).
Proof.
  unfold ansi.step, ansi.handleSeq.
  change (beq ansi.CSI ansi.ESC) with false. change (beq ansi.CSI ansi.SS3) with false.
  change (beq ansi.CSI ansi.DCS) with false. change (beq ansi.CSI ansi.CSI) with true.
  cbv iota.
  destruct (ansi.parseCsi X d i p alt) as [[n e]| |]; reflexivity.
Qed.

(** A buffer that is an 8-bit CSI alone: the loop ends after one pass, at the
    index 2 of a buffer of one byte. *)
Lemma run_csi8_alone fuel d :
  ansi.run X (3 + fuel) d [ansi.CSI] (ansi.AtFor 0 [])
  = Returns (2%nat, [snd (ansi.partial X d false [xc2; x9b])]).
Proof.
  change (3 + fuel)%nat with (S (S (S fuel))).
  rewrite run_S, (step_for X d [ansi.CSI] 0 [] ansi.CSI eq_refl).
  rewrite run_S, step_csi8.
  pose proof (parseCsi_csi8_alone d [] false) as Hparse.
  change (ansi.parseCsi X d 0 [ansi.CSI] false
          = Returns (ansi.partial X d false [xc2; x9b])) in Hparse.
  rewrite Hparse. cbn [mbind outcome_bind].
  unfold ansi.partial at 1. cbn [length Nat.add app].
  now rewrite run_exit by (simpl; lia).
Qed.

(** C9 fails on the code.  On a reader that holds the single byte 0x9B (the
    8-bit CSI), which the table does not hold as a key, [peekInput] reports two
    bytes for the one byte it read, [string(p[i])] having made two bytes of
    it.  [PeekInput] returns the event and leaves the driver as it was, but
    [ReadInput] then discards two bytes from a buffer of one: the discard
    fails, and [ReadInput] returns the error and no event. *)
Theorem read_fails_after_peek fuel t :
  t !! [x9b] = None ->
  let d := ansi.mkDriver t [x9b] in
  let e := match t !! [xc2; x9b] with
           | Some k => ansi.Key k
           | None => ansi.UnknownEvent [xc2; x9b]
           end in
  ansi.peekInput X (3 + fuel) d = Returns (2%nat, [e], None, d) /\
  ansi.PeekInput X (3 + fuel) d = Returns ([e], None, d) /\
  ansi.ReadInput X (3 + fuel) d = Returns ([], Some ansi.EOF, ansi.mkDriver t []).
Proof.
  intros Ht d e.
  assert (Hpeek : ansi.peekInput X (3 + fuel) d = Returns (2%nat, [e], None, d)).
  { rewrite peekInput_buffered by done.
    change (ansi.table d) with t. change (ansi.rd d) with [ansi.CSI].
    change [ansi.CSI] with [x9b] at 1. rewrite Ht.
    rewrite run_csi8_alone. cbn [mbind outcome_bind].
    unfold ansi.partial. cbn [snd]. change (ansi.table d) with t. subst e.
    destruct (t !! [xc2; x9b]); reflexivity. }
  split; [exact Hpeek|].
  unfold ansi.PeekInput, ansi.ReadInput. rewrite Hpeek.
  split; reflexivity.
Qed.

End EightBit.

(** The theorem with the sample table. *)
Lemma read_fails_after_peek_witness :
  ansi.peekInput sample.externals 3 (ansi.mkDriver sample.table [x9b])
  = Returns (2%nat, [ansi.UnknownEvent [xc2; x9b]], None,
             ansi.mkDriver sample.table [x9b]) /\
  ansi.PeekInput sample.externals 3 (ansi.mkDriver sample.table [x9b])
  = Returns ([ansi.UnknownEvent [xc2; x9b]], None, ansi.mkDriver sample.table [x9b]) /\
  ansi.ReadInput sample.externals 3 (ansi.mkDriver sample.table [x9b])
  = Returns ([], Some ansi.EOF, ansi.mkDriver sample.table []).
Proof.
  apply (read_fails_after_peek sample.externals 0 sample.table).
  vm_compute. reflexivity.
Defined.

(** ** ESC before a byte that starts no sequence *)

Section AltKey.
Context {Mouse Color : Type}.
Variable X : ansi.Externals Mouse Color.
Implicit Types (b c : byte) (l p pre rest : list byte) (d : ansi.driver).

Lemma step_esc_alt d p i ev alt b1 :
  length p <> 1%nat ->
  p !! (i + 1)%nat = Some b1 ->
  special b1 = false ->
  ansi.step X d p (ansi.AtBegin alt ansi.ESC i ev)
  = Returns (inl (ansi.AtBegin true b1 (i + 1) ev)).
Proof.
  intros H1 H Hs. unfold ansi.step.
  rewrite beq_refl, (proj2 (Nat.eqb_neq _ _) H1).
  pose proof (lookup_lt_Some _ _ _ H) as Hlt.
  rewrite (proj2 (Nat.leb_gt _ _) Hlt).
  unfold index. rewrite H. cbn [mbind outcome_bind].
  unfold special in Hs. rewrite !orb_false_iff in Hs.
  destruct Hs as [[[[-> ->] ->] ->] ->]. reflexivity.
Qed.

Lemma ascii_not_intro8 b :
  val b < 0x80 ->
  beq b ansi.SS3 = false /\ beq b ansi.DCS = false /\ beq b ansi.CSI = false /\
  beq b ansi.OSC = false /\ beq b ansi.APC = false.
Proof. destruct b; vm_compute; intuition congruence. Qed.

Lemma step_ascii d p i ev alt b :
  val b < 0x80 ->
  b <> ansi.ESC ->
  ansi.step X d p (ansi.AtBegin alt b i ev)
  = Returns (inl (ansi.AtFor (fst (ansi.afterSwitch X d p alt b i ev))
                             (snd (ansi.afterSwitch X d p alt b i ev)))).
Proof.
  intros Hb Hne. unfold ansi.step.
  destruct (ascii_not_intro8 b Hb) as (-> & -> & -> & -> & ->).
  rewrite (beq_neq _ _ Hne). cbn [mbind outcome_bind].
  destruct (ansi.afterSwitch X d p alt b i ev). reflexivity.
Qed.

Lemma afterSwitch_control d p i ev alt b :
  control b = true ->
  ansi.afterSwitch X d p alt b i ev
  = ((i + 1)%nat, ev ++ [ansi.Key (ansi.altIf X alt (ansi.tableGet d (string_of_byte b)))]).
Proof. intros Hc. unfold ansi.afterSwitch. unfold control in Hc. now rewrite Hc. Qed.

Lemma ascii_rune b :
  val b < 0x80 ->
  utf8.RuneStart b = true /\ utf8.DecodeRune [b] = (val b, 1%nat) /\
  ansi.stops (val b) = control b.
Proof. destruct b; vm_compute; intuition congruence. Qed.

Lemma afterSwitch_printable d p i ev alt b :
  val b < 0x80 ->
  control b = false ->
  drop i p = [b] ->
  ansi.afterSwitch X d p alt b i ev
  = ((i + 1)%nat, ev ++ [ansi.Key (ansi.altIf X alt (ansi.setRunes [val b] ansi.zeroKey))]).
Proof.
  intros Hb Hc Hd. unfold ansi.afterSwitch.
  destruct (ascii_rune b Hb) as (Hs & Hdec & Hst).
  unfold control in Hc. rewrite Hc, Hs, Hd.
  unfold ansi.collectRunes. cbn [length ansi.collect].
  rewrite Hdec, Hst. unfold control. rewrite Hc.
  reflexivity.
Qed.

(** C6, as amended.  Let B be a 7-bit byte (below 0x80) other than O, P, the
    open bracket, the close bracket and the underscore, and let the table hold
    no key for the two bytes ESC B, and none for B alone unless B is a control
    code, DEL or the space.  Then the one-byte buffer B decodes to one key
    event [k], and the two-byte buffer ESC B decodes, with exactly 2 bytes
    consumed, to the same key with the Alt modifier set as well.  The key [k]
    is the table's key for B (the zero key when there is none) for a control
    code, DEL or the space, and the key of the one rune B otherwise. *)
Theorem esc_prefix_sets_alt fuel t B :
  val B < 0x80 ->
  special B = false ->
  t !! [ansi.ESC; B] = None ->
  (control B = false -> t !! [B] = None) ->
  let k := if control B then default ansi.zeroKey (t !! [B])
           else ansi.setRunes [val B] ansi.zeroKey in
  ansi.peekInput X (3 + fuel) (ansi.mkDriver t [B])
  = Returns (1%nat, [ansi.Key k], None, ansi.mkDriver t [B]) /\
  ansi.peekInput X (4 + fuel) (ansi.mkDriver t [ansi.ESC; B])
  = Returns (2%nat, [ansi.Key (ansi.withAlt X k)], None, ansi.mkDriver t [ansi.ESC; B]).
Proof.
  intros HB Hsp Hesc Hprint k. split.
  - rewrite peekInput_buffered by done. cbn [ansi.table ansi.rd].
    destruct (t !! [B]) as [k0|] eqn:Ht.
    + destruct (control B) eqn:Hc; [subst k; reflexivity|].
      now specialize (Hprint eq_refl).
    + change (3 + fuel)%nat with (S (S (S fuel))).
      rewrite run_S, (step_for X _ [B] 0 [] B eq_refl).
      rewrite run_S.
      destruct (decide (B = ansi.ESC)) as [->|Hne].
      * subst k. change (control ansi.ESC) with true. cbv iota.
        unfold ansi.step. rewrite beq_refl. cbn [length Nat.eqb].
        rewrite run_exit by (simpl; lia).
        unfold ansi.tableGet. cbn [ansi.table].
        change ansi.esc with [ansi.ESC]. rewrite Ht. reflexivity.
      * rewrite step_ascii by done.
        destruct (control B) eqn:Hc.
        -- rewrite afterSwitch_control by done. cbn [fst snd].
           rewrite run_exit by (simpl; lia).
           unfold ansi.tableGet. cbn [ansi.table].
           rewrite string_of_byte_ascii by done. rewrite Ht. subst k. reflexivity.
        -- rewrite afterSwitch_printable by done. cbn [fst snd].
           rewrite run_exit by (simpl; lia). subst k. reflexivity.
  - rewrite peekInput_buffered by done. cbn [ansi.table ansi.rd]. rewrite Hesc.
    change (4 + fuel)%nat with (S (S (S (S fuel)))).
    rewrite run_S, (step_for X _ [ansi.ESC; B] 0 [] ansi.ESC eq_refl).
    rewrite run_S, (step_esc_alt _ _ _ _ _ B) by done.
    rewrite run_S.
    destruct (decide (B = ansi.ESC)) as [->|Hne].
    + subst k. change (control ansi.ESC) with true. cbv iota.
      rewrite step_esc_last by (simpl; lia).
      rewrite run_exit by (simpl; lia).
      unfold ansi.tableGet. cbn [ansi.table]. reflexivity.
    + rewrite step_ascii by done.
      destruct (control B) eqn:Hc.
      * rewrite afterSwitch_control by done. cbn [fst snd].
        rewrite run_exit by (simpl; lia).
        unfold ansi.tableGet. cbn [ansi.table].
        rewrite string_of_byte_ascii by done. subst k. reflexivity.
      * rewrite afterSwitch_printable by done. cbn [fst snd].
        rewrite run_exit by (simpl; lia). subst k. reflexivity.
Qed.

End AltKey.

(** The theorem at the byte a, with the sample table. *)
Lemma esc_prefix_sets_alt_witness :
  ansi.peekInput sample.externals 3 (ansi.mkDriver sample.table [x61])
  = Returns (1%nat, [ansi.Key (ansi.setRunes [97] ansi.zeroKey)], None,
             ansi.mkDriver sample.table [x61]) /\
  ansi.peekInput sample.externals 4 (ansi.mkDriver sample.table [x1b; x61])
  = Returns (2%nat,
             [ansi.Key (ansi.withAlt sample.externals (ansi.setRunes [97] ansi.zeroKey))],
             None, ansi.mkDriver sample.table [x1b; x61]).
Proof.
  apply (esc_prefix_sets_alt sample.externals 0 sample.table x61).
  - vm_compute. reflexivity.
  - reflexivity.
  - vm_compute. reflexivity.
  - intros _. vm_compute. reflexivity.
Defined.

(** C6 as stated fails: the byte 0x8F is none of O, P, the brackets and the
    underscore, yet ESC 0x8F decodes to the unknown event that 0x8F alone
    decodes to, an event that carries no modifier, and the call reports three
    bytes consumed, not two. *)
Lemma esc_before_ss3_is_unknown :
  special x8f = false /\
  ansi.peekInput sample.externals 3 (ansi.mkDriver sample.table [x8f])
  = Returns (2%nat, [ansi.UnknownEvent [xc2; x8f]], None,
             ansi.mkDriver sample.table [x8f]) /\
  ansi.peekInput sample.externals 4 (ansi.mkDriver sample.table [x1b; x8f])
  = Returns (3%nat, [ansi.UnknownEvent [xc2; x8f]], None,
             ansi.mkDriver sample.table [x1b; x8f]).
Proof. repeat split; reflexivity. Qed.

(** ** The Kitty keyboard protocol *)

Section Kitty.
Context {Mouse Color : Type}.
Variable X : ansi.Externals Mouse Color.
Implicit Types (b c : byte) (l p pre rest : list byte) (d : ansi.driver).

(** The modifiers and the action of the key the Kitty branch builds from a
    list of at least two parameters. *)
Lemma kittyKey_mod_action code al m subs others :
  match others with [] => True | o :: _ => o <> [] end ->
  exists key,
    ansi.kittyKey X ((code :: al) :: (m :: subs) :: others) = Returns key /\
    ansi.Mod key = (if 1 <? m then ansi.fromKittyMod X (m - 1) else 0) /\
    ansi.Action key = kittyAction subs.
Proof.
  intros Ho. unfold ansi.kittyKey, kittyAction.
  destruct others as [|[|r o'] others']; [|done|];
    destruct al as [|a al'], subs as [|s subs'];
    cbn [length Nat.ltb Nat.leb index lookup list_lookup mbind outcome_bind];
    destruct (ansi.kittyKeyMap X code);
    cbn [length Nat.ltb Nat.leb index lookup list_lookup mbind outcome_bind];
    (eexists; split; [reflexivity|]);
    repeat match goal with
           | |- context [if ?c then _ else _] => destruct c eqn:?
           end;
    cbn; split; try reflexivity; lia.
Qed.

(** C7.  A sequence ESC [ parameters u that the table does not hold, that has
    no parameter prefix and whose parameters are [code:...; m:subs; ...],
    decodes to a key event whose modifiers are the decoding [fromKittyMod] of
    [m - 1] when [m] is greater than 1 (and are empty otherwise), and whose
    action the first of [subs] selects: a press when it is 1 or absent, a
    repeat when it is 2, a release when it is 3. *)
Theorem kitty_modifiers_and_action d pre ps rest alt code al m subs others :
  Forall (fun b => ansi.is_param b = true) ps ->
  let seq := ansi.ESC :: x5b :: ps ++ [x75] in
  ansi.table d !! seq = None ->
  ansi.CsiInitial X seq = 0 ->
  ansi.CsiCommand X seq = 0x75 ->
  ansi.CsiParams X seq = (code :: al) :: (m :: subs) :: others ->
  match others with [] => True | o :: _ => o <> [] end ->
  exists key,
    ansi.parseCsi X d (length pre) (pre ++ seq ++ rest) alt
    = Returns (length seq, ansi.Key key) /\
    ansi.Mod key = (if 1 <? m then ansi.fromKittyMod X (m - 1) else 0) /\
    ansi.Action key = kittyAction subs.
Proof.
  intros Hps seq Ht Hini Hcmd Hparams Ho.
  destruct (kittyKey_mod_action code al m subs others Ho) as (key & Hkey & Hmod & Hact).
  exists key. split; [|done].
  pose proof (parseCsi_shape X d pre ps [] (x75 :: rest) alt Hps (Forall_nil_2 _)
                (conj eq_refl eq_refl)) as Hs.
  cbv zeta in Hs.
  assert (Hp : pre ++ ansi.ESC :: x5b :: ps ++ [] ++ x75 :: rest = pre ++ seq ++ rest).
  { subst seq. cbn [app]. now rewrite <- app_assoc. }
  rewrite Hp in Hs. rewrite Hs. clear Hs.
  unfold ansi.csiFinal.
  assert (Hi : (pre ++ seq ++ rest) !! (length pre + 2 + length ps + length (@nil byte))%nat
               = Some x75).
  { rewrite <- Hp. cbn [length app]. rewrite Nat.add_0_r.
    replace (pre ++ ansi.ESC :: x5b :: ps ++ x75 :: rest)
      with ((pre ++ ansi.ESC :: x5b :: ps) ++ x75 :: rest)
      by (rewrite <- app_assoc; reflexivity).
    apply list_lookup_middle. rewrite length_app. simpl. lia. }
  rewrite Hi. change (negb (ansi.is_final x75)) with false. cbv iota zeta.
  rewrite app_nil_r.
  change ((ansi.ESC :: x5b :: ps) ++ string_of_byte x75) with seq.
  rewrite Ht, Hini, Hcmd, Hparams, Hkey.
  assert (Hne : seq <> [x1b; x5b; x4d]).
  { subst seq. intros E. injection E as E. destruct ps as [|? [|? ?]]; discriminate E. }
  rewrite (bool_decide_eq_false_2 _ Hne). reflexivity.
Qed.

End Kitty.

(** The theorem at ESC [ 97 ; 5 : 2 u: the modifiers are the decoding of 4,
    and the action is a repeat. *)
Lemma kitty_modifiers_and_action_witness :
  exists key,
    ansi.parseCsi sample.externals (ansi.mkDriver sample.table [])
      0 [x1b; x5b; x39; x37; x3b; x35; x3a; x32; x75] false
    = Returns (9%nat, ansi.Key key) /\
    ansi.Mod key = 4 /\ ansi.Action key = ansi.KeyRepeat.
Proof.
  apply (kitty_modifiers_and_action sample.externals (ansi.mkDriver sample.table [])
           [] [x39; x37; x3b; x35; x3a; x32] [] false 97 [] 5 [2] []).
  - repeat constructor.
  - vm_compute. reflexivity.
  - vm_compute. reflexivity.
  - vm_compute. reflexivity.
  - vm_compute. reflexivity.
  - exact I.
Defined.

(** ** OSC sequences *)

Section Osc.
Context {Mouse Color : Type}.
Variable X : ansi.Externals Mouse Color.
Implicit Types (b c : byte) (l p pre rest : list byte) (d : ansi.driver).

(** The scan of [parseOsc] walks over the bytes of the payload and stops at the
    first BEL, ESC or ST. *)
Lemma parseOsc_shape d pre body rest alt :
  Forall (fun b => ansi.oscBody b = true) body ->
  match rest with [] => True | b :: _ => ansi.oscBody b = false end ->
  let p := pre ++ ansi.ESC :: x5d :: body ++ rest in
  ansi.parseOsc X d (length pre) p alt
  = ansi.oscFinal X (ansi.ESC :: x5d :: ansi.str body)
      (length pre + 2 + length body)%nat p.
Proof.
  intros Hb Hr p. unfold ansi.parseOsc. subst p.
  rewrite introducer_esc by done. cbn [mbind outcome_bind].
  assert (Hd : drop (length pre + 2) (pre ++ ansi.ESC :: x5d :: body ++ rest)
               = body ++ rest).
  { replace (pre ++ ansi.ESC :: x5d :: body ++ rest)
      with ((pre ++ [ansi.ESC; x5d]) ++ body ++ rest)
      by now rewrite <- app_assoc.
    apply drop_app_length'. rewrite length_app. simpl. lia. }
  rewrite Hd, scan_all by done.
  reflexivity.
Qed.

(** C8.  An OSC sequence ESC ] payload, with a 7-bit payload that holds no
    BEL, ESC or ST, decodes to the foreground, background or cursor colour
    event when its identifier is 10, 11 or 12, the event carrying the colour
    parsed from its data, and to an unknown event carrying the raw sequence
    for any other identifier ([oscEvent]); this holds for a sequence ended by
    BEL and for one ended by the string terminator ESC backslash, and the
    parser consumes the sequence with its terminator. *)
Theorem osc_colors d pre body term rest alt :
  Forall (fun b => ansi.oscBody b = true) body ->
  Forall (fun b => val b < 0x80) body ->
  oscEnd term ->
  let seq := ansi.ESC :: x5d :: body ++ term in
  ansi.parseOsc X d (length pre) (pre ++ seq ++ rest) alt
  = Returns (length seq, oscEvent X seq).
Proof.
  intros Hb Ha Hterm seq.
  assert (Hr : match term ++ rest with [] => True | b :: _ => ansi.oscBody b = false end).
  { destruct Hterm as [-> | ->]; reflexivity. }
  pose proof (parseOsc_shape d pre body (term ++ rest) alt Hb Hr) as Hs.
  cbv zeta in Hs.
  assert (Hp : pre ++ ansi.ESC :: x5d :: body ++ term ++ rest = pre ++ seq ++ rest).
  { subst seq. cbn [app]. now rewrite <- app_assoc. }
  rewrite Hp in Hs. rewrite Hs. clear Hs.
  rewrite (str_ascii body Ha).
  set (i := (length pre + 2 + length body)%nat).
  assert (Hi : forall k, (pre ++ seq ++ rest) !! (i + k)%nat = (term ++ rest) !! k).
  { intros k. rewrite <- Hp.
    replace (pre ++ ansi.ESC :: x5d :: body ++ term ++ rest)
      with ((pre ++ ansi.ESC :: x5d :: body) ++ term ++ rest)
      by (rewrite <- app_assoc; reflexivity).
    rewrite lookup_app_r by (rewrite length_app; simpl; lia).
    f_equal. rewrite length_app. simpl. lia. }
  assert (Hend : exists b, (pre ++ seq ++ rest) !! i = Some b /\
            ansi.terminated (ansi.ESC :: x5d :: body) i (pre ++ seq ++ rest) b = seq).
  { unfold ansi.terminated.
    pose proof (Hi 0%nat) as H0. rewrite Nat.add_0_r in H0.
    pose proof (Hi 1%nat) as H1. replace (i + 1)%nat with (S i) in H1 by lia.
    rewrite H0, H1. clear H0 H1 Hi.
    destruct Hterm as [-> | ->]; subst seq; cbn [lookup list_lookup app].
    - exists ansi.BEL. split; [reflexivity|].
      change (beq ansi.BEL ansi.ESC) with false. cbn [andb].
      now destruct (rest !! 0%nat).
    - exists ansi.ESC. split; [reflexivity|].
      change (beq ansi.ESC ansi.ESC) with true. change (beq x5c x5c) with true.
      cbn [andb]. change (string_of_byte ansi.ESC) with [ansi.ESC].
      change (string_of_byte x5c) with [x5c].
      now rewrite <- !app_assoc. }
  destruct Hend as (b & Hb0 & Hseq).
  unfold ansi.oscFinal. rewrite Hb0. cbv zeta. rewrite Hseq.
  unfold oscEvent.
  repeat match goal with
         | |- context [bool_decide ?P] => destruct (bool_decide P)
         end; reflexivity.
Qed.

End Osc.

(** The theorem at ESC ] 11 ; rgb:1/2/3 ended by BEL and by ESC backslash; the
    sample colour parser returns the data it is given. *)
Lemma osc_colors_witness :
  ansi.parseOsc sample.externals (ansi.mkDriver sample.table []) 0
    [x1b; x5d; x31; x31; x3b; x72; x67; x62; x3a; x31; x2f; x32; x2f; x33; x07] false
  = Returns (15%nat, ansi.BgColorEvent [x72; x67; x62; x3a; x31; x2f; x32; x2f; x33]) /\
  ansi.parseOsc sample.externals (ansi.mkDriver sample.table []) 0
    [x1b; x5d; x31; x31; x3b; x72; x67; x62; x3a; x31; x2f; x32; x2f; x33; x1b; x5c] false
  = Returns (16%nat, ansi.BgColorEvent [x72; x67; x62; x3a; x31; x2f; x32; x2f; x33]).
Proof.
  split.
  - apply (osc_colors sample.externals (ansi.mkDriver sample.table []) []
             [x31; x31; x3b; x72; x67; x62; x3a; x31; x2f; x32; x2f; x33] [x07] [] false).
    + repeat constructor.
    + repeat constructor.
    + left. reflexivity.
  - apply (osc_colors sample.externals (ansi.mkDriver sample.table []) []
             [x31; x31; x3b; x72; x67; x62; x3a; x31; x2f; x32; x2f; x33] [x1b; x5c] [] false).
    + repeat constructor.
    + repeat constructor.
    + right. reflexivity.
Defined.

(** ** Bracketed paste *)

Section Paste.
Context {Key Other : Type}.
Implicit Types (d : input.Driver Key Other) (P : input.EventParser Key Other)
  (e : list (input.Event Key Other)) (acc chunk body start stop : list byte).

Lemma loop_done fuel nb d i e :
  (nb <= i)%nat ->
  input.loop (S fuel) nb d i e = Returns (e, d).
Proof.
  intros H. cbn [input.loop]. now rewrite (proj2 (Nat.ltb_ge _ _) H).
Qed.

(** A pass of the loop while a paste is in progress and the parser does not
    report the end of the paste: the byte at [i] joins the accumulator, no
    event is added, and the loop moves on by one byte. *)
Lemma loop_paste_byte fuel nb d i e acc n ev b :
  (i < nb)%nat ->
  input.paste d = Some acc ->
  input.ParseSequence (input.parser d) (input.view d nb i) = (n, ev) ->
  input.isPasteEnd ev = false ->
  take nb (input.buf d) !! i = Some b ->
  input.loop (S fuel) nb d i e
  = input.loop fuel nb (input.setPaste (Some (acc ++ [b])) d) (i + 1) e.
Proof.
  intros Hi Hp Hparse Hev Hb. cbn [input.loop].
  rewrite (proj2 (Nat.ltb_lt _ _) Hi). cbn [negb].
  rewrite Hparse, Hp, Hev.
  unfold index. rewrite Hb. reflexivity.
Qed.

Lemma loop_paste_start fuel nb d i e n :
  (i < nb)%nat ->
  input.paste d = None ->
  input.ParseSequence (input.parser d) (input.view d nb i) = (n, Some input.PasteStartEvent) ->
  input.loop (S fuel) nb d i e
  = input.loop fuel nb (input.setPaste (Some []) d) (i + n) (e ++ [input.PasteStartEvent]).
Proof.
  intros Hi Hp Hparse. cbn [input.loop].
  rewrite (proj2 (Nat.ltb_lt _ _) Hi). cbn [negb].
  rewrite Hparse, Hp. reflexivity.
Qed.

Lemma loop_paste_end fuel nb d i e n :
  (i < nb)%nat ->
  input.ParseSequence (input.parser d) (input.view d nb i) = (n, Some input.PasteEndEvent) ->
  input.loop (S fuel) nb d i e
  = input.loop fuel nb (input.setPaste None d) (i + n)
      (e ++ [input.PasteEvent (input.decodePaste (default [] (input.paste d)))]
         ++ [input.PasteEndEvent]).
Proof.
  intros Hi Hparse. cbn [input.loop].
  rewrite (proj2 (Nat.ltb_lt _ _) Hi). cbn [negb].
  rewrite Hparse.
  destruct (input.paste d); reflexivity.
Qed.

(** No decoded paste holds the replacement rune: an invalid byte is dropped. *)
Lemma decode_no_RuneError passes l : utf8.RuneError ∉ input.decode passes l.
Proof.
  revert l. induction passes as [|passes IH]; intros l; [apply not_elem_of_nil|].
  destruct l as [|b l]; [apply not_elem_of_nil|].
  cbn [input.decode].
  destruct (utf8.DecodeRune (b :: l)) as [r w].
  rewrite elem_of_app. intros [H|H].
  - destruct (r =? utf8.RuneError) eqn:E.
    + now apply elem_of_nil in H.
    + apply list_elem_of_singleton in H. subst r. now rewrite Z.eqb_refl in E.
  - now apply IH in H.
Qed.

(** The slice the parser sees at [i], when the buffer starts with the chunk
    just read. *)
Lemma view_chunk rd0 P ps chunk tail i :
  (i <= length chunk)%nat ->
  input.view (input.mkDriver rd0 P ps (chunk ++ tail)) (length chunk) i = drop i chunk.
Proof.
  intros Hi. unfold input.view. cbn [input.buf].
  rewrite drop_app_le by done.
  rewrite take_app_le by (rewrite length_drop; lia).
  apply take_ge. rewrite length_drop. lia.
Qed.

(** While the parser does not report the end of the paste, the loop moves the
    bytes of the buffer into the accumulator one by one and adds no event. *)
Lemma loop_accumulate rd0 P tail start stop body2 :
  forall body1 acc fuel e,
  (forall k, (k < length body2)%nat ->
     input.isPasteEnd (snd (input.ParseSequence P (drop k body2 ++ stop))) = false) ->
  let chunk := start ++ body1 ++ body2 ++ stop in
  input.loop (length body2 + fuel) (length chunk)
    (input.mkDriver rd0 P (Some acc) (chunk ++ tail))
    (length start + length body1) e
  = input.loop fuel (length chunk)
      (input.mkDriver rd0 P (Some (acc ++ body2)) (chunk ++ tail))
      (length start + length body1 + length body2) e.
Proof.
  induction body2 as [|b body2 IH]; intros body1 acc fuel e Hno chunk.
  - cbn [length Nat.add]. now rewrite app_nil_r, Nat.add_0_r.
  - cbn [length Nat.add].
    set (i := (length start + length body1)%nat).
    assert (Hlen : length chunk
                   = (i + S (length body2) + length stop)%nat).
    { subst chunk i. rewrite !length_app. simpl. lia. }
    assert (Hdrop : drop i chunk = (b :: body2) ++ stop).
    { subst chunk i. rewrite app_assoc, drop_app_length'; [done|].
      now rewrite length_app. }
    destruct (input.ParseSequence P ((b :: body2) ++ stop)) as [n ev] eqn:Hparse.
    rewrite (loop_paste_byte _ _ _ _ _ acc n ev b).
    + specialize (IH (body1 ++ [b]) (acc ++ [b]) fuel e).
      cbv zeta in IH.
      replace (start ++ (body1 ++ [b]) ++ body2 ++ stop) with chunk in IH
        by (subst chunk; now rewrite <- !app_assoc).
      replace (length start + length (body1 ++ [b]))%nat with (i + 1)%nat in IH
        by (subst i; rewrite length_app; simpl; lia).
      unfold input.setPaste. cbn [input.rd input.parser input.buf].
      rewrite IH.
      * rewrite <- app_assoc.
        replace (i + 1 + length body2)%nat with (i + S (length body2))%nat by lia.
        reflexivity.
      * intros k Hk. apply (Hno (S k)). simpl. lia.
    + lia.
    + reflexivity.
    + rewrite view_chunk by lia. now rewrite Hdrop.
    + specialize (Hno 0%nat ltac:(simpl; lia)). cbn [drop] in Hno.
      now rewrite Hparse in Hno.
    + cbn [input.buf]. rewrite take_app_length.
      rewrite <- (Nat.add_0_r i), <- lookup_drop, Hdrop. reflexivity.
Qed.

(** C2, as amended.  A read gives the start marker, the pasted bytes and the
    end marker, the driver not being in a paste, the parser recognizing the two
    markers and no end marker inside the pasted bytes, and the table not
    holding the whole chunk.  Then [readEvents] returns exactly three events:
    the start of the paste, then one paste event that carries the runes
    decoded from the pasted bytes in order, then the end of the paste; the
    accumulator is nil again afterwards.  No rune of the paste event is the
    replacement rune: a byte that decodes to it is dropped. *)
Theorem paste_is_flushed_before_its_end fuel rd0 P buf0 start body stop :
  let chunk := start ++ body ++ stop in
  (length chunk <= length buf0)%nat ->
  stop <> [] ->
  input.LookupSequence P chunk = None ->
  input.ParseSequence P chunk = (length start, Some input.PasteStartEvent) ->
  (forall k, (k < length body)%nat ->
     input.isPasteEnd (snd (input.ParseSequence P (drop k body ++ stop))) = false) ->
  input.ParseSequence P stop = (length stop, Some input.PasteEndEvent) ->
  input.readEvents (length body + 3 + fuel)
    (input.mkDriver (inl chunk :: rd0) P None buf0)
  = Returns ([input.PasteStartEvent; input.PasteEvent (input.decodePaste body);
              input.PasteEndEvent],
             None,
             input.mkDriver rd0 P None (chunk ++ drop (length chunk) buf0)) /\
  utf8.RuneError ∉ input.decodePaste body.
Proof.
  intros chunk Hfit Hstop Hlook Hstart Hbody Hend.
  split; [|apply decode_no_RuneError].
  unfold input.readEvents, input.Read. cbn [input.rd input.buf input.parser input.paste].
  rewrite (take_ge chunk), (drop_ge chunk) by done.
  cbn [input.buf input.parser]. rewrite take_app_length, Hlook.
  set (tail := drop (length chunk) buf0).
  assert (Hne : (0 < length stop)%nat) by (destruct stop; [done|simpl; lia]).
  assert (Hlen : length chunk = (length start + length body + length stop)%nat).
  { subst chunk. rewrite !length_app. lia. }
  (* the start marker *)
  replace (length body + 3 + fuel)%nat with (S (length body + (2 + fuel)))%nat by lia.
  rewrite (loop_paste_start _ _ _ _ _ (length start)); [|lia|reflexivity|].
  2:{ rewrite view_chunk by lia. exact Hstart. }
  unfold input.setPaste. cbn [input.rd input.parser input.buf app Nat.add].
  (* the pasted bytes *)
  pose proof (loop_accumulate rd0 P tail start stop body [] [] (2 + fuel)
                [input.PasteStartEvent] Hbody) as Hacc.
  cbv zeta in Hacc. cbn [app length Nat.add] in Hacc. rewrite Nat.add_0_r in Hacc.
  fold chunk in Hacc. rewrite Hacc. clear Hacc.
  (* the end marker *)
  rewrite (loop_paste_end _ _ _ _ _ (length stop)); [|lia|].
  2:{ rewrite view_chunk by lia. subst chunk.
      rewrite app_assoc, drop_app_length'; [exact Hend|]. now rewrite length_app. }
  unfold input.setPaste. cbn [input.rd input.parser input.buf input.paste default].
  rewrite loop_done by lia.
  reflexivity.
Qed.

(** C3 fails on the code.  While a paste is in progress, a read whose whole
    chunk is a key of the parser's table returns that key as a key event and
    leaves the accumulator as it was: the lookup at the top of [readEvents]
    comes before the paste is looked at. *)
Theorem table_hit_bypasses_paste fuel rd0 P acc buf0 chunk k :
  (length chunk <= length buf0)%nat ->
  input.LookupSequence P chunk = Some k ->
  input.readEvents fuel (input.mkDriver (inl chunk :: rd0) P (Some acc) buf0)
  = Returns ([input.KeyDownEvent k], None,
             input.mkDriver rd0 P (Some acc) (chunk ++ drop (length chunk) buf0)).
Proof.
  intros Hfit Hlook.
  unfold input.readEvents, input.Read. cbn [input.rd input.buf input.parser input.paste].
  rewrite (take_ge chunk), (drop_ge chunk) by done.
  cbn [input.buf input.parser]. now rewrite take_app_length, Hlook.
Qed.

End Paste.

(** The theorem at a read of ESC [ A during a paste that holds the byte a. *)
Lemma table_hit_bypasses_paste_witness :
  input.readEvents 10
    (input.mkDriver [inl [x1b; x5b; x41]] sample.parser (Some [x61]) sample.emptyBuf)
  = Returns ([input.KeyDownEvent sample.Up], None,
             input.mkDriver [] sample.parser (Some [x61])
               ([x1b; x5b; x41] ++ drop 3 sample.emptyBuf)).
Proof.
  apply (table_hit_bypasses_paste 10 [] sample.parser [x61] sample.emptyBuf
           [x1b; x5b; x41] sample.Up).
  - vm_compute. lia.
  - reflexivity.
Defined.

(** The theorem at the paste of ab ESC [ A c with the sample parser. *)
Lemma paste_is_flushed_before_its_end_witness :
  input.readEvents 9
    (input.mkDriver [inl (sample.pasteStart ++ sample.pasted ++ sample.pasteEnd)] sample.parser None
       sample.emptyBuf)
  = Returns ([input.PasteStartEvent; input.PasteEvent [97; 98; 27; 91; 65; 99];
              input.PasteEndEvent],
             None,
             input.mkDriver [] sample.parser None
               ((sample.pasteStart ++ sample.pasted ++ sample.pasteEnd) ++ drop 18 sample.emptyBuf)) /\
  utf8.RuneError ∉ [97; 98; 27; 91; 65; 99].
Proof.
  apply (paste_is_flushed_before_its_end 0 [] sample.parser sample.emptyBuf
           sample.pasteStart sample.pasted sample.pasteEnd).
  - vm_compute. lia.
  - discriminate.
  - reflexivity.
  - reflexivity.
  - intros k Hk. do 6 (destruct k as [|k]; [reflexivity|]). simpl in Hk. lia.
  - reflexivity.
Defined.

(** C2 as stated fails: for the start marker, the bytes ab ESC [ A c and the end
    marker, the events are the start, the paste and then the end of the paste,
    not the start, the end and then the paste. *)
Lemma paste_end_is_not_first :
  exists d',
    input.readEvents 9
      (input.mkDriver [inl (sample.pasteStart ++ sample.pasted ++ sample.pasteEnd)] sample.parser None
         sample.emptyBuf)
    = Returns ([input.PasteStartEvent; input.PasteEvent [97; 98; 27; 91; 65; 99];
                input.PasteEndEvent], None, d') /\
    [input.PasteStartEvent; input.PasteEvent [97; 98; 27; 91; 65; 99];
     input.PasteEndEvent]
    <> [input.PasteStartEvent; input.PasteEndEvent;
        @input.PasteEvent sample.Key Empty_set [97; 98; 27; 91; 65; 99]].
Proof.
  eexists. split.
  - reflexivity.
  - discriminate.
Qed.

(** ** Peeking and reading *)

Section PeekAndRead.
Context {Mouse Color : Type}.
Variable X : ansi.Externals Mouse Color.
Implicit Types (b c : byte) (l p pre rest : list byte) (d : ansi.driver).

(** A [continue] goes to the loop test, never out of the loop. *)
Lemma continue_inside (r : outcome (nat * list (ansi.Event Mouse Color))) x :
  ansi.continue r <> Returns (inr x).
Proof. destruct r as [[i ev]| |]; discriminate. Qed.

(** Only the loop test leaves the loop, and only at or after the end of the
    buffer. *)
Lemma step_out d p pt n ev :
  ansi.step X d p pt = Returns (inr (n, ev)) -> (length p <= n)%nat.
Proof.
  destruct pt as [i ev0|alt b i ev0]; unfold ansi.step.
  - destruct (Nat.ltb_spec i (length p)) as [Hlt|Hge].
    + destruct (index p i); discriminate.
    + now intros [= <- _].
  - destruct (beq b ansi.ESC).
    { destruct (length p =? 1)%nat; [discriminate|].
      destruct (length p <=? i + 1)%nat; [intros H; now apply continue_inside in H|].
      destruct (index p (i + 1)) as [b1| |]; cbn [mbind outcome_bind]; try discriminate.
      destruct (beq b1 x4f); [intros H; now apply continue_inside in H|].
      destruct (beq b1 x50); [intros H; now apply continue_inside in H|].
      destruct (beq b1 x5b); [intros H; now apply continue_inside in H|].
      destruct (beq b1 x5d); [intros H; now apply continue_inside in H|].
      destruct (beq b1 x5f); [intros H; now apply continue_inside in H|].
      discriminate. }
    destruct (beq b ansi.SS3); [intros H; now apply continue_inside in H|].
    destruct (beq b ansi.DCS).
    { destruct (ansi.handleSeq _ _ _ _ _ _) as [[i' ev']| |];
        cbn [mbind outcome_bind]; try discriminate.
      intros H; now apply continue_inside in H. }
    destruct (beq b ansi.CSI); [intros H; now apply continue_inside in H|].
    destruct (beq b ansi.OSC); [intros H; now apply continue_inside in H|].
    destruct (beq b ansi.APC); [intros H; now apply continue_inside in H|].
    intros H; now apply continue_inside in H.
Qed.

(** The loop of [peekInput] ends only at or after the end of the buffer. *)
Lemma run_reaches_end fuel d p pt n ev :
  ansi.run X fuel d p pt = Returns (n, ev) -> (length p <= n)%nat.
Proof.
  revert pt. induction fuel as [|fuel IH]; intros pt; [discriminate|].
  rewrite run_S.
  destruct (ansi.step X d p pt) as [[pt'|[n' ev']]| |] eqn:Hstep; try discriminate.
  - apply IH.
  - intros [= -> ->]. now apply step_out in Hstep.
Qed.

(** A call of [peekInput] that returns events has consumed at least the whole
    buffer: no call returns zero bytes, or a part of the buffer, to wait for
    more input. *)
Theorem peekInput_never_awaits fuel d nb ev d' :
  ansi.peekInput X fuel d = Returns (nb, ev, None, d') ->
  (0 < nb)%nat /\ (length (ansi.rd d) <= nb)%nat.
Proof.
  destruct (decide (ansi.rd d = [])) as [He|Hne].
  - destruct d as [t r]. simpl in He. subst r. discriminate.
  - rewrite peekInput_buffered by done.
    assert (Hpos : (0 < length (ansi.rd d))%nat).
    { destruct (ansi.rd d); [done|simpl; lia]. }
    destruct (ansi.table d !! ansi.rd d).
    + intros [= <- _ _]. lia.
    + destruct (ansi.run X fuel d (ansi.rd d) (ansi.AtFor 0 [])) as [[n e]| |] eqn:Hrun;
        try discriminate.
      cbn [mbind outcome_bind]. intros [= <- _ _].
      apply run_reaches_end in Hrun. lia.
Qed.

(** [peekInput] returns the driver it was given. *)
Lemma peekInput_driver fuel d r d' :
  ansi.peekInput X fuel d = Returns (r, d') -> d' = d.
Proof.
  destruct (decide (ansi.rd d = [])) as [He|Hne].
  - destruct d as [t rd]. simpl in He. subst rd. now intros [= _ <-].
  - rewrite peekInput_buffered by done.
    destruct (ansi.table d !! ansi.rd d); [now intros [= _ <-]|].
    destruct (ansi.run X fuel d (ansi.rd d) (ansi.AtFor 0 [])) as [[n e]| |];
      try discriminate.
    now intros [= _ <-].
Qed.

(** [PeekInput] returns the driver as it was given: the table and the bytes the
    reader holds are unchanged. *)
Theorem PeekInput_changes_nothing fuel d ev err d' :
  ansi.PeekInput X fuel d = Returns (ev, err, d') -> d' = d.
Proof.
  unfold ansi.PeekInput.
  destruct (ansi.peekInput X fuel d) as [[[[nb ne] e] d0]| |] eqn:Hpeek; try discriminate.
  apply peekInput_driver in Hpeek. subst d0. cbn [mbind outcome_bind].
  destruct e; now intros [= _ _ <-].
Qed.

(** When the count [peekInput] reports does not exceed the bytes the reader
    holds, [ReadInput] returns the very events [PeekInput] returns and drops
    the reported number of bytes from the reader. *)
Theorem ReadInput_discards_what_was_reported fuel d nb ev :
  ansi.peekInput X fuel d = Returns (nb, ev, None, d) ->
  (nb <= length (ansi.rd d))%nat ->
  ansi.PeekInput X fuel d = Returns (ev, None, d) /\
  ansi.ReadInput X fuel d = Returns (ev, None, ansi.setRd (drop nb (ansi.rd d)) d).
Proof.
  intros Hpeek Hnb. unfold ansi.PeekInput, ansi.ReadInput. rewrite Hpeek.
  cbn [mbind outcome_bind]. split; [reflexivity|].
  unfold ansi.Discard. now rewrite (proj2 (Nat.leb_le _ _) Hnb).
Qed.

End PeekAndRead.

Lemma peekInput_never_awaits_witness :
  (0 < 3)%nat /\ (length [x1b; x5b; x31] <= 3)%nat.
Proof.
  apply (peekInput_never_awaits sample.externals 3
           (ansi.mkDriver sample.table [x1b; x5b; x31]) 3
           [ansi.UnknownEvent [x1b; x5b; x31]]
           (ansi.mkDriver sample.table [x1b; x5b; x31])).
  reflexivity.
Defined.

Lemma PeekInput_changes_nothing_witness :
  ansi.mkDriver sample.table [x1b; x5b; x41; x61] = ansi.mkDriver sample.table [x1b; x5b; x41; x61].
Proof.
  apply (PeekInput_changes_nothing sample.externals 6
           (ansi.mkDriver sample.table [x1b; x5b; x41; x61])
           [ansi.Key sample.keyUp; ansi.Key (ansi.setRunes [97] ansi.zeroKey)] None).
  reflexivity.
Defined.

Lemma ReadInput_discards_what_was_reported_witness :
  ansi.PeekInput sample.externals 6 (ansi.mkDriver sample.table [x1b; x5b; x41; x61])
  = Returns ([ansi.Key sample.keyUp; ansi.Key (ansi.setRunes [97] ansi.zeroKey)], None,
             ansi.mkDriver sample.table [x1b; x5b; x41; x61]) /\
  ansi.ReadInput sample.externals 6 (ansi.mkDriver sample.table [x1b; x5b; x41; x61])
  = Returns ([ansi.Key sample.keyUp; ansi.Key (ansi.setRunes [97] ansi.zeroKey)], None,
             ansi.mkDriver sample.table []).
Proof.
  apply (ReadInput_discards_what_was_reported sample.externals 6
           (ansi.mkDriver sample.table [x1b; x5b; x41; x61]) 4).
  - reflexivity.
  - simpl. lia.
Defined.

(** ** Buffers of 7-bit bytes *)

Section SevenBit.
Context {Mouse Color : Type}.
Variable X : ansi.Externals Mouse Color.
Implicit Types (b c : byte) (l p pre rest : list byte) (d : ansi.driver).

Lemma scan_length ok l : (length (ansi.scan ok l) <= length l)%nat.
Proof.
  induction l as [|b l IH]; [done|]. simpl.
  destruct (ok b); simpl; lia.
Qed.

Lemma scan_Forall ok l : Forall (fun b => ok b = true) (ansi.scan ok l).
Proof.
  induction l as [|b l IH]; [constructor|]. simpl.
  destruct (ok b) eqn:E; [|constructor]. now constructor.
Qed.

Lemma scan_sevenBit ok l : sevenBit l -> sevenBit (ansi.scan ok l).
Proof.
  induction 1 as [|b l Hb _ IH]; [constructor|]. simpl.
  destruct (ok b); [|constructor]. now constructor.
Qed.

Lemma sevenBit_drop n l : sevenBit l -> sevenBit (drop n l).
Proof. apply Forall_drop. Qed.

Lemma sevenBit_lookup l i b : sevenBit l -> l !! i = Some b -> val b < 0x80.
Proof. intros H Hi. exact (proj1 (Forall_lookup _ l) H i b Hi). Qed.

(** The opening of a parser at the index of an ESC that the 7-bit introducer
    follows. *)
Lemma introducer_at intro8 c7 i p :
  p !! i = Some ansi.ESC ->
  p !! (i + 1)%nat = Some c7 ->
  val c7 < 0x80 ->
  ansi.introducer intro8 c7 i p = Returns ([ansi.ESC; c7], (i + 2)%nat).
Proof.
  intros H0 H1 Hc.
  assert (Hp : p = take i p ++ ansi.ESC :: c7 :: drop (S (S i)) p).
  { rewrite <- (take_drop_middle p i ansi.ESC H0) at 1. do 2 f_equal.
    replace (i + 1)%nat with (S i) in H1 by lia.
    rewrite (drop_S p c7 (S i) H1). reflexivity. }
  pose proof (introducer_esc intro8 c7 (take i p) (drop (S (S i)) p) Hc) as H.
  rewrite <- Hp in H.
  rewrite length_take, Nat.min_l in H; [exact H|].
  apply lookup_lt_Some in H0. lia.
Qed.

(** Every parameter that [ansi.Params] returns has a first sub-value. *)
Hypothesis params_nonempty :
  forall seq, Forall (fun sub => sub <> []) (ansi.CsiParams X seq).

(** With such parameters the Kitty branch indexes inside its lists. *)
Lemma kittyKey_returns params :
  Forall (fun sub => sub <> []) params ->
  exists key, ansi.kittyKey X params = Returns key.
Proof.
  intros H. unfold ansi.kittyKey.
  destruct params as [|p0 params]; [eexists; reflexivity|].
  apply Forall_cons in H as [H0 H].
  destruct p0 as [|code al]; [done|].
  cbn [length Nat.ltb Nat.leb index lookup list_lookup mbind outcome_bind].
  set (key1 := match ansi.kittyKeyMap X code with Some _ => _ | None => _ end).
  assert (H1 : exists k1, key1 = Returns k1).
  { subst key1. destruct (ansi.kittyKeyMap X code); [eexists; reflexivity|].
    destruct al; cbn [length Nat.ltb Nat.leb index lookup list_lookup mbind outcome_bind];
      eexists; reflexivity. }
  destruct H1 as [k1 ->]. cbn [mbind outcome_bind].
  destruct params as [|p1 params]; [eexists; reflexivity|].
  apply Forall_cons in H as [H1 H].
  destruct p1 as [|m subs]; [done|].
  cbn [length Nat.ltb Nat.leb index lookup list_lookup mbind outcome_bind].
  destruct subs as [|s subs];
    cbn [length Nat.ltb Nat.leb index lookup list_lookup mbind outcome_bind].
  - destruct params as [|p2 params]; [eexists; reflexivity|].
    apply Forall_cons in H as [H2 H].
    destruct p2 as [|r o]; [done|]. eexists; reflexivity.
  - destruct params as [|p2 params]; [eexists; reflexivity|].
    apply Forall_cons in H as [H2 H].
    destruct p2 as [|r o]; [done|]. eexists; reflexivity.
Qed.

Lemma csiFinal_inside d alt seq i0 i p :
  (2 <= length seq)%nat ->
  (i0 + length seq = i)%nat ->
  (i <= length p)%nat ->
  inside i0 p (ansi.csiFinal X d alt seq i p).
Proof.
  intros Hseq Hi Hle. unfold ansi.csiFinal, ansi.partial.
  destruct (p !! i) as [b|] eqn:Hb; [|simpl; lia].
  destruct (ansi.is_final b) eqn:Hf; cbn [negb]; [|simpl; lia].
  apply lookup_lt_Some in Hb.
  assert (Hsb : string_of_byte b = [b]).
  { apply string_of_byte_ascii. apply between_lt in Hf. lia. }
  rewrite Hsb.
  assert (Hlen : length (seq ++ [b]) = S (length seq)) by (rewrite length_app; simpl; lia).
  destruct (ansi.table d !! (seq ++ [b])); [simpl; rewrite Hlen; lia|].
  destruct (bool_decide _ && (i + 3 <? length p)%nat) eqn:Hx.
  { apply andb_true_iff in Hx as [_ Hx%Nat.ltb_lt]. simpl. rewrite Hlen. lia. }
  repeat match goal with
         | |- context [if ?c then _ else _] => destruct c
         end;
    try (simpl; rewrite Hlen; lia).
  destruct (kittyKey_returns _ (params_nonempty (seq ++ [b]))) as [key ->].
  simpl. rewrite Hlen. lia.
Qed.

Lemma parseCsi_inside d i p alt :
  p !! i = Some ansi.ESC ->
  p !! (i + 1)%nat = Some x5b ->
  inside i p (ansi.parseCsi X d i p alt).
Proof.
  intros H0 H1. unfold ansi.parseCsi.
  rewrite (introducer_at _ _ _ _ H0 H1) by done. cbn [mbind outcome_bind].
  apply lookup_lt_Some in H1.
  set (ps := ansi.scan ansi.is_param (drop (i + 2) p)).
  set (is_ := ansi.scan ansi.is_intermediate (drop (i + 2 + length ps) p)).
  assert (Hps : (length ps <= length (drop (i + 2) p))%nat) by apply scan_length.
  assert (His : (length is_ <= length (drop (i + 2 + length ps) p))%nat) by apply scan_length.
  rewrite length_drop in Hps, His.
  rewrite !str_ascii.
  - apply csiFinal_inside; rewrite ?length_app; simpl; lia.
  - eapply Forall_impl; [apply scan_Forall|]. apply is_intermediate_ascii.
  - eapply Forall_impl; [apply scan_Forall|]. apply is_param_ascii.
Qed.

Lemma parseSs3_inside d i p alt :
  p !! i = Some ansi.ESC ->
  p !! (i + 1)%nat = Some x4f ->
  inside i p (ansi.parseSs3 X d i p alt).
Proof.
  intros H0 H1. unfold ansi.parseSs3, ansi.partial.
  rewrite (introducer_at _ _ _ _ H0 H1) by done. cbn [mbind outcome_bind].
  apply lookup_lt_Some in H1.
  destruct (p !! (i + 2)%nat) as [b|] eqn:Hb; [|simpl; lia].
  apply lookup_lt_Some in Hb.
  destruct (between 0x21 0x7E b) eqn:Hg; cbn [negb]; [|simpl; lia].
  rewrite string_of_byte_ascii by (apply between_lt in Hg; lia).
  destruct (ansi.table d !! _); simpl; lia.
Qed.

(** The end of an OSC, DCS or APC sequence in a 7-bit buffer: the terminator
    is one byte, or ESC and a backslash. *)
Lemma terminated_length seq i p b :
  sevenBit p ->
  p !! i = Some b ->
  (S (length seq) <= length (ansi.terminated seq i p b))%nat /\
  (i + 1 + (length (ansi.terminated seq i p b) - S (length seq)) <= length p)%nat /\
  (length (ansi.terminated seq i p b) <= S (S (length seq)))%nat.
Proof.
  intros H7 Hb. unfold ansi.terminated.
  rewrite (string_of_byte_ascii b) by (eapply sevenBit_lookup; eauto).
  pose proof (lookup_lt_Some _ _ _ Hb) as Hlt.
  destruct (p !! S i) as [b'|] eqn:Hb'.
  - pose proof (lookup_lt_Some _ _ _ Hb') as Hlt'.
    destruct (beq b ansi.ESC && beq b' x5c).
    + rewrite (string_of_byte_ascii b') by (eapply sevenBit_lookup; eauto).
      rewrite !length_app. simpl. lia.
    + rewrite !length_app. simpl. lia.
  - rewrite !length_app. simpl. lia.
Qed.

Lemma parseOsc_inside d i p alt :
  sevenBit p ->
  p !! i = Some ansi.ESC ->
  p !! (i + 1)%nat = Some x5d ->
  inside i p (ansi.parseOsc X d i p alt).
Proof.
  intros H7 H0 H1. unfold ansi.parseOsc.
  rewrite (introducer_at _ _ _ _ H0 H1) by done. cbn [mbind outcome_bind].
  apply lookup_lt_Some in H1.
  set (body := ansi.scan ansi.oscBody (drop (i + 2) p)).
  assert (Hbody : (length body <= length (drop (i + 2) p))%nat) by apply scan_length.
  rewrite length_drop in Hbody.
  rewrite str_ascii by (apply scan_sevenBit, sevenBit_drop, H7).
  unfold ansi.oscFinal.
  destruct (p !! (i + 2 + length body)%nat) as [b|] eqn:Hb.
  - destruct (terminated_length ([ansi.ESC; x5d] ++ body) _ p b H7 Hb) as (Ha & Hb1 & Hc).
    rewrite length_app in Ha, Hb1, Hc. simpl in Ha, Hb1, Hc.
    repeat match goal with
           | |- context [if ?c then _ else _] => destruct c
           end; simpl; lia.
  - rewrite length_app. simpl. lia.
Qed.

Lemma parseCtrl_inside intro8 c7 i p alt :
  sevenBit p ->
  val c7 < 0x80 ->
  p !! i = Some ansi.ESC ->
  p !! (i + 1)%nat = Some c7 ->
  inside (Mouse := Mouse) (Color := Color) i p (ansi.parseCtrl intro8 c7 i p alt).
Proof.
  intros H7 Hc H0 H1. unfold ansi.parseCtrl.
  rewrite (introducer_at _ _ _ _ H0 H1) by done. cbn [mbind outcome_bind].
  apply lookup_lt_Some in H1.
  set (body := ansi.scan _ (drop (i + 2) p)).
  assert (Hbody : (length body <= length (drop (i + 2) p))%nat) by apply scan_length.
  rewrite length_drop in Hbody.
  rewrite str_ascii by (apply scan_sevenBit, sevenBit_drop, H7).
  destruct (p !! (i + 2 + length body)%nat) as [b|] eqn:Hb.
  - destruct (terminated_length ([ansi.ESC; c7] ++ body) _ p b H7 Hb) as (Ha & Hb1 & Hc').
    rewrite length_app in Ha, Hb1, Hc'. simpl in Ha, Hb1, Hc'.
    simpl. lia.
  - rewrite length_app. simpl. lia.
Qed.

Lemma DecodeRune_ascii b l : val b < 0x80 -> utf8.DecodeRune (b :: l) = (val b, 1%nat).
Proof.
  intros Hb. unfold utf8.DecodeRune, utf8.first.
  now rewrite (proj2 (Z.ltb_lt _ _) Hb).
Qed.

(** In a 7-bit slice the rune loop walks over at most the slice, and over at
    least one byte when the slice starts with a byte that is no control code. *)
Lemma collect_sevenBit passes l :
  sevenBit l -> (snd (ansi.collect passes l) <= length l)%nat.
Proof.
  revert l. induction passes as [|passes IH]; intros l H7; [simpl; lia|].
  destruct H7 as [|b l Hb H7]; [simpl; lia|].
  cbn [ansi.collect]. rewrite (DecodeRune_ascii b l Hb).
  destruct (ansi.stops (val b)); [simpl; lia|].
  change (drop 1 (b :: l)) with l. specialize (IH l H7).
  destruct (ansi.collect passes l) as [rs n]. simpl in *. lia.
Qed.

Lemma collectRunes_progress b l :
  sevenBit (b :: l) ->
  control b = false ->
  (1 <= snd (ansi.collectRunes (b :: l)) <= length (b :: l))%nat.
Proof.
  intros H7 Hc. split; [|apply collect_sevenBit, H7].
  unfold ansi.collectRunes. cbn [length ansi.collect].
  apply Forall_cons in H7 as [Hb H7].
  rewrite (DecodeRune_ascii b l Hb).
  destruct (ascii_rune b Hb) as (_ & _ & ->). rewrite Hc.
  destruct (ansi.collect _ _). simpl. lia.
Qed.

Lemma continue_advances i p alt (ev : list (ansi.Event Mouse Color)) f :
  inside i p (f i p alt) ->
  advances i p (ansi.continue (ansi.handleSeq f i p alt i ev)).
Proof.
  unfold inside, ansi.handleSeq.
  destruct (f i p alt) as [[n e]| |]; [|done|done].
  simpl. lia.
Qed.

Lemma afterSwitch_advances d p i ev alt b :
  sevenBit p ->
  p !! i = Some b ->
  (i < fst (ansi.afterSwitch X d p alt b i ev) <= length p)%nat.
Proof.
  intros H7 Hb.
  pose proof (lookup_lt_Some _ _ _ Hb) as Hlt.
  pose proof (sevenBit_lookup _ _ _ H7 Hb) as Hb7.
  destruct (control b) eqn:Hc.
  - rewrite afterSwitch_control by done. simpl. lia.
  - unfold ansi.afterSwitch. unfold control in Hc. rewrite Hc.
    destruct (ascii_rune b Hb7) as (-> & _ & _).
    assert (Hd : drop i p = b :: drop (S i) p) by now apply drop_S.
    pose proof (collectRunes_progress b (drop (S i) p)) as Hp.
    rewrite <- Hd in Hp.
    specialize (Hp (sevenBit_drop _ _ H7) Hc).
    rewrite length_drop in Hp.
    destruct (ansi.collectRunes (drop i p)) as [runes n]. simpl in *. lia.
Qed.

Lemma step_advances d p i ev alt b :
  sevenBit p ->
  p !! i = Some b ->
  advances i p (ansi.step X d p (ansi.AtBegin alt b i ev)).
Proof.
  intros H7 Hb.
  pose proof (lookup_lt_Some _ _ _ Hb) as Hlt.
  destruct (decide (b = ansi.ESC)) as [->|Hne].
  - destruct (decide (length p = 1%nat)) as [H1|H1].
    { rewrite step_esc_alone by done. simpl. lia. }
    destruct (decide (length p <= i + 1)%nat) as [Hlast|Hmore].
    { rewrite step_esc_last by done. simpl. lia. }
    destruct (lookup_lt_is_Some_2 p (i + 1)%nat ltac:(lia)) as [b1 Hb1].
    pose proof (sevenBit_lookup _ _ _ H7 Hb1) as Hb17.
    destruct (special b1) eqn:Hsp.
    + unfold ansi.step. rewrite beq_refl, (proj2 (Nat.eqb_neq _ _) H1).
      rewrite (proj2 (Nat.leb_gt (length p) (i + 1)) ltac:(lia)).
      unfold index. rewrite Hb1. cbn [mbind outcome_bind].
      unfold special in Hsp.
      destruct (beq b1 x4f) eqn:E1.
      { apply beq_eq in E1. subst b1. apply continue_advances.
        now apply parseSs3_inside. }
      destruct (beq b1 x50) eqn:E2.
      { apply beq_eq in E2. subst b1. apply continue_advances.
        now apply parseCtrl_inside. }
      destruct (beq b1 x5b) eqn:E3.
      { apply beq_eq in E3. subst b1. apply continue_advances.
        now apply parseCsi_inside. }
      destruct (beq b1 x5d) eqn:E4.
      { apply beq_eq in E4. subst b1. apply continue_advances.
        now apply parseOsc_inside. }
      destruct (beq b1 x5f) eqn:E5; [|discriminate Hsp].
      apply beq_eq in E5. subst b1. apply continue_advances.
      now apply parseCtrl_inside.
    + rewrite (step_esc_alt X d p i ev alt b1) by done. simpl. done.
  - rewrite step_ascii by (eauto using sevenBit_lookup).
    simpl. now apply afterSwitch_advances.
Qed.

(** The loop ends, with the whole buffer consumed, within two moves for every
    byte that is left and one more. *)
Lemma run_sevenBit d p :
  sevenBit p ->
  forall k,
    (forall i ev fuel, (i <= length p)%nat -> (length p - i <= k)%nat ->
       exists ev', ansi.run X (2 * k + 1 + fuel) d p (ansi.AtFor i ev)
                   = Returns (length p, ev')) /\
    (forall alt b i ev fuel, p !! i = Some b -> (length p - i <= k)%nat ->
       exists ev', ansi.run X (2 * k + fuel) d p (ansi.AtBegin alt b i ev)
                   = Returns (length p, ev')).
Proof.
  intros H7. induction k as [|k [IHfor IHbegin]].
  - split.
    + intros i ev fuel Hi Hk. exists ev.
      replace i with (length p) by lia. now apply run_exit.
    + intros alt b i ev fuel Hb Hk. apply lookup_lt_Some in Hb. lia.
  - assert (Hbegin : forall alt b i ev fuel, p !! i = Some b ->
              (length p - i <= S k)%nat ->
              exists ev', ansi.run X (2 * S k + fuel) d p (ansi.AtBegin alt b i ev)
                          = Returns (length p, ev')).
    { intros alt b i ev fuel Hb Hk.
      replace (2 * S k + fuel)%nat with (S (2 * k + 1 + fuel)) by lia.
      rewrite run_S.
      pose proof (step_advances d p i ev alt b H7 Hb) as Hadv.
      destruct (ansi.step X d p (ansi.AtBegin alt b i ev))
        as [[[i' ev'|alt' b1 i' ev']|?]| |]; try done; simpl in Hadv.
      - apply IHfor; lia.
      - destruct Hadv as [-> Hb1].
        replace (2 * k + 1 + fuel)%nat with (2 * k + (1 + fuel))%nat by lia.
        apply IHbegin; [done|]. apply lookup_lt_Some in Hb1. lia. }
    split; [|exact Hbegin].
    intros i ev fuel Hi Hk.
    destruct (decide (i = length p)) as [->|Hne].
    + exists ev. replace (2 * S k + 1 + fuel)%nat with (S (2 * S k + fuel)) by lia.
      now apply run_exit.
    + destruct (lookup_lt_is_Some_2 p i ltac:(lia)) as [b Hb].
      replace (2 * S k + 1 + fuel)%nat with (S (2 * S k + fuel)) by lia.
      rewrite run_S, (step_for X d p i ev b Hb).
      now apply Hbegin.
Qed.

(** On a buffer of 7-bit bytes the decode loop ends and consumes the buffer
    exactly: [peekInput] returns the length of the buffer, within two moves of
    the loop for every byte and one more. *)
Theorem seven_bit_buffer_is_consumed fuel d :
  ansi.rd d <> [] ->
  sevenBit (ansi.rd d) ->
  exists ev,
    ansi.peekInput X (2 * length (ansi.rd d) + 1 + fuel) d
    = Returns (length (ansi.rd d), ev, None, d).
Proof.
  intros Hne H7. rewrite peekInput_buffered by done.
  destruct (ansi.table d !! ansi.rd d) as [k|]; [eexists; reflexivity|].
  destruct (proj1 (run_sevenBit d (ansi.rd d) H7 (length (ansi.rd d))) 0%nat [] fuel)
    as [ev Hrun]; [lia|lia|].
  exists ev. now rewrite Hrun.
Qed.

(** On a buffer of 7-bit bytes [ReadInput] returns the very events [PeekInput]
    returns, and where [PeekInput] leaves the reader as it was, [ReadInput]
    leaves it empty: it discards the bytes of the buffer and no more. *)
Theorem seven_bit_read_agrees_with_peek fuel d :
  ansi.rd d <> [] ->
  sevenBit (ansi.rd d) ->
  exists ev,
    ansi.PeekInput X (2 * length (ansi.rd d) + 1 + fuel) d = Returns (ev, None, d) /\
    ansi.ReadInput X (2 * length (ansi.rd d) + 1 + fuel) d
    = Returns (ev, None, ansi.setRd [] d).
Proof.
  intros Hne H7.
  assert (Hpeek : exists ev,
            ansi.peekInput X (2 * length (ansi.rd d) + 1 + fuel) d
            = Returns (length (ansi.rd d), ev, None, d)).
  { rewrite peekInput_buffered by done.
    destruct (ansi.table d !! ansi.rd d) as [k|]; [eexists; reflexivity|].
    destruct (proj1 (run_sevenBit d (ansi.rd d) H7 (length (ansi.rd d))) 0%nat [] fuel)
      as [ev Hrun]; [lia|lia|].
    exists ev. now rewrite Hrun. }
  destruct Hpeek as [ev Hpeek]. exists ev.
  unfold ansi.PeekInput, ansi.ReadInput. rewrite Hpeek. cbn [mbind outcome_bind].
  split; [reflexivity|].
  unfold ansi.Discard. rewrite Nat.leb_refl. now rewrite drop_all.
Qed.

End SevenBit.

(** The sample parameters have a first sub-value each. *)
Lemma split_nonempty fuel c l : sample.split fuel c l <> [].
Proof.
  destruct fuel; simpl; destruct (sample.cut c l) as [h [t|]]; discriminate.
Qed.

Lemma sample_params_nonempty seq :
  Forall (fun sub => sub <> []) (sample.CsiParams seq).
Proof.
  unfold sample.CsiParams.
  destruct (ansi.scan _ _) as [|b ps]; [constructor|].
  apply Forall_map, Forall_forall. intros part _.
  intros E. apply (f_equal (@length _)) in E. rewrite length_map in E.
  apply (split_nonempty (length part) x3a part). now apply nil_length_inv.
Qed.

Lemma seven_bit_buffer_is_consumed_witness :
  exists ev,
    ansi.peekInput sample.externals 9
      (ansi.mkDriver sample.table [x61; x1b; x5b; x41])
    = Returns (4%nat, ev, None, ansi.mkDriver sample.table [x61; x1b; x5b; x41]).
Proof.
  apply (seven_bit_buffer_is_consumed sample.externals sample_params_nonempty 0
           (ansi.mkDriver sample.table [x61; x1b; x5b; x41])).
  - discriminate.
  - repeat constructor.
Defined.

Lemma seven_bit_read_agrees_with_peek_witness :
  exists ev,
    ansi.PeekInput sample.externals 9 (ansi.mkDriver sample.table [x61; x1b; x5b; x41])
    = Returns (ev, None, ansi.mkDriver sample.table [x61; x1b; x5b; x41]) /\
    ansi.ReadInput sample.externals 9 (ansi.mkDriver sample.table [x61; x1b; x5b; x41])
    = Returns (ev, None, ansi.mkDriver sample.table []).
Proof.
  apply (seven_bit_read_agrees_with_peek sample.externals sample_params_nonempty 0
           (ansi.mkDriver sample.table [x61; x1b; x5b; x41])).
  - discriminate.
  - repeat constructor.
Defined.

(** ** Runes and their encoding *)

(** The tests of a goal on integers, decided one by one. *)
Ltac decide_tests := repeat match goal with
  | |- context [?a <? ?b] => destruct (Z.ltb_spec a b); try lia
  | |- context [?a <=? ?b] => destruct (Z.leb_spec a b); try lia
  | |- context [?a =? ?b] => destruct (Z.eqb_spec a b); try lia
  end.

Lemma val_bounds (b : byte) : 0 <= val b < 256.
Proof. unfold val. pose proof (Byte.to_N_bounded b). lia. Qed.

Lemma val_byte_of z : 0 <= z < 256 -> val (byte_of z) = z.
Proof.
  intros Hz. unfold val, byte_of.
  destruct (Byte.of_N (Z.to_N z)) as [b|] eqn:E.
  - apply Byte.to_of_N in E. simpl. rewrite E. lia.
  - apply Byte.of_N_None_iff in E. lia.
Qed.

(** The bitwise or of a multiple of [2 ^ k] and a number below [2 ^ k] is
    their sum. *)
Lemma lor_disjoint a b k :
  0 <= k -> a mod 2 ^ k = 0 -> 0 <= b < 2 ^ k -> Z.lor a b = a + b.
Proof.
  intros Hk Ha Hb.
  rewrite <- Z.lxor_lor, <- Z.add_nocarry_lxor; [done| |].
  all: apply Z.bits_inj'; intros n Hn; rewrite Z.land_spec, Z.bits_0.
  all: destruct (Z.lt_ge_cases n k) as [Hlt|Hge].
  all: try (rewrite <- (Z.mod_small b (2 ^ k)) by lia;
            rewrite (Z.mod_pow2_bits_high b k n) by lia; apply andb_false_r).
  all: assert (Ea : a = a / 2 ^ k * 2 ^ k) by
         (pose proof (Z.div_mod a (2 ^ k)); lia);
       rewrite Ea, Z.mul_pow2_bits_low by lia; reflexivity.
Qed.

Lemma land_3F a : Z.land a 0x3F = a mod 64.
Proof. change 0x3F with (Z.ones 6). now rewrite Z.land_ones by lia. Qed.

Lemma land_1F a : Z.land a 0x1F = a mod 32.
Proof. change 0x1F with (Z.ones 5). now rewrite Z.land_ones by lia. Qed.

Lemma land_0F a : Z.land a 0x0F = a mod 16.
Proof. change 0x0F with (Z.ones 4). now rewrite Z.land_ones by lia. Qed.

Lemma land_07 a : Z.land a 0x07 = a mod 8.
Proof. change 0x07 with (Z.ones 3). now rewrite Z.land_ones by lia. Qed.

Lemma shiftr_6 a : Z.shiftr a 6 = a / 64.
Proof. now rewrite Z.shiftr_div_pow2 by lia. Qed.

Lemma shiftr_12 a : Z.shiftr a 12 = a / 4096.
Proof. now rewrite Z.shiftr_div_pow2 by lia. Qed.

Lemma shiftr_18 a : Z.shiftr a 18 = a / 262144.
Proof. now rewrite Z.shiftr_div_pow2 by lia. Qed.

Lemma shiftl_6 a : Z.shiftl a 6 = a * 64.
Proof. now rewrite Z.shiftl_mul_pow2 by lia. Qed.

Lemma shiftl_12 a : Z.shiftl a 12 = a * 4096.
Proof. now rewrite Z.shiftl_mul_pow2 by lia. Qed.

Lemma shiftl_18 a : Z.shiftl a 18 = a * 262144.
Proof. now rewrite Z.shiftl_mul_pow2 by lia. Qed.

(** A continuation byte: the mark 0x80 over six bits of the rune. *)
Lemma cont_byte x : 0 <= x < 64 -> val (byte_of (Z.lor 0x80 x)) = 128 + x.
Proof.
  intros Hx. rewrite (lor_disjoint 0x80 x 6) by (try reflexivity; lia).
  apply val_byte_of. lia.
Qed.

Lemma EncodeRune_length r : (1 <= length (utf8.EncodeRune r) <= 4)%nat.
Proof.
  unfold utf8.EncodeRune. cbv zeta.
  repeat match goal with |- context [if ?c then _ else _] => destruct c end;
    cbn [length]; lia.
Qed.

(** [string(b)] of a byte is the encoding of the rune of its value. *)
Lemma string_of_byte_EncodeRune (b : byte) : string_of_byte b = utf8.EncodeRune (val b).
Proof. destruct b; reflexivity. Qed.

Lemma DecodeRune_EncodeRune_1 r l :
  0 <= r <= 0x7F ->
  utf8.DecodeRune (utf8.EncodeRune r ++ l) = (r, 1%nat).
Proof.
  intros Hr. unfold utf8.EncodeRune.
  rewrite (Z.mod_small r) by lia. cbv zeta.
  decide_tests. cbn [app].
  unfold utf8.DecodeRune, utf8.first. rewrite val_byte_of by lia.
  decide_tests. reflexivity.
Qed.

Lemma DecodeRune_EncodeRune_2 r l :
  0x80 <= r <= 0x7FF ->
  utf8.DecodeRune (utf8.EncodeRune r ++ l) = (r, 2%nat).
Proof.
  intros Hr. unfold utf8.EncodeRune.
  rewrite (Z.mod_small r) by lia. cbv zeta.
  decide_tests. cbn [app].
  rewrite shiftr_6, land_3F.
  pose proof (Z.div_mod r 64 ltac:(lia)) as Hdm.
  pose proof (Z.mod_pos_bound r 64 ltac:(lia)) as Hm.
  set (q := r / 64) in *. set (m := r mod 64) in *.
  assert (Hq : 2 <= q < 32) by lia.
  assert (Hb0 : val (byte_of (Z.lor 0xC0 q)) = 192 + q).
  { rewrite (lor_disjoint 0xC0 q 6) by (try reflexivity; lia).
    apply val_byte_of. lia. }
  assert (Hb1 : val (byte_of (Z.lor 0x80 m)) = 128 + m) by now apply cont_byte.
  unfold utf8.DecodeRune, utf8.first. rewrite Hb0.
  decide_tests. cbn [length].
  replace (S (S (length l)) <? 2)%nat with false by (symmetry; apply Nat.ltb_ge; lia).
  unfold between, utf8.low6. rewrite Hb1.
  decide_tests. cbn [negb andb Nat.leb].
  rewrite land_1F, land_3F, shiftl_6.
  replace ((192 + q) mod 32) with q by (apply (Z.mod_unique _ _ 6); lia).
  replace ((128 + m) mod 64) with m by (apply (Z.mod_unique _ _ 2); lia).
  rewrite (lor_disjoint (q * 64) m 6); [f_equal; lia|lia| |lia].
  now rewrite Z.mod_mul.
Qed.

Lemma DecodeRune_EncodeRune_3 r l :
  0x800 <= r <= 0xFFFF -> ~ (0xD800 <= r <= 0xDFFF) ->
  utf8.DecodeRune (utf8.EncodeRune r ++ l) = (r, 3%nat).
Proof.
  intros Hr Hs. unfold utf8.EncodeRune.
  rewrite (Z.mod_small r) by lia. cbv zeta.
  replace ((0x10FFFF <? r) || (0xD800 <=? r) && (r <=? 0xDFFF)) with false
    by (symmetry; apply orb_false_iff; split;
        [apply Z.ltb_ge; lia|apply andb_false_iff; rewrite Z.leb_gt, Z.leb_gt; lia]).
  decide_tests. cbn [app orb].
  rewrite shiftr_6, shiftr_12, !land_3F.
  assert (Hdd : r / 4096 = r / 64 / 64) by (rewrite Z.div_div by lia; reflexivity).
  pose proof (Z.div_mod r 64 ltac:(lia)) as Hdm0.
  pose proof (Z.mod_pos_bound r 64 ltac:(lia)) as Hm0.
  pose proof (Z.div_mod (r / 64) 64 ltac:(lia)) as Hdm1.
  pose proof (Z.mod_pos_bound (r / 64) 64 ltac:(lia)) as Hm1.
  rewrite Hdd.
  set (m0 := r mod 64) in *. set (m1 := (r / 64) mod 64) in *.
  set (q := r / 64 / 64) in *.
  assert (Hq : 0 <= q < 16) by lia.
  assert (Hb0 : val (byte_of (Z.lor 0xE0 q)) = 224 + q).
  { rewrite (lor_disjoint 0xE0 q 4) by (try reflexivity; lia).
    apply val_byte_of. lia. }
  assert (Hb1 : val (byte_of (Z.lor 0x80 m1)) = 128 + m1) by now apply cont_byte.
  assert (Hb2 : val (byte_of (Z.lor 0x80 m0)) = 128 + m0) by now apply cont_byte.
  unfold utf8.DecodeRune, utf8.first. rewrite Hb0.
  cbn [length].
  decide_tests.
  all: replace (S (S (S (length l))) <? 3)%nat with false
         by (symmetry; apply Nat.ltb_ge; lia).
  all: unfold utf8.cont, between, utf8.low6; rewrite Hb1, Hb2.
  all: decide_tests; cbn [negb andb Nat.leb].
  all: rewrite land_0F, !land_3F, shiftl_6, shiftl_12.
  all: replace ((224 + q) mod 16) with q by (apply (Z.mod_unique _ _ 14); lia).
  all: replace ((128 + m1) mod 64) with m1 by (apply (Z.mod_unique _ _ 2); lia).
  all: replace ((128 + m0) mod 64) with m0 by (apply (Z.mod_unique _ _ 2); lia).
  all: rewrite (lor_disjoint (q * 4096) (m1 * 64) 12);
         [|lia|change (2 ^ 12) with 4096; now rewrite Z.mod_mul|lia].
  all: rewrite (lor_disjoint (q * 4096 + m1 * 64) m0 6); [f_equal; lia|lia| |lia].
  all: replace (q * 4096 + m1 * 64) with ((q * 64 + m1) * 64) by lia.
  all: now rewrite Z.mod_mul.
Qed.

Lemma DecodeRune_EncodeRune_4 r l :
  0x10000 <= r <= 0x10FFFF ->
  utf8.DecodeRune (utf8.EncodeRune r ++ l) = (r, 4%nat).
Proof.
  intros Hr. unfold utf8.EncodeRune.
  rewrite (Z.mod_small r) by lia. cbv zeta.
  replace ((0x10FFFF <? r) || (0xD800 <=? r) && (r <=? 0xDFFF)) with false
    by (symmetry; apply orb_false_iff; split;
        [apply Z.ltb_ge; lia|apply andb_false_iff; rewrite Z.leb_gt, Z.leb_gt; lia]).
  decide_tests. cbn [app orb].
  rewrite shiftr_6, shiftr_12, shiftr_18, !land_3F.
  assert (Hdd : r / 4096 = r / 64 / 64) by (rewrite Z.div_div by lia; reflexivity).
  assert (Hddd : r / 262144 = r / 64 / 64 / 64)
    by (rewrite !Z.div_div by lia; reflexivity).
  pose proof (Z.div_mod r 64 ltac:(lia)) as Hdm0.
  pose proof (Z.mod_pos_bound r 64 ltac:(lia)) as Hm0.
  pose proof (Z.div_mod (r / 64) 64 ltac:(lia)) as Hdm1.
  pose proof (Z.mod_pos_bound (r / 64) 64 ltac:(lia)) as Hm1.
  pose proof (Z.div_mod (r / 64 / 64) 64 ltac:(lia)) as Hdm2.
  pose proof (Z.mod_pos_bound (r / 64 / 64) 64 ltac:(lia)) as Hm2.
  rewrite Hdd, Hddd.
  set (m0 := r mod 64) in *. set (m1 := (r / 64) mod 64) in *.
  set (m2 := (r / 64 / 64) mod 64) in *.
  set (q := r / 64 / 64 / 64) in *.
  assert (Hq : 0 <= q < 5) by lia.
  assert (Hb0 : val (byte_of (Z.lor 0xF0 q)) = 240 + q).
  { rewrite (lor_disjoint 0xF0 q 3) by (try reflexivity; lia).
    apply val_byte_of. lia. }
  assert (Hb1 : val (byte_of (Z.lor 0x80 m2)) = 128 + m2) by now apply cont_byte.
  assert (Hb2 : val (byte_of (Z.lor 0x80 m1)) = 128 + m1) by now apply cont_byte.
  assert (Hb3 : val (byte_of (Z.lor 0x80 m0)) = 128 + m0) by now apply cont_byte.
  unfold utf8.DecodeRune, utf8.first. rewrite Hb0.
  cbn [length].
  decide_tests.
  all: replace (S (S (S (S (length l)))) <? 4)%nat with false
         by (symmetry; apply Nat.ltb_ge; lia).
  all: unfold utf8.cont, between, utf8.low6; rewrite Hb1, Hb2, Hb3.
  all: decide_tests; cbn [negb andb Nat.leb].
  all: rewrite land_07, !land_3F, shiftl_6, shiftl_12, shiftl_18.
  all: replace ((240 + q) mod 8) with q by (apply (Z.mod_unique _ _ 30); lia).
  all: replace ((128 + m2) mod 64) with m2 by (apply (Z.mod_unique _ _ 2); lia).
  all: replace ((128 + m1) mod 64) with m1 by (apply (Z.mod_unique _ _ 2); lia).
  all: replace ((128 + m0) mod 64) with m0 by (apply (Z.mod_unique _ _ 2); lia).
  all: rewrite (lor_disjoint (q * 262144) (m2 * 4096) 18);
         [|lia|change (2 ^ 18) with 262144; now rewrite Z.mod_mul|lia].
  all: rewrite (lor_disjoint (q * 262144 + m2 * 4096) (m1 * 64) 12);
         [|lia|replace (q * 262144 + m2 * 4096) with ((q * 64 + m2) * 2 ^ 12) by lia;
               now rewrite Z.mod_mul|lia].
  all: rewrite (lor_disjoint (q * 262144 + m2 * 4096 + m1 * 64) m0 6);
         [f_equal; lia|lia| |lia].
  all: replace (q * 262144 + m2 * 4096 + m1 * 64)
         with (((q * 64 + m2) * 64 + m1) * 2 ^ 6) by lia.
  all: now rewrite Z.mod_mul.
Qed.

(** The length of an encoding, by the range of the rune. *)
Lemma EncodeRune_size r :
  0 <= r <= 0x10FFFF -> ~ (0xD800 <= r <= 0xDFFF) ->
  length (utf8.EncodeRune r)
  = if r <=? 0x7F then 1%nat else if r <=? 0x7FF then 2%nat
    else if r <=? 0xFFFF then 3%nat else 4%nat.
Proof.
  intros Hr Hs. unfold utf8.EncodeRune. cbv zeta. rewrite (Z.mod_small r) by lia.
  decide_tests; reflexivity.
Qed.

Lemma decode_encoded r l :
  utf8.ValidRune r = true ->
  utf8.DecodeRune (utf8.EncodeRune r ++ l) = (r, length (utf8.EncodeRune r)).
Proof.
  intros Hv. unfold utf8.ValidRune in Hv.
  assert (Hr : 0 <= r < 0xD800 \/ 0xDFFF < r <= 0x10FFFF).
  { apply orb_true_iff in Hv. destruct Hv as [H|H]; apply andb_true_iff in H; lia. }
  rewrite EncodeRune_size by lia.
  destruct (Z.leb_spec r 0x7F); [apply DecodeRune_EncodeRune_1; lia|].
  destruct (Z.leb_spec r 0x7FF); [apply DecodeRune_EncodeRune_2; lia|].
  destruct (Z.leb_spec r 0xFFFF); [apply DecodeRune_EncodeRune_3; lia|].
  apply DecodeRune_EncodeRune_4. lia.
Qed.

(** Decoding undoes encoding.  For a valid rune [r] (one up to 0x10FFFF that
    is no surrogate half), [DecodeRune] applied to the encoding of [r],
    whatever bytes follow it, returns [r] and the length of the encoding,
    which is between one and four bytes. *)
Theorem DecodeRune_EncodeRune r l :
  utf8.ValidRune r = true ->
  utf8.DecodeRune (utf8.EncodeRune r ++ l) = (r, length (utf8.EncodeRune r)) /\
  (1 <= length (utf8.EncodeRune r) <= 4)%nat.
Proof.
  intros Hv. split; [|apply EncodeRune_length].
  assert (Hr : 0 <= r < 0xD800 \/ 0xDFFF < r <= 0x10FFFF).
  { unfold utf8.ValidRune in Hv. apply orb_true_iff in Hv.
    destruct Hv as [H|H]; apply andb_true_iff in H; lia. }
  rewrite EncodeRune_size by lia.
  destruct (Z.leb_spec r 0x7F); [apply DecodeRune_EncodeRune_1; lia|].
  destruct (Z.leb_spec r 0x7FF); [apply DecodeRune_EncodeRune_2; lia|].
  destruct (Z.leb_spec r 0xFFFF); [apply DecodeRune_EncodeRune_3; lia|].
  apply DecodeRune_EncodeRune_4. lia.
Qed.

(** The theorem at the rune U+1F600, whose encoding is F0 9F 98 80, with the
    byte of an exclamation mark after it. *)
Lemma DecodeRune_EncodeRune_witness :
  utf8.DecodeRune (utf8.EncodeRune 0x1F600 ++ [x21])
  = (0x1F600, length (utf8.EncodeRune 0x1F600)) /\
  (1 <= length (utf8.EncodeRune 0x1F600) <= 4)%nat.
Proof. apply (DecodeRune_EncodeRune 0x1F600 [x21]). reflexivity. Defined.

(** ** Text *)

Section Text.
Context {Mouse Color : Type}.
Variable X : ansi.Externals Mouse Color.
Implicit Types (b c : byte) (l p pre rest : list byte) (d : ansi.driver).

Lemma first_val b :
  match utf8.first b with
  | utf8.Ascii => val b < 0x80
  | utf8.Invalid => 0x80 <= val b
  | utf8.Lead _ _ _ => 0xC2 <= val b
  end.
Proof. destruct b; vm_compute; congruence. Qed.

(** A byte from 0xC0 on takes the default case of the switch and starts a
    rune. *)
Lemma lead_facts b :
  0xC0 <= val b ->
  beq b ansi.ESC = false /\ introducer8 b = false /\ control b = false /\
  utf8.RuneStart b = true.
Proof.
  intros H. destruct b; try (exfalso; vm_compute in H; congruence); vm_compute; done.
Qed.

(** A byte that is neither ESC nor an 8-bit introducer goes through the switch
    to the code below it. *)
Lemma step_plain d p i ev alt b :
  beq b ansi.ESC = false ->
  introducer8 b = false ->
  ansi.step X d p (ansi.AtBegin alt b i ev)
  = Returns (inl (ansi.AtFor (fst (ansi.afterSwitch X d p alt b i ev))
                             (snd (ansi.afterSwitch X d p alt b i ev)))).
Proof.
  intros He Hi. unfold ansi.step.
  unfold introducer8 in Hi. rewrite !orb_false_iff in Hi.
  destruct Hi as [[[[-> ->] ->] ->] ->]. rewrite He.
  cbn [mbind outcome_bind].
  destruct (ansi.afterSwitch X d p alt b i ev). reflexivity.
Qed.

Lemma afterSwitch_runes d p i ev alt b :
  control b = false ->
  utf8.RuneStart b = true ->
  ansi.afterSwitch X d p alt b i ev
  = ((i + snd (ansi.collectRunes (drop i p)))%nat,
     ev ++ [ansi.Key (ansi.altIf X alt
                        (ansi.setRunes (fst (ansi.collectRunes (drop i p))) ansi.zeroKey))]).
Proof.
  intros Hc Hs. unfold ansi.afterSwitch. unfold control in Hc. rewrite Hc, Hs.
  destruct (ansi.collectRunes (drop i p)). reflexivity.
Qed.

Lemma printable_valid r : printable r = true -> utf8.ValidRune r = true.
Proof. unfold printable. now intros [H _]%andb_true_iff. Qed.

Lemma printable_stops r : printable r = true -> ansi.stops r = false.
Proof. unfold printable. intros [_ H]%andb_true_iff. now apply negb_true_iff. Qed.

Lemma length_encodeRunes rs : (length rs <= length (encodeRunes rs))%nat.
Proof.
  induction rs as [|r rs IH]; [done|].
  unfold encodeRunes in *. cbn [flat_map]. rewrite length_app. cbn [length].
  pose proof (EncodeRune_length r). lia.
Qed.

(** The rune loop walks over a text rune by rune and stops where the text
    ends: at the end of the slice, or at a rune it does not collect. *)
Lemma collect_text rs : forall passes tail,
  Forall (fun r => printable r = true) rs ->
  (length rs <= passes)%nat ->
  match tail with [] => True | _ => ansi.stops (fst (utf8.DecodeRune tail)) = true end ->
  ansi.collect passes (encodeRunes rs ++ tail) = (rs, length (encodeRunes rs)).
Proof.
  induction rs as [|r rs IH]; intros passes tail Hp Hn Ht.
  - cbn [encodeRunes flat_map app length]. destruct passes as [|passes]; [done|].
    destruct tail as [|b tail]; [done|]. cbn [ansi.collect].
    destruct (utf8.DecodeRune (b :: tail)) as [r rw]. cbn [fst] in Ht. now rewrite Ht.
  - apply Forall_cons in Hp as [Hr Hp].
    destruct passes as [|passes]; [simpl in Hn; lia|].
    unfold encodeRunes in *. cbn [flat_map]. rewrite <- app_assoc.
    pose proof (EncodeRune_length r) as Hlen.
    destruct (utf8.EncodeRune r ++ flat_map utf8.EncodeRune rs ++ tail) as [|b0 tl0] eqn:El.
    { apply (f_equal (@length _)) in El. rewrite length_app in El. simpl in El. lia. }
    cbn [ansi.collect]. rewrite <- El.
    rewrite decode_encoded by now apply printable_valid.
    rewrite printable_stops by done.
    rewrite drop_app_length.
    rewrite IH; [|done|simpl in Hn; lia|done].
    now rewrite length_app.
Qed.

Lemma collectRunes_text rs tail :
  Forall (fun r => printable r = true) rs ->
  match tail with [] => True | _ => ansi.stops (fst (utf8.DecodeRune tail)) = true end ->
  ansi.collectRunes (encodeRunes rs ++ tail) = (rs, length (encodeRunes rs)).
Proof.
  intros Hp Ht. unfold ansi.collectRunes. apply collect_text; [done| |done].
  rewrite length_app. pose proof (length_encodeRunes rs). lia.
Qed.

(** The first byte of a text: a 7-bit byte that is the first rune and no
    control code, or a lead byte from 0xC2 on. *)
Lemma encodeRunes_head r rs tail :
  printable r = true ->
  exists b tl, encodeRunes (r :: rs) ++ tail = b :: tl /\
    (val b < 0x80 /\ control b = false /\ val b = r \/ 0xC2 <= val b).
Proof.
  intros Hr. unfold encodeRunes. cbn [flat_map]. rewrite <- app_assoc.
  pose proof (decode_encoded r (flat_map utf8.EncodeRune rs ++ tail)
                (printable_valid r Hr)) as Hdec.
  pose proof (EncodeRune_length r) as Hlen.
  destruct (utf8.EncodeRune r ++ flat_map utf8.EncodeRune rs ++ tail) as [|b tl] eqn:El.
  { apply (f_equal (@length _)) in El. rewrite length_app in El. simpl in El. lia. }
  exists b, tl. split; [done|].
  pose proof (first_val b) as Hf. pose proof (printable_stops r Hr) as Hs.
  unfold utf8.DecodeRune in Hdec.
  destruct (utf8.first b) eqn:Ef.
  - left. injection Hdec as <- _. split; [done|]. split; [|done].
    destruct (ascii_rune b Hf) as (_ & _ & <-). exact Hs.
  - injection Hdec as <- _. discriminate Hs.
  - now right.
Qed.

Lemma text_byte_facts b r :
  val b < 0x80 /\ control b = false /\ val b = r \/ 0xC2 <= val b ->
  beq b ansi.ESC = false /\ introducer8 b = false /\ control b = false /\
  utf8.RuneStart b = true.
Proof.
  intros [(H1 & H2 & _)|H].
  - destruct (ascii_not_intro8 b H1) as (E1 & E2 & E3 & E4 & E5).
    destruct (ascii_rune b H1) as (Hs & _ & _).
    unfold introducer8. rewrite E1, E2, E3, E4, E5, H2, Hs. repeat split.
    destruct (beq b ansi.ESC) eqn:E; [|done].
    apply Byte.byte_dec_bl in E. subst b. discriminate H2.
  - apply lead_facts. lia.
Qed.

(** One pass of the loop over a text at the index [i]: the runes of the text
    make one key event, and the loop goes on behind the text. *)
Lemma step_text d p i ev alt r rs tail :
  Forall (fun r => printable r = true) (r :: rs) ->
  drop i p = encodeRunes (r :: rs) ++ tail ->
  match tail with [] => True | _ => ansi.stops (fst (utf8.DecodeRune tail)) = true end ->
  exists b tl, encodeRunes (r :: rs) ++ tail = b :: tl /\
    (val b < 0x80 /\ control b = false /\ val b = r \/ 0xC2 <= val b) /\
    ansi.step X d p (ansi.AtBegin alt b i ev)
    = Returns (inl (ansi.AtFor (i + length (encodeRunes (r :: rs)))
        (ev ++ [ansi.Key (ansi.altIf X alt (ansi.setRunes (r :: rs) ansi.zeroKey))]))).
Proof.
  intros Hp Hd Ht.
  destruct (encodeRunes_head r rs tail) as (b & tl & Hb & Hfacts).
  { now apply Forall_cons in Hp as [? _]. }
  exists b, tl. split; [done|]. split; [done|].
  destruct (text_byte_facts b r Hfacts) as (He & Hi & Hc & Hs).
  rewrite step_plain by done.
  rewrite afterSwitch_runes by done.
  rewrite Hd, collectRunes_text by done. reflexivity.
Qed.

(** A buffer that is a text, the UTF-8 encoding of one or more printable
    runes, and no key of the table decodes to a single key event that carries
    all the runes of the text in order; the whole buffer is consumed. *)
Theorem text_is_one_key fuel t r rs :
  Forall (fun r => printable r = true) (r :: rs) ->
  let p := encodeRunes (r :: rs) in
  t !! p = None ->
  ansi.peekInput X (3 + fuel) (ansi.mkDriver t p)
  = Returns (length p, [ansi.Key (ansi.setRunes (r :: rs) ansi.zeroKey)], None,
             ansi.mkDriver t p).
Proof.
  intros Hp p Ht.
  destruct (step_text (ansi.mkDriver t p) p 0 [] false r rs [] Hp)
    as (b & tl & Hb & _ & Hstep).
  { now rewrite app_nil_r. }
  { done. }
  rewrite app_nil_r in Hb. fold p in Hb.
  rewrite peekInput_buffered by (cbn [ansi.rd]; now rewrite Hb).
  cbn [ansi.table ansi.rd]. rewrite Ht.
  change (3 + fuel)%nat with (S (S (S fuel))).
  rewrite run_S, (step_for X _ p 0 [] b) by now rewrite Hb.
  rewrite run_S, Hstep. fold p.
  rewrite run_exit by (simpl; lia).
  reflexivity.
Qed.

Lemma control_ascii c : control c = true -> val c < 0x80.
Proof. destruct c; vm_compute; congruence. Qed.

(** A text followed by one control code, DEL or space, as a typed line and
    its carriage return: two key events, the key of the runes of the text and
    then the key the table holds for the last byte (the zero key when it
    holds none); the whole buffer is consumed. *)
Theorem text_then_control fuel t r rs c :
  Forall (fun r => printable r = true) (r :: rs) ->
  control c = true ->
  let p := encodeRunes (r :: rs) ++ [c] in
  t !! p = None ->
  ansi.peekInput X (5 + fuel) (ansi.mkDriver t p)
  = Returns (length p,
             [ansi.Key (ansi.setRunes (r :: rs) ansi.zeroKey);
              ansi.Key (default ansi.zeroKey (t !! [c]))],
             None, ansi.mkDriver t p).
Proof.
  intros Hp Hc p Ht.
  pose proof (control_ascii c Hc) as Hc7.
  destruct (ascii_rune c Hc7) as (_ & Hdec & Hst).
  destruct (step_text (ansi.mkDriver t p) p 0 [] false r rs [c] Hp)
    as (b & tl & Hb & _ & Hstep).
  { done. }
  { rewrite Hdec. cbn [fst]. now rewrite Hst. }
  fold p in Hb.
  rewrite peekInput_buffered by (cbn [ansi.rd]; now rewrite Hb).
  cbn [ansi.table ansi.rd]. rewrite Ht.
  change (5 + fuel)%nat with (S (S (S (S (S fuel))))).
  rewrite run_S, (step_for X _ p 0 [] b) by now rewrite Hb.
  rewrite run_S, Hstep. cbn [Nat.add app].
  assert (Hlen : length p = S (length (encodeRunes (r :: rs)))).
  { subst p. rewrite length_app. simpl. lia. }
  assert (Hi : p !! length (encodeRunes (r :: rs)) = Some c).
  { subst p. now rewrite list_lookup_middle. }
  rewrite run_S, (step_for X _ p _ _ c Hi).
  rewrite run_S.
  assert (Hpos : (1 <= length (encodeRunes (r :: rs)))%nat).
  { pose proof (length_encodeRunes (r :: rs)). simpl in *. lia. }
  destruct (decide (c = ansi.ESC)) as [->|Hne].
  - rewrite step_esc_last by lia.
    rewrite run_exit by lia.
    cbn [mbind outcome_bind]. rewrite Hlen, Nat.add_1_r.
    reflexivity.
  - rewrite step_ascii by done.
    rewrite afterSwitch_control by done. cbn [fst snd].
    rewrite run_exit by lia.
    cbn [mbind outcome_bind]. rewrite Hlen, Nat.add_1_r.
    unfold ansi.tableGet. cbn [ansi.table]. now rewrite string_of_byte_ascii.
Qed.

Lemma special_val b : special b = true -> In (val b) [0x4F; 0x50; 0x5B; 0x5D; 0x5F].
Proof. destruct b; try discriminate; intros _; vm_compute; tauto. Qed.

(** An ESC before a text whose first rune is none of O, P, the brackets and
    the underscore: one key event that carries the runes of the text and has
    the Alt modifier set; the whole buffer is consumed. *)
Theorem esc_before_text_sets_alt fuel t r rs :
  Forall (fun r => printable r = true) (r :: rs) ->
  ~ In r [0x4F; 0x50; 0x5B; 0x5D; 0x5F] ->
  let p := ansi.ESC :: encodeRunes (r :: rs) in
  t !! p = None ->
  ansi.peekInput X (4 + fuel) (ansi.mkDriver t p)
  = Returns (length p,
             [ansi.Key (ansi.withAlt X (ansi.setRunes (r :: rs) ansi.zeroKey))],
             None, ansi.mkDriver t p).
Proof.
  intros Hp Hr p Ht.
  destruct (step_text (ansi.mkDriver t p) p 1 [] true r rs [] Hp)
    as (b & tl & Hb & Hfacts & Hstep).
  { now rewrite app_nil_r. }
  { done. }
  rewrite app_nil_r in Hb.
  assert (Hsp : special b = false).
  { destruct (special b) eqn:E; [|done]. apply special_val in E.
    destruct Hfacts as [(_ & _ & <-)|H]; [done|]. simpl in E. lia. }
  rewrite peekInput_buffered by done.
  cbn [ansi.table ansi.rd]. rewrite Ht.
  change (4 + fuel)%nat with (S (S (S (S fuel)))).
  rewrite run_S, (step_for X _ p 0 [] ansi.ESC) by done.
  assert (H1 : p !! 1%nat = Some b) by (subst p; cbn [lookup list_lookup]; now rewrite Hb).
  rewrite run_S, (step_esc_alt X _ p 0 [] false b); [|subst p; rewrite Hb; done|done|done].
  cbn [Nat.add]. rewrite run_S, Hstep.
  rewrite run_exit by (subst p; simpl; lia).
  reflexivity.
Qed.

(** *** Where no rune decodes *)

(** At an index where [DecodeRune] returns the replacement rune and the byte
    is no 8-bit introducer, a pass of the loop leaves the index where it is,
    so the loop never ends. *)
Lemma run_undecodable d p i b :
  p !! i = Some b ->
  introducer8 b = false ->
  fst (utf8.DecodeRune (drop i p)) = utf8.RuneError ->
  forall fuel ev, ansi.run X fuel d p (ansi.AtFor i ev) = Unfinished.
Proof.
  intros Hi Hint Hdec.
  assert (Hd : exists tl, drop i p = b :: tl).
  { exists (drop (S i) p). now apply drop_S. }
  destruct Hd as [tl Hd]. rewrite Hd in Hdec.
  assert (H8 : 0x80 <= val b).
  { pose proof (first_val b) as Hf. unfold utf8.DecodeRune in Hdec.
    destruct (utf8.first b); [|lia|lia].
    cbn [fst] in Hdec. pose proof (val_bounds b). unfold utf8.RuneError in Hdec. lia. }
  assert (Hfacts : beq b ansi.ESC = false /\ control b = false).
  { clear -H8. destruct b; try (exfalso; vm_compute in H8; congruence); done. }
  destruct Hfacts as [He Hc].
  assert (Hstep : forall ev, exists ev',
             ansi.step X d p (ansi.AtBegin false b i ev) = Returns (inl (ansi.AtFor i ev'))).
  { intros ev. destruct (utf8.RuneStart b) eqn:Hs.
    - rewrite step_plain, afterSwitch_runes by done. cbn [fst snd].
      rewrite Hd. unfold ansi.collectRunes. cbn [length ansi.collect].
      destruct (utf8.DecodeRune (b :: tl)) as [r rw]. cbn [fst] in Hdec. subst r.
      change (ansi.stops utf8.RuneError) with true.
      cbv iota. cbn [fst snd]. rewrite Nat.add_0_r. eexists. reflexivity.
    - exists ev. apply step_stray. unfold stray. rewrite Hs.
      unfold introducer8 in Hint. rewrite !orb_false_iff in Hint.
      destruct Hint as [[[[-> ->] ->] ->] ->]. reflexivity. }
  intros fuel. induction fuel as [fuel IH] using lt_wf_ind. intros ev.
  destruct fuel as [|[|fuel]]; [reflexivity| |].
  - rewrite run_S, (step_for X d p i ev b Hi). reflexivity.
  - rewrite run_S, (step_for X d p i ev b Hi).
    destruct (Hstep ev) as [ev' Hs]. rewrite run_S, Hs.
    apply IH. lia.
Qed.

(** A buffer that is no key of the table and at whose first byte no rune
    decodes, the byte being no 8-bit introducer: [peekInput] does not return,
    whatever the fuel.  Such a first byte is a continuation byte, a lead byte
    whose continuation bytes are missing or wrong, a byte no encoding
    contains, or the first byte of the encoded replacement rune U+FFFD. *)
Theorem peekInput_spins_where_no_rune_decodes fuel t b rest :
  introducer8 b = false ->
  fst (utf8.DecodeRune (b :: rest)) = utf8.RuneError ->
  t !! (b :: rest) = None ->
  ansi.peekInput X fuel (ansi.mkDriver t (b :: rest)) = Unfinished.
Proof.
  intros Hint Hdec Ht. rewrite peekInput_buffered by done.
  cbn [ansi.table ansi.rd]. rewrite Ht.
  now rewrite (run_undecodable _ (b :: rest) 0%nat b).
Qed.

End Text.

(** The theorem at the text h, e acute, U+1F600 with the sample table. *)
Lemma text_is_one_key_witness :
  ansi.peekInput sample.externals 3
    (ansi.mkDriver sample.table (encodeRunes [0x68; 0xE9; 0x1F600]))
  = Returns (length (encodeRunes [0x68; 0xE9; 0x1F600]),
             [ansi.Key (ansi.setRunes [0x68; 0xE9; 0x1F600] ansi.zeroKey)], None,
             ansi.mkDriver sample.table (encodeRunes [0x68; 0xE9; 0x1F600])).
Proof.
  apply (text_is_one_key sample.externals 0 sample.table 0x68 [0xE9; 0x1F600]).
  - repeat constructor.
  - vm_compute. reflexivity.
Defined.

(** The theorem at the text hi followed by a carriage return. *)
Lemma text_then_control_witness :
  ansi.peekInput sample.externals 5
    (ansi.mkDriver sample.table (encodeRunes [0x68; 0x69] ++ [x0d]))
  = Returns (length (encodeRunes [0x68; 0x69] ++ [x0d]),
             [ansi.Key (ansi.setRunes [0x68; 0x69] ansi.zeroKey);
              ansi.Key (default ansi.zeroKey (sample.table !! [x0d]))],
             None, ansi.mkDriver sample.table (encodeRunes [0x68; 0x69] ++ [x0d])).
Proof.
  apply (text_then_control sample.externals 0 sample.table 0x68 [0x69] x0d).
  - repeat constructor.
  - reflexivity.
  - vm_compute. reflexivity.
Defined.

(** The theorem at ESC followed by e acute. *)
Lemma esc_before_text_sets_alt_witness :
  ansi.peekInput sample.externals 4
    (ansi.mkDriver sample.table (ansi.ESC :: encodeRunes [0xE9]))
  = Returns (length (ansi.ESC :: encodeRunes [0xE9]),
             [ansi.Key (ansi.withAlt sample.externals (ansi.setRunes [0xE9] ansi.zeroKey))],
             None, ansi.mkDriver sample.table (ansi.ESC :: encodeRunes [0xE9])).
Proof.
  apply (esc_before_text_sets_alt sample.externals 0 sample.table 0xE9 []).
  - repeat constructor.
  - cbn. intuition discriminate.
  - vm_compute. reflexivity.
Defined.

(** The theorem at the three bytes EF BF BD, the encoding of U+FFFD, with a
    thousand moves. *)
Lemma peekInput_spins_where_no_rune_decodes_witness :
  ansi.peekInput sample.externals 1000 (ansi.mkDriver sample.table [xef; xbf; xbd])
  = Unfinished.
Proof.
  apply (peekInput_spins_where_no_rune_decodes sample.externals 1000 sample.table
           xef [xbf; xbd]).
  - reflexivity.
  - reflexivity.
  - vm_compute. reflexivity.
Defined.

(** ** Sequences and the Alt prefix *)

Section Sequences.
Context {Mouse Color : Type}.
Variable X : ansi.Externals Mouse Color.
Implicit Types (b c : byte) (l p pre rest : list byte) (d : ansi.driver).

(** At the label [begin] with an ESC that a byte follows in a buffer of more
    than one byte: the inner switch on the byte that follows. *)
Lemma step_esc_next d p i ev alt b1 :
  length p <> 1%nat ->
  p !! (i + 1)%nat = Some b1 ->
  ansi.step X d p (ansi.AtBegin alt ansi.ESC i ev)
  = if beq b1 x4f then ansi.continue (ansi.handleSeq (ansi.parseSs3 X d) i p alt i ev)
    else if beq b1 x50 then ansi.continue (ansi.handleSeq (ansi.parseDcs d) i p alt i ev)
    else if beq b1 x5b then ansi.continue (ansi.handleSeq (ansi.parseCsi X d) i p alt i ev)
    else if beq b1 x5d then ansi.continue (ansi.handleSeq (ansi.parseOsc X d) i p alt i ev)
    else if beq b1 x5f then ansi.continue (ansi.handleSeq (ansi.parseApc d) i p alt i ev)
    else Returns (inl (ansi.AtBegin true b1 (i + 1) ev)).
Proof.
  intros H1 H. unfold ansi.step.
  rewrite beq_refl, (proj2 (Nat.eqb_neq _ _) H1).
  pose proof (lookup_lt_Some _ _ _ H) as Hlt.
  rewrite (proj2 (Nat.leb_gt _ _) Hlt).
  unfold index. rewrite H. reflexivity.
Qed.

(** The two bytes ESC B, where B is one of O, P, the brackets and the
    underscore, and the table holds no key for them: the byte B opens a
    sequence that the end of the buffer cuts short, and the call reports one
    unknown event that carries the two bytes, not the key B with the Alt
    modifier; both bytes are consumed. *)
Theorem esc_special_at_end_is_unknown fuel t B :
  special B = true ->
  t !! [ansi.ESC; B] = None ->
  ansi.peekInput X (3 + fuel) (ansi.mkDriver t [ansi.ESC; B])
  = Returns (2%nat, [ansi.UnknownEvent [ansi.ESC; B]], None,
             ansi.mkDriver t [ansi.ESC; B]).
Proof.
  intros Hs Ht. rewrite peekInput_buffered by done.
  cbn [ansi.table ansi.rd]. rewrite Ht.
  change (3 + fuel)%nat with (S (S (S fuel))).
  rewrite run_S, (step_for X _ _ 0 [] ansi.ESC) by done.
  rewrite run_S, (step_esc_next _ _ 0 [] false B) by done.
  set (d := ansi.mkDriver t [ansi.ESC; B]).
  assert (Hintro : forall i8,
            ansi.introducer i8 B 0 [ansi.ESC; B] = Returns ([ansi.ESC; B], 2%nat)).
  { intros i8. apply (introducer_esc i8 B [] []).
    apply special_val in Hs. simpl in Hs. lia. }
  assert (Hss3 : ansi.parseSs3 X d 0 [ansi.ESC; x4f] false
                 = Returns (2%nat, ansi.UnknownEvent [ansi.ESC; x4f]) \/ B <> x4f).
  { destruct (decide (B = x4f)) as [->|]; [left|now right].
    unfold ansi.parseSs3. rewrite Hintro. cbn [mbind outcome_bind lookup list_lookup].
    unfold ansi.partial. cbn [ansi.table d]. now rewrite Ht. }
  assert (Hcsi : ansi.parseCsi X d 0 [ansi.ESC; x5b] false
                 = Returns (2%nat, ansi.UnknownEvent [ansi.ESC; x5b]) \/ B <> x5b).
  { destruct (decide (B = x5b)) as [->|]; [left|now right].
    unfold ansi.parseCsi. rewrite Hintro.
    cbn [mbind outcome_bind drop ansi.scan ansi.str flat_map app length Nat.add].
    unfold ansi.csiFinal. cbn [lookup list_lookup].
    unfold ansi.partial. cbn [ansi.table d]. now rewrite Ht. }
  assert (Hosc : ansi.parseOsc X d 0 [ansi.ESC; x5d] false
                 = Returns (2%nat, ansi.UnknownEvent [ansi.ESC; x5d]) \/ B <> x5d).
  { destruct (decide (B = x5d)) as [->|]; [left|now right].
    unfold ansi.parseOsc. rewrite Hintro. reflexivity. }
  assert (Hctl : forall i8, ansi.parseCtrl i8 B 0 [ansi.ESC; B] false
                 = Returns (2%nat, @ansi.UnknownEvent Mouse Color [ansi.ESC; B])).
  { intros i8. unfold ansi.parseCtrl. rewrite Hintro. reflexivity. }
  destruct B; try discriminate Hs.
  all: repeat match goal with
       | |- context [beq ?a ?b] =>
         let v := eval vm_compute in (beq a b) in change (beq a b) with v
       end; cbv iota.
  all: unfold ansi.handleSeq, ansi.parseDcs, ansi.parseApc.
  all: try rewrite Hctl.
  all: try (destruct Hss3 as [->|]; [|done]).
  all: try (destruct Hcsi as [->|]; [|done]).
  all: try (destruct Hosc as [->|]; [|done]).
  all: cbn [mbind outcome_bind ansi.continue Nat.add app].
  all: now rewrite run_exit.
Qed.

Lemma is_final_ascii b : ansi.is_final b = true -> val b < 0x80.
Proof. intros H%between_lt. lia. Qed.

Lemma is_final_not_scanned b :
  ansi.is_final b = true -> ansi.is_param b = false /\ ansi.is_intermediate b = false.
Proof.
  intros H%between_lt. unfold ansi.is_param, ansi.is_intermediate, between.
  split; apply andb_false_iff; right; apply Z.leb_gt; lia.
Qed.

(** [parseCsi] at a complete CSI sequence that is a key of the table returns
    that key as the table holds it, whatever [alt] is and whatever the
    sequence looks like, and the length of the sequence. *)
Lemma parseCsi_table_key d pre seq rest alt k :
  csiSeq seq ->
  ansi.table d !! seq = Some k ->
  ansi.parseCsi X d (length pre) (pre ++ seq ++ rest) alt
  = Returns (length seq, ansi.Key k).
Proof.
  intros Hseq Hk. destruct Hseq as [params inters fin Hp Hi Hf].
  set (s := ansi.ESC :: x5b :: params ++ inters ++ [fin]) in *.
  set (p := pre ++ s ++ rest).
  pose proof (parseCsi_shape X d pre params inters (fin :: rest) alt Hp Hi
                (is_final_not_scanned fin Hf)) as Hs.
  cbv zeta in Hs.
  assert (Ep : pre ++ ansi.ESC :: x5b :: params ++ inters ++ fin :: rest = p).
  { subst p s. cbn [app]. now rewrite <- !app_assoc. }
  rewrite Ep in Hs. rewrite Hs. unfold ansi.csiFinal.
  assert (Hl : p !! (length pre + 2 + length params + length inters)%nat = Some fin).
  { rewrite <- Ep.
    replace (pre ++ ansi.ESC :: x5b :: params ++ inters ++ fin :: rest)
      with ((pre ++ [ansi.ESC; x5b] ++ params ++ inters) ++ fin :: rest)
      by (rewrite <- !app_assoc; reflexivity).
    replace (length pre + 2 + length params + length inters)%nat
      with (length (pre ++ [ansi.ESC; x5b] ++ params ++ inters))
      by (rewrite !length_app; simpl; lia).
    apply list_lookup_middle. reflexivity. }
  rewrite Hl, Hf. cbn [negb].
  rewrite string_of_byte_ascii by now apply is_final_ascii.
  replace ((ansi.ESC :: x5b :: params ++ inters) ++ [fin]) with s
    by (subst s; cbn [app]; now rewrite <- app_assoc).
  now rewrite Hk.
Qed.

Lemma csiSeq_shape seq : csiSeq seq -> exists tl, seq = ansi.ESC :: x5b :: tl /\ tl <> [].
Proof.
  intros [params inters fin _ _ _]. eexists. split; [reflexivity|].
  intros E. apply (f_equal (@length _)) in E. rewrite !length_app in E. simpl in E. lia.
Qed.

(** An ESC before a complete CSI sequence that is a key of the table, as some
    terminals send for Alt with a cursor key: the call returns the key as the
    table holds it, without the Alt modifier, although the ESC was taken as
    the Alt prefix; the whole buffer is consumed. *)
Theorem alt_is_dropped_for_csi_table_key fuel t seq k :
  csiSeq seq ->
  let p := ansi.ESC :: seq in
  t !! p = None ->
  t !! seq = Some k ->
  ansi.peekInput X (4 + fuel) (ansi.mkDriver t p)
  = Returns (length p, [ansi.Key k], None, ansi.mkDriver t p).
Proof.
  intros Hseq p Ht Hk.
  destruct (csiSeq_shape seq Hseq) as (tl & Etl & Hne).
  rewrite peekInput_buffered by done.
  cbn [ansi.table ansi.rd]. rewrite Ht.
  set (d := ansi.mkDriver t p).
  change (4 + fuel)%nat with (S (S (S (S fuel)))).
  rewrite run_S, (step_for X _ p 0 [] ansi.ESC) by done.
  rewrite run_S, (step_esc_alt X _ p 0 [] false ansi.ESC);
    [|subst p; rewrite Etl; done|subst p; now rewrite Etl|done].
  cbn [Nat.add].
  rewrite run_S, step_esc_csi; [|subst p; rewrite Etl; done|subst p; now rewrite Etl].
  pose proof (parseCsi_table_key d [ansi.ESC] seq [] true k Hseq Hk) as Hparse.
  rewrite app_nil_r in Hparse. change ([ansi.ESC] ++ seq) with p in Hparse.
  change (length [ansi.ESC]) with 1%nat in Hparse. rewrite Hparse.
  cbn [mbind outcome_bind].
  rewrite run_exit by (subst p; simpl; lia).
  reflexivity.
Qed.

(** An ESC before ESC O and a character in 0x21-0x7E, the three of which are
    a key of the table: here the call returns the key with the Alt modifier
    set; the four bytes are consumed. *)
Theorem alt_is_kept_for_ss3_table_key fuel t c k :
  between 0x21 0x7E c = true ->
  let p := [ansi.ESC; ansi.ESC; x4f; c] in
  t !! p = None ->
  t !! [ansi.ESC; x4f; c] = Some k ->
  ansi.peekInput X (4 + fuel) (ansi.mkDriver t p)
  = Returns (4%nat, [ansi.Key (ansi.withAlt X k)], None, ansi.mkDriver t p).
Proof.
  intros Hc p Ht Hk.
  rewrite peekInput_buffered by done.
  cbn [ansi.table ansi.rd]. rewrite Ht.
  set (d := ansi.mkDriver t p).
  change (4 + fuel)%nat with (S (S (S (S fuel)))).
  rewrite run_S, (step_for X _ p 0 [] ansi.ESC) by done.
  rewrite run_S, (step_esc_alt X _ p 0 [] false ansi.ESC) by done.
  cbn [Nat.add].
  rewrite run_S, (step_esc_next _ p 1 [] true x4f) by done.
  change (beq x4f x4f) with true. cbv iota.
  unfold ansi.handleSeq, ansi.parseSs3.
  pose proof (introducer_esc ansi.SS3 x4f [ansi.ESC] [c] ltac:(vm_compute; reflexivity))
    as Hin.
  change (ansi.introducer ansi.SS3 x4f 1 p = Returns ([ansi.ESC; x4f], 3%nat)) in Hin.
  rewrite Hin.
  cbn [mbind outcome_bind length Nat.add]. change (p !! 3%nat) with (Some c).
  cbv beta iota. rewrite Hc. cbn [negb].
  apply between_lt in Hc.
  rewrite string_of_byte_ascii by lia. cbn [app ansi.table d]. rewrite Hk.
  cbn [mbind outcome_bind ansi.continue ansi.altIf length Nat.add app].
  now rewrite run_exit.
Qed.

(** Two moves of the loop over a CSI sequence that is a key of the table. *)
Lemma run_csi_key fuel d pre seq rest ev k :
  csiSeq seq ->
  ansi.table d !! seq = Some k ->
  ansi.run X (2 + fuel) d (pre ++ seq ++ rest) (ansi.AtFor (length pre) ev)
  = ansi.run X fuel d (pre ++ seq ++ rest)
      (ansi.AtFor (length pre + length seq) (ev ++ [ansi.Key k])).
Proof.
  intros Hseq Hk.
  destruct (csiSeq_shape seq Hseq) as (tl & Etl & Hne).
  set (p := pre ++ seq ++ rest).
  assert (H0 : p !! length pre = Some ansi.ESC).
  { subst p. rewrite Etl. cbn [app]. now apply list_lookup_middle. }
  assert (H1 : p !! (length pre + 1)%nat = Some x5b).
  { subst p. rewrite Etl. cbn [app].
    replace (pre ++ ansi.ESC :: x5b :: tl ++ rest)
      with ((pre ++ [ansi.ESC]) ++ x5b :: tl ++ rest)
      by now rewrite <- app_assoc.
    apply list_lookup_middle. rewrite length_app. reflexivity. }
  assert (Hlen : length p <> 1%nat).
  { subst p. rewrite Etl, length_app. simpl. lia. }
  change (2 + fuel)%nat with (S (S fuel)).
  rewrite run_S, (step_for X d p _ ev ansi.ESC H0).
  rewrite run_S, step_esc_csi by done.
  subst p. rewrite (parseCsi_table_key d pre seq rest false k) by done.
  reflexivity.
Qed.

Lemma run_csi_keys d seqs ks :
  Forall2 (fun seq k => csiSeq seq /\ ansi.table d !! seq = Some k) seqs ks ->
  forall pre ev fuel,
  ansi.run X (2 * length seqs + 1 + fuel) d (pre ++ concat seqs) (ansi.AtFor (length pre) ev)
  = Returns (length (pre ++ concat seqs), ev ++ map ansi.Key ks).
Proof.
  induction 1 as [|seq k seqs ks [Hseq Hk] _ IH]; intros pre ev fuel.
  - cbn [concat length Nat.mul Nat.add map]. rewrite !app_nil_r.
    now rewrite run_exit.
  - cbn [concat length map].
    replace (2 * S (length seqs) + 1 + fuel)%nat
      with (2 + (2 * length seqs + 1 + fuel))%nat by lia.
    rewrite (run_csi_key _ d pre seq (concat seqs) ev k) by done.
    specialize (IH (pre ++ seq) (ev ++ [ansi.Key k]) fuel).
    rewrite length_app, <- !app_assoc in IH. rewrite IH.
    reflexivity.
Qed.

(** A buffer that holds several complete CSI sequences one after the other,
    each a key of the table, as a held cursor key fills it: the call returns
    the keys of the sequences in their order, one event each, and consumes
    the whole buffer. *)
Theorem csi_keys_decode_in_order fuel t seqs ks :
  Forall2 (fun seq k => csiSeq seq /\ t !! seq = Some k) seqs ks ->
  seqs <> [] ->
  let p := concat seqs in
  t !! p = None ->
  ansi.peekInput X (2 * length seqs + 1 + fuel) (ansi.mkDriver t p)
  = Returns (length p, map ansi.Key ks, None, ansi.mkDriver t p).
Proof.
  intros Hall Hsome p Ht.
  destruct (decide (p = [])) as [He|Hne].
  - destruct Hall as [|seq k seqs ks [Hseq _] _]; [done|].
    exfalso. destruct (csiSeq_shape seq Hseq) as (tl & -> & _).
    subst p. discriminate He.
  - rewrite peekInput_buffered by done.
    cbn [ansi.table ansi.rd]. rewrite Ht.
    pose proof (run_csi_keys (ansi.mkDriver t p) seqs ks Hall [] [] fuel) as Hrun.
    cbn [app length] in Hrun. fold p in Hrun. now rewrite Hrun.
Qed.

(** An SGR mouse report, ESC [ and parameter bytes that begin with the prefix
    [<], ended by M or m, that the table does not hold: the whole sequence,
    and nothing but it, is handed to the SGR mouse decoder, and the whole of
    it is consumed. *)
Theorem sgr_mouse_is_handed_whole fuel t ps fin :
  Forall (fun b => ansi.is_param b = true) ps ->
  fin = x4d \/ fin = x6d ->
  let seq := ansi.ESC :: x5b :: ps ++ [fin] in
  t !! seq = None ->
  ansi.CsiInitial X seq = 0x3c ->
  ansi.CsiCommand X seq = val fin ->
  ansi.peekInput X (3 + fuel) (ansi.mkDriver t seq)
  = Returns (length seq, [ansi.parseSGRMouseEvent X seq], None, ansi.mkDriver t seq).
Proof.
  intros Hps Hfin seq Ht Hini Hcmd.
  rewrite peekInput_buffered by done.
  cbn [ansi.table ansi.rd]. rewrite Ht.
  set (d := ansi.mkDriver t seq).
  assert (Hf : ansi.is_final fin = true) by (destruct Hfin; subst fin; reflexivity).
  assert (Hparse : ansi.parseCsi X d 0 seq false
                   = Returns (length seq, ansi.parseSGRMouseEvent X seq)).
  { pose proof (parseCsi_shape X d [] ps [] [fin] false Hps (Forall_nil_2 _)
                  (is_final_not_scanned fin Hf)) as Hs.
    cbv zeta in Hs. cbn [app length] in Hs. fold seq in Hs.
    rewrite Hs. unfold ansi.csiFinal.
    assert (Hl : seq !! (0 + 2 + length ps + 0)%nat = Some fin).
    { subst seq. rewrite Nat.add_0_r. cbn [Nat.add].
      change (ansi.ESC :: x5b :: ps ++ [fin]) with (([ansi.ESC; x5b] ++ ps) ++ [fin]).
      apply list_lookup_middle. rewrite length_app. reflexivity. }
    rewrite Hl, Hf. cbn [negb].
    rewrite string_of_byte_ascii by now apply is_final_ascii.
    rewrite app_nil_r. change ((ansi.ESC :: x5b :: ps) ++ [fin]) with seq.
    cbn [ansi.table d]. rewrite Ht, Hini, Hcmd.
    assert (Hx : (0 + 2 + length ps + 0 + 3 <? length seq)%nat = false).
    { apply Nat.ltb_ge. subst seq. cbn [length]. rewrite length_app. simpl. lia. }
    rewrite Hx, andb_false_r.
    replace ((0x3c =? 0x3c) && ((val fin =? 0x6d) || (val fin =? 0x4d))) with true
      by (destruct Hfin; subst fin; reflexivity).
    reflexivity. }
  rewrite (run_single_csi X fuel d seq _ _ eq_refl eq_refl Hparse) by done.
  reflexivity.
Qed.

(** The legacy X10 report needs its three bytes in the buffer.  When fewer
    than three bytes follow ESC [ M, the table holding no key for it, the
    parser does not wait for them: it returns the unknown event of the three
    bytes ESC [ M and their count, and leaves the bytes that follow to the
    next pass of the loop. *)
Theorem x10_needs_three_bytes d pre tail alt :
  (length tail < 3)%nat ->
  ansi.table d !! [x1b; x5b; x4d] = None ->
  ansi.CsiInitial X [x1b; x5b; x4d] = 0 ->
  ansi.CsiCommand X [x1b; x5b; x4d] = 0x4d ->
  ansi.parseCsi X d (length pre) (pre ++ [x1b; x5b; x4d] ++ tail) alt
  = Returns (3%nat, ansi.UnknownEvent [x1b; x5b; x4d]).
Proof.
  intros Htail Ht Hini Hcmd.
  pose proof (parseCsi_shape X d pre [] [] (x4d :: tail) alt
                (Forall_nil_2 _) (Forall_nil_2 _) (conj eq_refl eq_refl)) as Hs.
  cbv zeta in Hs. cbn [app length] in Hs. cbn [app].
  change x1b with ansi.ESC. rewrite Hs. unfold ansi.csiFinal.
  assert (Hl : (pre ++ ansi.ESC :: x5b :: x4d :: tail) !! (length pre + 2 + 0 + 0)%nat
               = Some x4d).
  { rewrite !Nat.add_0_r.
    replace (pre ++ ansi.ESC :: x5b :: x4d :: tail)
      with ((pre ++ [ansi.ESC; x5b]) ++ x4d :: tail) by now rewrite <- app_assoc.
    apply list_lookup_middle. rewrite length_app. reflexivity. }
  rewrite Hl. change (negb (ansi.is_final x4d)) with false. cbv iota zeta.
  change ([ansi.ESC; x5b] ++ string_of_byte x4d) with [x1b; x5b; x4d].
  rewrite Ht, Hini, Hcmd.
  assert (Hx : (length pre + 2 + 0 + 0 + 3 <? length (pre ++ ansi.ESC :: x5b :: x4d :: tail))%nat
               = false).
  { apply Nat.ltb_ge. rewrite length_app. simpl. lia. }
  rewrite Hx, andb_false_r. reflexivity.
Qed.

(** The byte after a short 8-bit CSI sequence is lost.  On the three bytes
    0x9B, a final byte and any byte [x], the table not holding the buffer and
    the final byte not being the [u] of the Kitty protocol, the call returns
    exactly one event and reports three bytes consumed: the parser counted
    three bytes for the two it read, [string(p[i])] having made two bytes of
    0x9B, so that the loop ends without having looked at [x], which gives no
    event whatever it is. *)
Theorem byte_after_csi8_is_skipped fuel t fin x :
  ansi.is_final fin = true ->
  let p := [ansi.CSI; fin; x] in
  t !! p = None ->
  ansi.CsiCommand X (string_of_byte ansi.CSI ++ [fin]) <> 0x75 ->
  exists e,
    ansi.peekInput X (3 + fuel) (ansi.mkDriver t p)
    = Returns (3%nat, [e], None, ansi.mkDriver t p).
Proof.
  intros Hf p Ht Hcmd.
  rewrite peekInput_buffered by done.
  cbn [ansi.table ansi.rd]. rewrite Ht.
  set (d := ansi.mkDriver t p).
  destruct (is_final_not_scanned fin Hf) as [Hnp Hni].
  assert (Hparse : exists e, ansi.parseCsi X d 0 p false = Returns (3%nat, e)).
  { unfold ansi.parseCsi.
    pose proof (introducer_8bit ansi.CSI x5b [] [fin; x] ltac:(done)) as Hin.
    cbn [app length Nat.add] in Hin. fold p in Hin. rewrite Hin.
    cbn [mbind outcome_bind]. change (drop 1 p) with [fin; x].
    cbn [ansi.scan]. rewrite Hnp. cbn [ansi.str flat_map length Nat.add].
    change (drop 1 p) with [fin; x]. cbn [ansi.scan]. rewrite Hni.
    cbn [ansi.str flat_map length Nat.add]. rewrite !app_nil_r.
    unfold ansi.csiFinal. change (p !! 1%nat) with (Some fin). cbv beta iota.
    rewrite Hf. cbn [negb].
    rewrite (string_of_byte_ascii fin) by now apply is_final_ascii.
    destruct (ansi.table d !! _); [eexists; reflexivity|].
    rewrite bool_decide_eq_false_2 by discriminate. cbn [andb].
    destruct (_ && _); [eexists; reflexivity|].
    apply Z.eqb_neq in Hcmd. rewrite Hcmd, andb_false_r.
    eexists. reflexivity. }
  destruct Hparse as [e Hparse]. exists e.
  change (3 + fuel)%nat with (S (S (S fuel))).
  rewrite run_S, (step_for X d p 0 [] ansi.CSI eq_refl).
  rewrite run_S, step_csi8, Hparse. cbn [mbind outcome_bind Nat.add app].
  now rewrite run_exit.
Qed.

(** The case of the 8-bit DCS in the switch of [peekInput] has no [continue],
    so that the code below the switch runs after the parser; it adds no event
    and does not move the index, the byte 0x90 being no control code and
    starting no rune: the case does what it would do with a [continue]. *)
Theorem dcs_case_adds_nothing d p i ev alt :
  ansi.step X d p (ansi.AtBegin alt ansi.DCS i ev)
  = ansi.continue (ansi.handleSeq (ansi.parseDcs d) i p alt i ev).
Proof.
  unfold ansi.step.
  change (beq ansi.DCS ansi.ESC) with false. change (beq ansi.DCS ansi.SS3) with false.
  change (beq ansi.DCS ansi.DCS) with true. cbv iota.
  destruct (ansi.handleSeq (ansi.parseDcs d) i p alt i ev) as [[i' ev']| |]; reflexivity.
Qed.

Lemma length_str l :
  length (ansi.str l) = (length l + length (filter (fun b => eightBit b = true) l))%nat.
Proof.
  induction l as [|b l IH]; [reflexivity|].
  unfold ansi.str in *. cbn [flat_map]. rewrite length_app, IH.
  rewrite filter_cons. unfold string_of_byte, eightBit.
  destruct (Z.ltb_spec (val b) 0x80), (Z.leb_spec 0x80 (val b)); try lia;
    destruct (decide _); try done; cbn [length]; lia.
Qed.

Lemma str_app l1 l2 : ansi.str (l1 ++ l2) = ansi.str l1 ++ ansi.str l2.
Proof. unfold ansi.str. apply flat_map_app. Qed.

(** A buffer that is a DCS or APC string in its 7-bit form, ESC P or ESC
    underscore, then bytes other than ESC and ST, then one of the ends of
    [ctrlEnd], and no key of the table: the call reports one unknown event.
    The event carries the string of the bytes converted one by one, and the
    count is the length of that string: the length of the buffer and one more
    for every byte from 0x80 on in it. *)
Theorem control_string_is_one_unknown_event fuel t c7 body term :
  c7 = x50 \/ c7 = x5f ->
  Forall (fun b => b <> ansi.ESC /\ b <> ansi.ST) body ->
  ctrlEnd term ->
  let p := ansi.ESC :: c7 :: body ++ term in
  t !! p = None ->
  ansi.peekInput X (3 + fuel) (ansi.mkDriver t p)
  = Returns (length (ansi.str p), [ansi.UnknownEvent (ansi.str p)], None,
             ansi.mkDriver t p) /\
  length (ansi.str p)
  = (length p + length (filter (fun b => eightBit b = true) p))%nat.
Proof.
  intros Hc Hbody Hterm p Ht. split; [|apply length_str].
  rewrite peekInput_buffered by done.
  cbn [ansi.table ansi.rd]. rewrite Ht.
  set (d := ansi.mkDriver t p).
  assert (Hparse : forall i8, ansi.parseCtrl i8 c7 0 p false
                   = Returns (length (ansi.str p),
                              @ansi.UnknownEvent Mouse Color (ansi.str p))).
  { intros i8. unfold ansi.parseCtrl.
    rewrite (introducer_esc _ c7 [] (body ++ term))
      by (destruct Hc; subst c7; vm_compute; reflexivity).
    cbn [mbind outcome_bind length Nat.add].
    change (drop 2 p) with (body ++ term).
    assert (Hscan : ansi.scan (fun b => negb (beq b ansi.ST) && negb (beq b ansi.ESC))
                      (body ++ term) = body).
    { apply scan_all.
      - eapply Forall_impl; [exact Hbody|]. intros b [H1 H2].
        now rewrite !beq_neq.
      - destruct Hterm as [-> | [-> | [-> | -> ]]]; done. }
    rewrite Hscan.
    assert (Hstr : ansi.str p = [ansi.ESC; c7] ++ ansi.str body ++ ansi.str term).
    { subst p. change (ansi.ESC :: c7 :: body ++ term) with ([ansi.ESC; c7] ++ body ++ term).
      rewrite !str_app. f_equal.
      destruct Hc; subst c7; reflexivity. }
    assert (Hl : forall k, p !! (S (S (length body)) + k)%nat = term !! k).
    { intros k. subst p.
      change (ansi.ESC :: c7 :: body ++ term) with ([ansi.ESC; c7] ++ body ++ term).
      rewrite app_assoc, lookup_app_r by (rewrite length_app; simpl; lia).
      f_equal. rewrite length_app. simpl. lia. }
    pose proof (Hl 0%nat) as Hl0. pose proof (Hl 1%nat) as Hl1.
    rewrite Nat.add_0_r in Hl0. rewrite Nat.add_1_r in Hl1.
    rewrite Hl0. unfold ansi.terminated. rewrite Hl1, Hstr.
    destruct Hterm as [-> | [-> | [-> | -> ]]]; cbn [lookup list_lookup].
    - now rewrite app_nil_r.
    - reflexivity.
    - reflexivity.
    - change (beq ansi.ESC ansi.ESC && beq x5c x5c) with true. cbv iota.
      rewrite <- !app_assoc. reflexivity. }
  change (3 + fuel)%nat with (S (S (S fuel))).
  rewrite run_S, (step_for X _ p 0 [] ansi.ESC) by done.
  rewrite run_S, (step_esc_next _ p 0 [] false c7) by done.
  assert (Hlen : (length p <= length (ansi.str p))%nat) by (rewrite length_str; lia).
  destruct Hc as [-> | -> ].
  - change (beq x50 x4f) with false. change (beq x50 x50) with true. cbv iota.
    unfold ansi.handleSeq, ansi.parseDcs.
    rewrite Hparse. cbn [mbind outcome_bind ansi.continue Nat.add app].
    now rewrite run_exit.
  - change (beq x5f x4f) with false. change (beq x5f x50) with false.
    change (beq x5f x5b) with false. change (beq x5f x5d) with false.
    change (beq x5f x5f) with true. cbv iota.
    unfold ansi.handleSeq, ansi.parseApc.
    rewrite Hparse. cbn [mbind outcome_bind ansi.continue Nat.add app].
    now rewrite run_exit.
Qed.

(** An OSC sequence that the end of the buffer cuts short, ESC and the close
    bracket followed by bytes none of which is BEL, ESC or ST: the call does
    not wait for the terminator.  It reports one unknown event, whatever the
    identifier of the sequence is, and consumes the buffer (the count being,
    as for the other strings, the length of the bytes converted one by
    one). *)
Theorem osc_without_terminator_is_unknown fuel t body :
  Forall (fun b => ansi.oscBody b = true) body ->
  let p := ansi.ESC :: x5d :: body in
  t !! p = None ->
  ansi.peekInput X (3 + fuel) (ansi.mkDriver t p)
  = Returns (length (ansi.str p), [ansi.UnknownEvent (ansi.str p)], None,
             ansi.mkDriver t p).
Proof.
  intros Hbody p Ht.
  rewrite peekInput_buffered by done.
  cbn [ansi.table ansi.rd]. rewrite Ht.
  set (d := ansi.mkDriver t p).
  assert (Hparse : ansi.parseOsc X d 0 p false
                   = Returns (length (ansi.str p), ansi.UnknownEvent (ansi.str p))).
  { unfold ansi.parseOsc.
    pose proof (introducer_esc ansi.OSC x5d [] body ltac:(vm_compute; reflexivity)) as Hin.
    cbn [app length Nat.add] in Hin. fold p in Hin. rewrite Hin.
    cbn [mbind outcome_bind]. change (drop 2 p) with body.
    assert (Hscan : ansi.scan ansi.oscBody body = body).
    { rewrite <- (app_nil_r body) at 1. now apply scan_all. }
    rewrite Hscan. unfold ansi.oscFinal.
    rewrite lookup_ge_None_2 by (subst p; simpl; lia).
    reflexivity. }
  change (3 + fuel)%nat with (S (S (S fuel))).
  rewrite run_S, (step_for X _ p 0 [] ansi.ESC) by done.
  rewrite run_S, (step_esc_next _ p 0 [] false x5d); [|done|reflexivity].
  change (beq x5d x4f) with false. change (beq x5d x50) with false.
  change (beq x5d x5b) with false. change (beq x5d x5d) with true. cbv iota.
  unfold ansi.handleSeq. rewrite Hparse.
  cbn [mbind outcome_bind ansi.continue Nat.add app].
  assert (Hlen : (length p <= length (ansi.str p))%nat) by (rewrite length_str; lia).
  now rewrite run_exit.
Qed.

End Sequences.

(** The theorem at ESC and the close bracket, with the sample table. *)
Lemma esc_special_at_end_is_unknown_witness :
  ansi.peekInput sample.externals 3 (ansi.mkDriver sample.table [ansi.ESC; x5d])
  = Returns (2%nat, [ansi.UnknownEvent [ansi.ESC; x5d]], None,
             ansi.mkDriver sample.table [ansi.ESC; x5d]).
Proof.
  apply (esc_special_at_end_is_unknown sample.externals 0 sample.table x5d).
  - reflexivity.
  - vm_compute. reflexivity.
Defined.

Lemma csiSeq_up : csiSeq [x1b; x5b; x41].
Proof. apply (csi_seq [] [] x41); [constructor|constructor|reflexivity]. Qed.

(** The theorem at ESC ESC [ A with the sample table, which holds the
    cursor-up key under ESC [ A. *)
Lemma alt_is_dropped_for_csi_table_key_witness :
  ansi.peekInput sample.externals 4 (ansi.mkDriver sample.table [x1b; x1b; x5b; x41])
  = Returns (4%nat, [ansi.Key sample.keyUp], None,
             ansi.mkDriver sample.table [x1b; x1b; x5b; x41]).
Proof.
  apply (alt_is_dropped_for_csi_table_key sample.externals 0 sample.table
           [x1b; x5b; x41] sample.keyUp).
  - exact csiSeq_up.
  - vm_compute. reflexivity.
  - vm_compute. reflexivity.
Defined.

(** The theorem at ESC ESC O P with a table that holds one key, under
    ESC O P. *)
Lemma alt_is_kept_for_ss3_table_key_witness :
  ansi.peekInput sample.externals 4
    (ansi.mkDriver (<[ [x1b; x4f; x50] := sample.keyUp ]> ∅) [x1b; x1b; x4f; x50])
  = Returns (4%nat, [ansi.Key (ansi.withAlt sample.externals sample.keyUp)], None,
             ansi.mkDriver (<[ [x1b; x4f; x50] := sample.keyUp ]> ∅) [x1b; x1b; x4f; x50]).
Proof.
  apply (alt_is_kept_for_ss3_table_key sample.externals 0
           (<[ [x1b; x4f; x50] := sample.keyUp ]> ∅) x50 sample.keyUp).
  - reflexivity.
  - vm_compute. reflexivity.
  - vm_compute. reflexivity.
Defined.

(** The theorem at ESC [ A ESC [ A with the sample table. *)
Lemma csi_keys_decode_in_order_witness :
  ansi.peekInput sample.externals 5
    (ansi.mkDriver sample.table (concat [[x1b; x5b; x41]; [x1b; x5b; x41]]))
  = Returns (length (concat [[x1b; x5b; x41]; [x1b; x5b; x41]]),
             map ansi.Key [sample.keyUp; sample.keyUp], None,
             ansi.mkDriver sample.table (concat [[x1b; x5b; x41]; [x1b; x5b; x41]])).
Proof.
  apply (csi_keys_decode_in_order sample.externals 0 sample.table
           [[x1b; x5b; x41]; [x1b; x5b; x41]] [sample.keyUp; sample.keyUp]).
  - repeat constructor; try exact csiSeq_up; vm_compute; reflexivity.
  - discriminate.
  - vm_compute. reflexivity.
Defined.

(** The theorem at the report ESC [ < 0 ; 1 ; 2 M with the sample externals,
    whose decoder returns the bytes it is given. *)
Lemma sgr_mouse_is_handed_whole_witness :
  ansi.peekInput sample.externals 3
    (ansi.mkDriver sample.table
       (ansi.ESC :: x5b :: [x3c; x30; x3b; x31; x3b; x32] ++ [x4d]))
  = Returns (length (ansi.ESC :: x5b :: [x3c; x30; x3b; x31; x3b; x32] ++ [x4d]),
             [ansi.parseSGRMouseEvent sample.externals
                (ansi.ESC :: x5b :: [x3c; x30; x3b; x31; x3b; x32] ++ [x4d])],
             None,
             ansi.mkDriver sample.table
               (ansi.ESC :: x5b :: [x3c; x30; x3b; x31; x3b; x32] ++ [x4d])).
Proof.
  apply (sgr_mouse_is_handed_whole sample.externals 0 sample.table
           [x3c; x30; x3b; x31; x3b; x32] x4d).
  - repeat constructor.
  - now left.
  - vm_compute. reflexivity.
  - reflexivity.
  - reflexivity.
Defined.

(** The theorem at ESC [ M followed by two bytes, with the sample table and the
    sample externals. *)
Lemma x10_needs_three_bytes_witness :
  ansi.parseCsi sample.externals (ansi.mkDriver sample.table [])
    (length (@nil byte)) ([] ++ [x1b; x5b; x4d] ++ [x20; x21]) false
  = Returns (3%nat, ansi.UnknownEvent [x1b; x5b; x4d]).
Proof.
  apply (x10_needs_three_bytes sample.externals (ansi.mkDriver sample.table [])
           [] [x20; x21] false).
  - simpl. lia.
  - vm_compute. reflexivity.
  - reflexivity.
  - reflexivity.
Defined.

(** The theorem at the bytes 0x9B, A, b with the sample table: the byte b gives
    no event. *)
Lemma byte_after_csi8_is_skipped_witness :
  exists e,
    ansi.peekInput sample.externals 3 (ansi.mkDriver sample.table [ansi.CSI; x41; x62])
    = Returns (3%nat, [e], None, ansi.mkDriver sample.table [ansi.CSI; x41; x62]).
Proof.
  apply (byte_after_csi8_is_skipped sample.externals 0 sample.table x41 x62).
  - reflexivity.
  - vm_compute. reflexivity.
  - vm_compute. discriminate.
Defined.

(** The theorem at ESC ] 1 1 ; r g b, the start of a background colour report,
    with the sample table. *)
Lemma osc_without_terminator_is_unknown_witness :
  ansi.peekInput sample.externals 3
    (ansi.mkDriver sample.table (ansi.ESC :: x5d :: [x31; x31; x3b; x72; x67; x62]))
  = Returns (length (ansi.str (ansi.ESC :: x5d :: [x31; x31; x3b; x72; x67; x62])),
             [ansi.UnknownEvent
                (ansi.str (ansi.ESC :: x5d :: [x31; x31; x3b; x72; x67; x62]))],
             None,
             ansi.mkDriver sample.table
               (ansi.ESC :: x5d :: [x31; x31; x3b; x72; x67; x62])).
Proof.
  apply (osc_without_terminator_is_unknown sample.externals 0 sample.table
           [x31; x31; x3b; x72; x67; x62]).
  - repeat constructor.
  - vm_compute. reflexivity.
Defined.

(** The theorem at the DCS string ESC P q, the two bytes of e acute, ESC
    backslash: seven bytes, of which two are from 0x80 on, so that nine are
    reported. *)
Lemma control_string_is_one_unknown_event_witness :
  ansi.peekInput sample.externals 3
    (ansi.mkDriver sample.table (ansi.ESC :: x50 :: [x71; xc3; xa9] ++ [ansi.ESC; x5c]))
  = Returns (length (ansi.str (ansi.ESC :: x50 :: [x71; xc3; xa9] ++ [ansi.ESC; x5c])),
             [ansi.UnknownEvent
                (ansi.str (ansi.ESC :: x50 :: [x71; xc3; xa9] ++ [ansi.ESC; x5c]))],
             None,
             ansi.mkDriver sample.table
               (ansi.ESC :: x50 :: [x71; xc3; xa9] ++ [ansi.ESC; x5c])) /\
  length (ansi.str (ansi.ESC :: x50 :: [x71; xc3; xa9] ++ [ansi.ESC; x5c]))
  = (length (ansi.ESC :: x50 :: [x71; xc3; xa9] ++ [ansi.ESC; x5c])
     + length (filter (fun b => eightBit b = true)
                 (ansi.ESC :: x50 :: [x71; xc3; xa9] ++ [ansi.ESC; x5c])))%nat.
Proof.
  apply (control_string_is_one_unknown_event sample.externals 0 sample.table
           x50 [x71; xc3; xa9] [ansi.ESC; x5c]).
  - now left.
  - repeat constructor; discriminate.
  - right. right. right. reflexivity.
  - vm_compute. reflexivity.
Defined.

(** ** What every call returns *)

Section Events.
Context {Mouse Color : Type}.
Variable X : ansi.Externals Mouse Color.
Implicit Types (b c : byte) (l p pre rest : list byte) (d : ansi.driver).

Lemma snoc_nonempty {A} (l : list A) x : l ++ [x] <> [].
Proof. destruct l; discriminate. Qed.

(** The code below the switch adds an event, or it changes nothing. *)
Lemma afterSwitch_events d p alt b i ev :
  snd (ansi.afterSwitch X d p alt b i ev) <> [] \/
  ansi.afterSwitch X d p alt b i ev = (i, ev).
Proof.
  unfold ansi.afterSwitch.
  destruct (_ || _); [left; apply snoc_nonempty|].
  destruct (utf8.RuneStart b); [|now right].
  destruct (ansi.collectRunes (drop i p)). left. apply snoc_nonempty.
Qed.

Lemma continue_handleSeq_eventful f i p alt ev pt' :
  ansi.continue (ansi.handleSeq (Mouse := Mouse) (Color := Color) f i p alt i ev)
  = Returns (inl pt') ->
  eventful p pt'.
Proof.
  unfold ansi.handleSeq. destruct (f i p alt) as [[n e]| |]; try discriminate.
  cbn [mbind outcome_bind ansi.continue]. intros [= <-]. left. apply snoc_nonempty.
Qed.

Lemma continue_afterSwitch_eventful d p alt b i ev pt' :
  (ev <> [] \/ (i < length p)%nat) ->
  ansi.continue (Returns (ansi.afterSwitch X d p alt b i ev)) = Returns (inl pt') ->
  eventful p pt'.
Proof.
  intros Hinv. destruct (afterSwitch_events d p alt b i ev) as [H|H].
  - destruct (ansi.afterSwitch X d p alt b i ev) as [i' ev'].
    cbn [mbind outcome_bind ansi.continue]. intros [= <-]. now left.
  - rewrite H. cbn [mbind outcome_bind ansi.continue]. now intros [= <-].
Qed.

(** A move of the loop keeps [eventful]. *)
Lemma step_eventful d p pt pt' :
  eventful p pt ->
  ansi.step X d p pt = Returns (inl pt') ->
  eventful p pt'.
Proof.
  destruct pt as [i ev|alt b i ev]; unfold ansi.step; intros Hinv.
  - destruct (Nat.ltb_spec i (length p)) as [Hlt|Hge]; [|discriminate].
    destruct (index p i); try discriminate. now intros [= <-].
  - cbn [eventful] in Hinv.
    destruct (beq b ansi.ESC).
    { destruct (length p =? 1)%nat.
      { intros [= <-]. left. apply snoc_nonempty. }
      destruct (length p <=? i + 1)%nat.
      { apply continue_afterSwitch_eventful. now right. }
      unfold index. destruct (p !! (i + 1)%nat) as [b1|] eqn:Hb1;
        cbn [mbind outcome_bind]; try discriminate.
      destruct (beq b1 x4f); [apply continue_handleSeq_eventful|].
      destruct (beq b1 x50); [apply continue_handleSeq_eventful|].
      destruct (beq b1 x5b); [apply continue_handleSeq_eventful|].
      destruct (beq b1 x5d); [apply continue_handleSeq_eventful|].
      destruct (beq b1 x5f); [apply continue_handleSeq_eventful|].
      intros [= <-]. cbn [eventful]. now apply lookup_lt_Some in Hb1. }
    destruct (beq b ansi.SS3); [apply continue_handleSeq_eventful|].
    destruct (beq b ansi.DCS).
    { unfold ansi.handleSeq. destruct (ansi.parseDcs d i p alt) as [[n e]| |];
        cbn [mbind outcome_bind]; try discriminate.
      apply continue_afterSwitch_eventful. left. apply snoc_nonempty. }
    destruct (beq b ansi.CSI); [apply continue_handleSeq_eventful|].
    destruct (beq b ansi.OSC); [apply continue_handleSeq_eventful|].
    destruct (beq b ansi.APC); [apply continue_handleSeq_eventful|].
    apply continue_afterSwitch_eventful. now right.
Qed.

(** No move from the label [begin] leaves the loop. *)
Lemma step_begin_inside d p alt b i ev x :
  ansi.step X d p (ansi.AtBegin alt b i ev) <> Returns (inr x).
Proof.
  unfold ansi.step.
  destruct (beq b ansi.ESC).
  { destruct (length p =? 1)%nat; [discriminate|].
    destruct (length p <=? i + 1)%nat; [apply continue_inside|].
    destruct (index p (i + 1)) as [b1| |]; cbn [mbind outcome_bind]; try discriminate.
    destruct (beq b1 x4f); [apply continue_inside|].
    destruct (beq b1 x50); [apply continue_inside|].
    destruct (beq b1 x5b); [apply continue_inside|].
    destruct (beq b1 x5d); [apply continue_inside|].
    destruct (beq b1 x5f); [apply continue_inside|].
    discriminate. }
  destruct (beq b ansi.SS3); [apply continue_inside|].
  destruct (beq b ansi.DCS).
  { destruct (ansi.handleSeq _ _ _ _ _ _) as [[i' ev']| |];
      cbn [mbind outcome_bind]; try discriminate.
    apply continue_inside. }
  destruct (beq b ansi.CSI); [apply continue_inside|].
  destruct (beq b ansi.OSC); [apply continue_inside|].
  destruct (beq b ansi.APC); [apply continue_inside|].
  apply continue_inside.
Qed.

(** The loop leaves through its test only, and then with an event. *)
Lemma step_exit_eventful d p pt n ev :
  eventful p pt ->
  ansi.step X d p pt = Returns (inr (n, ev)) -> ev <> [].
Proof.
  intros Hinv Hstep.
  destruct pt as [i ev0|alt b i ev0]; [|now apply step_begin_inside in Hstep].
  pose proof (step_out X d p _ n ev Hstep) as Hout.
  unfold ansi.step in Hstep.
  destruct (Nat.ltb_spec i (length p)) as [Hlt|Hge].
  - destruct (index p i); discriminate.
  - injection Hstep as <- <-. cbn [eventful] in Hinv. destruct Hinv; [done|lia].
Qed.

Lemma run_eventful fuel d p : forall pt n ev,
  eventful p pt ->
  ansi.run X fuel d p pt = Returns (n, ev) -> ev <> [].
Proof.
  induction fuel as [|fuel IH]; intros pt n ev Hinv; [discriminate|].
  rewrite run_S.
  destruct (ansi.step X d p pt) as [[pt'|[n' ev']]| |] eqn:Hstep; try discriminate.
  - apply IH. now apply (step_eventful d p pt).
  - intros [= -> ->]. now apply (step_exit_eventful d p pt n ev).
Qed.

Lemma peekInput_events fuel d nb ev err d' :
  ansi.peekInput X fuel d = Returns (nb, ev, err, d') ->
  match err with None => ev <> [] | Some _ => ev = [] end.
Proof.
  destruct (decide (ansi.rd d = [])) as [He|Hne].
  - destruct d as [t r]. simpl in He. subst r. now intros [= _ <- <- _].
  - rewrite peekInput_buffered by done.
    destruct (ansi.table d !! ansi.rd d); [now intros [= _ <- <- _]|].
    destruct (ansi.run X fuel d (ansi.rd d) (ansi.AtFor 0 [])) as [[n e]| |] eqn:Hrun;
      try discriminate.
    cbn [mbind outcome_bind]. intros [= _ <- <- _].
    apply (run_eventful fuel d (ansi.rd d) _ n e) in Hrun; [done|].
    right. destruct (ansi.rd d); [done|simpl; lia].
Qed.

(** A call of [ReadInput] that returns gives events or an error, never both
    and never neither: with an error the list of events is empty, and
    without an error it holds at least one event. *)
Theorem ReadInput_events_or_error fuel d ev err d' :
  ansi.ReadInput X fuel d = Returns (ev, err, d') ->
  match err with None => ev <> [] | Some _ => ev = [] end.
Proof.
  unfold ansi.ReadInput.
  destruct (ansi.peekInput X fuel d) as [[[[nb ne] e] d0]| |] eqn:Hpeek; try discriminate.
  apply peekInput_events in Hpeek. cbn [mbind outcome_bind].
  destruct e as [e|]; [now intros [= <- <- _]|].
  destruct (ansi.Discard (ansi.rd d0) nb) as [[k err'] r].
  destruct err'; now intros [= <- <- _].
Qed.


(** *** No index out of range *)

(** Every parameter that [ansi.Params] returns has a first sub-value. *)
Hypothesis params_first :
  forall seq, Forall (fun sub => sub <> []) (ansi.CsiParams X seq).

(** The opening of a parser indexes inside the buffer when the parser is
    called at its own introducer or at an ESC. *)
Lemma introducer_returns intro8 c7 i p b :
  p !! i = Some b ->
  beq b intro8 || beq b ansi.ESC = true ->
  exists r, ansi.introducer intro8 c7 i p = Returns r.
Proof.
  intros Hi Hb. unfold ansi.introducer, index. rewrite Hi. cbn [mbind outcome_bind].
  rewrite Hb.
  destruct (S i <? length p)%nat eqn:Hlt; [|eexists; reflexivity].
  apply Nat.ltb_lt in Hlt.
  cbn [index_before]. unfold index. rewrite Hi. cbn [mbind outcome_bind].
  destruct (p !! S i) as [c|] eqn:Hc.
  - cbn [mbind outcome_bind]. destruct (_ && _); eexists; reflexivity.
  - apply lookup_ge_None in Hc. lia.
Qed.

Lemma csiFinal_returns d alt seq i p :
  exists r, ansi.csiFinal X d alt seq i p = Returns r.
Proof.
  unfold ansi.csiFinal.
  destruct (p !! i) as [c|]; [|eexists; reflexivity].
  destruct (negb (ansi.is_final c)); [eexists; reflexivity|].
  destruct (ansi.table d !! (seq ++ string_of_byte c)); [eexists; reflexivity|].
  destruct (kittyKey_returns X _ (params_first (seq ++ string_of_byte c)))
    as [key Hkey].
  rewrite Hkey. cbn [mbind outcome_bind].
  repeat match goal with
         | |- context [if ?c then _ else _] => destruct c
         end; eexists; reflexivity.
Qed.

Lemma parseCsi_returns d i p alt b :
  p !! i = Some b ->
  beq b ansi.CSI || beq b ansi.ESC = true ->
  exists r, ansi.parseCsi X d i p alt = Returns r.
Proof.
  intros Hi Hb. unfold ansi.parseCsi.
  destruct (introducer_returns ansi.CSI x5b i p b Hi Hb) as [[seq j] ->].
  cbn [mbind outcome_bind]. apply csiFinal_returns.
Qed.

Lemma parseSs3_returns d i p alt b :
  p !! i = Some b ->
  beq b ansi.SS3 || beq b ansi.ESC = true ->
  exists r, ansi.parseSs3 X d i p alt = Returns r.
Proof.
  intros Hi Hb. unfold ansi.parseSs3.
  destruct (introducer_returns ansi.SS3 x4f i p b Hi Hb) as [[seq j] ->].
  cbn [mbind outcome_bind]. clear Hi.
  destruct (p !! j) as [c|]; [|eexists; reflexivity].
  destruct (negb _); [eexists; reflexivity|].
  destruct (ansi.table d !! _); eexists; reflexivity.
Qed.

Lemma parseOsc_returns d i p alt b :
  p !! i = Some b ->
  beq b ansi.OSC || beq b ansi.ESC = true ->
  exists r, ansi.parseOsc X d i p alt = Returns r.
Proof.
  intros Hi Hb. unfold ansi.parseOsc.
  destruct (introducer_returns ansi.OSC x5d i p b Hi Hb) as [[seq j] ->].
  cbn [mbind outcome_bind]. unfold ansi.oscFinal. clear Hi.
  match goal with |- context [match ?x with Some _ => _ | None => _ end] => destruct x end;
    [|eexists; reflexivity].
  repeat match goal with
         | |- context [if ?c then _ else _] => destruct c
         end; eexists; reflexivity.
Qed.

Lemma parseCtrl_returns intro8 c7 i p alt b :
  p !! i = Some b ->
  beq b intro8 || beq b ansi.ESC = true ->
  exists r, ansi.parseCtrl (Mouse := Mouse) (Color := Color) intro8 c7 i p alt = Returns r.
Proof.
  intros Hi Hb. unfold ansi.parseCtrl.
  destruct (introducer_returns intro8 c7 i p b Hi Hb) as [[seq j] ->].
  cbn [mbind outcome_bind]. clear Hi.
  match goal with |- context [match ?x with Some _ => _ | None => _ end] => destruct x end;
    eexists; reflexivity.
Qed.

Lemma continue_handleSeq_returns f i p alt ev :
  (exists r, f i p alt = Returns r) ->
  exists pt', ansi.continue (ansi.handleSeq (Mouse := Mouse) (Color := Color) f i p alt i ev)
              = Returns (inl pt') /\ wellPlaced p pt'.
Proof.
  intros [[n e] Hf]. unfold ansi.handleSeq. rewrite Hf.
  cbn [mbind outcome_bind ansi.continue]. eexists. split; [reflexivity|exact I].
Qed.

Lemma continue_afterSwitch_returns d p alt b i ev :
  exists pt', ansi.continue (Returns (ansi.afterSwitch X d p alt b i ev))
              = Returns (inl pt') /\ wellPlaced p pt'.
Proof.
  destruct (ansi.afterSwitch X d p alt b i ev) as [i' ev'].
  cbn [mbind outcome_bind ansi.continue]. eexists. split; [reflexivity|exact I].
Qed.

(** A move of the loop from a well placed point returns, and to a well placed
    point when it stays in the loop. *)
Lemma step_safe d p pt :
  wellPlaced p pt ->
  (exists pt', ansi.step X d p pt = Returns (inl pt') /\ wellPlaced p pt') \/
  (exists r, ansi.step X d p pt = Returns (inr r)).
Proof.
  destruct pt as [i ev|alt b i ev]; intros Hpl; unfold ansi.step.
  - destruct (Nat.ltb_spec i (length p)) as [Hlt|Hge]; [|right; eexists; reflexivity].
    left. destruct (lookup_lt_is_Some_2 p i Hlt) as [b Hb].
    unfold index. rewrite Hb. cbn [mbind outcome_bind].
    eexists. split; [reflexivity|exact Hb].
  - left. cbn [wellPlaced] in Hpl.
    destruct (beq b ansi.ESC) eqn:Hesc.
    { destruct (length p =? 1)%nat; [eexists; split; [reflexivity|exact I]|].
      destruct (Nat.leb_spec (length p) (i + 1)) as [Hle|Hgt];
        [apply continue_afterSwitch_returns|].
      destruct (lookup_lt_is_Some_2 p (i + 1) Hgt) as [b1 Hb1].
      unfold index. rewrite Hb1. cbn [mbind outcome_bind].
      destruct (beq b1 x4f).
      { apply continue_handleSeq_returns, (parseSs3_returns d i p alt b); [done|].
        rewrite Hesc. apply orb_true_r. }
      destruct (beq b1 x50).
      { apply continue_handleSeq_returns, (parseCtrl_returns _ _ i p alt b); [done|].
        rewrite Hesc. apply orb_true_r. }
      destruct (beq b1 x5b).
      { apply continue_handleSeq_returns, (parseCsi_returns d i p alt b); [done|].
        rewrite Hesc. apply orb_true_r. }
      destruct (beq b1 x5d).
      { apply continue_handleSeq_returns, (parseOsc_returns d i p alt b); [done|].
        rewrite Hesc. apply orb_true_r. }
      destruct (beq b1 x5f).
      { apply continue_handleSeq_returns, (parseCtrl_returns _ _ i p alt b); [done|].
        rewrite Hesc. apply orb_true_r. }
      eexists. split; [reflexivity|exact Hb1]. }
    destruct (beq b ansi.SS3) eqn:H1.
    { apply continue_handleSeq_returns, (parseSs3_returns d i p alt b); [done|].
      now rewrite H1. }
    destruct (beq b ansi.DCS) eqn:H2.
    { destruct (parseCtrl_returns ansi.DCS x50 i p alt b Hpl) as [[n e] Hr];
        [now rewrite H2|].
      unfold ansi.handleSeq, ansi.parseDcs. rewrite Hr. cbn [mbind outcome_bind].
      apply continue_afterSwitch_returns. }
    destruct (beq b ansi.CSI) eqn:H3.
    { apply continue_handleSeq_returns, (parseCsi_returns d i p alt b); [done|].
      now rewrite H3. }
    destruct (beq b ansi.OSC) eqn:H4.
    { apply continue_handleSeq_returns, (parseOsc_returns d i p alt b); [done|].
      now rewrite H4. }
    destruct (beq b ansi.APC) eqn:H5.
    { apply continue_handleSeq_returns, (parseCtrl_returns _ _ i p alt b); [done|].
      now rewrite H5. }
    apply continue_afterSwitch_returns.
Qed.

Lemma run_safe fuel d p : forall pt,
  wellPlaced p pt -> ansi.run X fuel d p pt <> Panics.
Proof.
  induction fuel as [|fuel IH]; intros pt Hpl; [discriminate|].
  rewrite run_S.
  destruct (step_safe d p pt Hpl) as [(pt' & -> & Hpl')|[r ->]]; [now apply IH|discriminate].
Qed.

(** No call of [peekInput] panics, whatever bytes the reader holds and
    whatever the table: every index and every slice the decoder and its
    parsers take stays inside the buffer, provided that each parameter
    [ansi.Params] returns has a first sub-value, which the Kitty branch
    reads without a test.  The functions of other files (the accessors of
    the sequences, the mouse decoders, the colour parser) are those of
    [Externals], functions that return. *)
Theorem peekInput_never_panics fuel d : ansi.peekInput X fuel d <> Panics.
Proof.
  destruct (decide (ansi.rd d = [])) as [He|Hne].
  - destruct d as [t r]. simpl in He. subst r. discriminate.
  - rewrite peekInput_buffered by done.
    destruct (ansi.table d !! ansi.rd d); [discriminate|].
    pose proof (run_safe fuel d (ansi.rd d) (ansi.AtFor 0 []) I) as Hrun.
    destruct (ansi.run X fuel d (ansi.rd d) (ansi.AtFor 0 [])) as [[n e]| |];
      [discriminate|done|discriminate].
Qed.

End Events.

(** The theorem at a read of the byte a with the sample table. *)
Lemma ReadInput_events_or_error_witness :
  [ansi.Key (ansi.setRunes [97] ansi.zeroKey)]
  <> ([] : list (ansi.Event (list byte) (list byte))).
Proof.
  apply (ReadInput_events_or_error sample.externals 3
           (ansi.mkDriver sample.table [x61])
           [ansi.Key (ansi.setRunes [97] ansi.zeroKey)] None
           (ansi.mkDriver sample.table [])).
  reflexivity.
Defined.


(** The theorem at the Kitty sequence ESC [ 9 7 ; 5 u with the sample
    externals. *)
Lemma peekInput_never_panics_witness :
  ansi.peekInput sample.externals 3
    (ansi.mkDriver sample.table [x1b; x5b; x39; x37; x3b; x35; x75])
  <> Panics.
Proof.
  apply (peekInput_never_panics sample.externals sample_params_nonempty 3
           (ansi.mkDriver sample.table [x1b; x5b; x39; x37; x3b; x35; x75])).
Defined.

(** ** Reads of the driver with the paste accumulator *)

Section Reads.
Context {Key Other : Type}.
Implicit Types (d : input.Driver Key Other) (P : input.EventParser Key Other)
  (e : list (input.Event Key Other)) (acc chunk body start stop : list byte).

(** With a well behaved parser the loop of [readEvents] ends within one pass
    for every byte that is left, and neither its index nor its slice leaves
    the buffer. *)
Lemma loop_returns P :
  wellBehaved P ->
  forall k fuel nb d i e,
  input.parser d = P ->
  (nb <= length (input.buf d))%nat ->
  (nb - i <= k)%nat ->
  exists e' d', input.loop (S k + fuel) nb d i e = Returns (e', d').
Proof.
  intros HP. induction k as [|k IH]; intros fuel nb d i e Hd Hnb Hk.
  - exists e, d. apply loop_done. lia.
  - destruct (Nat.ltb_spec i nb) as [Hi|Hi]; [|exists e, d; apply loop_done; lia].
    change (S (S k) + fuel)%nat with (S (S k + fuel)).
    cbn [input.loop]. rewrite (proj2 (Nat.ltb_lt _ _) Hi). cbn [negb].
    assert (Hview : length (input.view d nb i) = (nb - i)%nat).
    { unfold input.view. rewrite length_take, length_drop. lia. }
    assert (Hne : input.view d nb i <> []).
    { intros E. rewrite E in Hview. simpl in Hview. lia. }
    destruct (input.ParseSequence (input.parser d) (input.view d nb i)) as [n ev] eqn:Hparse.
    rewrite Hd in Hparse.
    assert (Hidx : exists b, index (take nb (input.buf d)) i = Returns b).
    { unfold index. destruct (take nb (input.buf d) !! i) as [b|] eqn:E; [now exists b|].
      apply lookup_ge_None in E. rewrite length_take in E. lia. }
    destruct Hidx as [b Hb].
    assert (Hnext : forall d1 e1, input.parser d1 = P -> input.buf d1 = input.buf d ->
               exists e' d', input.loop (S k + fuel) nb d1 (i + 1) e1 = Returns (e', d')).
    { intros d1 e1 H1 H2. apply IH; [done|rewrite H2; lia|lia]. }
    assert (Hjump : forall ev0 d1 e1, ev = Some ev0 ->
               input.parser d1 = P -> input.buf d1 = input.buf d ->
               exists e' d', input.loop (S k + fuel) nb d1 (i + n) e1 = Returns (e', d')).
    { intros ev0 d1 e1 -> H1 H2.
      pose proof (HP _ _ _ Hne Hparse) as Hn. rewrite Hview in Hn.
      apply IH; [done|rewrite H2; lia|lia]. }
    assert (Hslice : forall ev0, ev = Some ev0 ->
               exists s, input.sliceString (input.buf d) i (i + n) = Returns s).
    { intros ev0 ->. pose proof (HP _ _ _ Hne Hparse) as Hn. rewrite Hview in Hn.
      unfold input.sliceString.
      rewrite (proj2 (Nat.leb_le i (i + n)) ltac:(lia)).
      rewrite (proj2 (Nat.leb_le (i + n) (length (input.buf d))) ltac:(lia)).
      eexists. reflexivity. }
    destruct (input.paste d) as [acc|] eqn:Hpaste.
    + destruct (input.isPasteEnd ev) eqn:Hend.
      * destruct ev as [[]|]; try discriminate Hend.
        now apply (Hjump input.PasteEndEvent).
      * rewrite Hb. cbn [mbind outcome_bind]. now apply Hnext.
    + destruct ev as [ev0|]; [|now apply Hnext].
      destruct (Hslice ev0 eq_refl) as [s Hs].
      destruct ev0; try rewrite Hs; cbn [mbind outcome_bind];
        try (now apply (Hjump _ _ _ eq_refl));
        destruct (input.isPasteEnd _); try rewrite Hs; cbn [mbind outcome_bind];
        now apply (Hjump _ _ _ eq_refl).
Qed.

(** With a well behaved parser every call of [readEvents] returns: it does
    not panic and its loop ends, within one pass for every byte of the read
    buffer and one more, whatever the reader gives, whatever the buffer
    holds and whether a paste is in progress or not. *)
Theorem readEvents_returns fuel d :
  wellBehaved (input.parser d) ->
  exists r, input.readEvents (S (length (input.buf d)) + fuel) d = Returns r.
Proof.
  intros HP. unfold input.readEvents, input.Read.
  destruct (input.rd d) as [|[chunk|err] rest]; [eexists; reflexivity| |eexists; reflexivity].
  cbn [input.buf input.parser].
  set (now := take (length (input.buf d)) chunk).
  assert (Hnow : (length now <= length (input.buf d))%nat).
  { subst now. rewrite length_take. lia. }
  rewrite take_app_length.
  destruct (input.LookupSequence (input.parser d) now); [eexists; reflexivity|].
  match goal with |- context [input.loop _ _ ?d1 _ _] => set (d1' := d1) end.
  destruct (loop_returns (input.parser d) HP (length (input.buf d)) fuel (length now) d1' 0 [])
    as (e' & d' & Hloop).
  - reflexivity.
  - subst d1'. cbn [input.buf]. rewrite length_app, length_drop. lia.
  - lia.
  - rewrite Hloop. eexists. reflexivity.
Qed.

(** A read of a chunk that fits the buffer and is no key of the table: the
    loop runs over the chunk. *)
Lemma readEvents_chunk fuel rd0 P ps buf0 chunk :
  (length chunk <= length buf0)%nat ->
  input.LookupSequence P chunk = None ->
  input.readEvents fuel (input.mkDriver (inl chunk :: rd0) P ps buf0)
  = ('(e, d) ← input.loop fuel (length chunk)
                 (input.mkDriver rd0 P ps (chunk ++ drop (length chunk) buf0)) 0 [];
     Returns (e, None, d)).
Proof.
  intros Hfit Hlook.
  unfold input.readEvents, input.Read. cbn [input.rd input.buf input.parser input.paste].
  rewrite (take_ge chunk), (drop_ge chunk) by done.
  cbn [input.buf input.parser]. now rewrite take_app_length, Hlook.
Qed.

(** While a paste is in progress, a read whose chunk is no key of the table
    and in which the parser finds the end of the paste at no byte returns no
    event, and the accumulator holds the bytes of the chunk, as they are,
    after those it held. *)
Theorem paste_accumulates_verbatim fuel rd0 P acc buf0 chunk :
  (length chunk <= length buf0)%nat ->
  input.LookupSequence P chunk = None ->
  (forall k, (k < length chunk)%nat ->
     input.isPasteEnd (snd (input.ParseSequence P (drop k chunk))) = false) ->
  input.readEvents (length chunk + 1 + fuel)
    (input.mkDriver (inl chunk :: rd0) P (Some acc) buf0)
  = Returns ([], None,
             input.mkDriver rd0 P (Some (acc ++ chunk))
               (chunk ++ drop (length chunk) buf0)).
Proof.
  intros Hfit Hlook Hno.
  rewrite readEvents_chunk by done.
  pose proof (loop_accumulate rd0 P (drop (length chunk) buf0) [] [] chunk [] acc
                (1 + fuel) []) as Hacc.
  cbv zeta in Hacc. cbn [app length Nat.add] in Hacc.
  rewrite !app_nil_r in Hacc.
  replace (length chunk + 1 + fuel)%nat with (length chunk + S fuel)%nat by lia.
  rewrite Hacc.
  - rewrite loop_done by lia. reflexivity.
  - intros k Hk. rewrite app_nil_r. now apply Hno.
Qed.

(** A paste that two reads bring in: the first read gives the start marker
    and the first part of the pasted bytes, the second read the rest of them
    and the end marker.  The first call returns the start of the paste alone
    and leaves the first part in the accumulator; the second call returns the
    paste event, which carries the runes decoded from the bytes of both
    parts, and then the end of the paste, and the accumulator is nil again. *)
Theorem paste_spans_reads fuel rd0 P buf0 start body1 body2 stop :
  let chunk1 := start ++ body1 in
  let chunk2 := body2 ++ stop in
  (length chunk1 <= length buf0)%nat ->
  (length chunk2 <= length buf0)%nat ->
  start <> [] ->
  stop <> [] ->
  input.LookupSequence P chunk1 = None ->
  input.LookupSequence P chunk2 = None ->
  input.ParseSequence P chunk1 = (length start, Some input.PasteStartEvent) ->
  (forall k, (k < length body1)%nat ->
     input.isPasteEnd (snd (input.ParseSequence P (drop k body1))) = false) ->
  (forall k, (k < length body2)%nat ->
     input.isPasteEnd (snd (input.ParseSequence P (drop k body2 ++ stop))) = false) ->
  input.ParseSequence P stop = (length stop, Some input.PasteEndEvent) ->
  exists d1 d2,
    input.readEvents (length body1 + 2 + fuel)
      (input.mkDriver (inl chunk1 :: inl chunk2 :: rd0) P None buf0)
    = Returns ([input.PasteStartEvent], None, d1) /\
    input.paste d1 = Some body1 /\
    input.readEvents (length body2 + 2 + fuel) d1
    = Returns ([input.PasteEvent (input.decodePaste (body1 ++ body2));
                input.PasteEndEvent], None, d2) /\
    input.paste d2 = None /\ input.rd d2 = rd0.
Proof.
  intros chunk1 chunk2 Hfit1 Hfit2 Hstart Hstop Hlook1 Hlook2 Hps Hno1 Hno2 Hpe.
  set (buf1 := chunk1 ++ drop (length chunk1) buf0).
  assert (Hlen1 : length buf1 = length buf0).
  { subst buf1. rewrite length_app, length_drop. lia. }
  exists (input.mkDriver (inl chunk2 :: rd0) P (Some body1) buf1).
  exists (input.mkDriver rd0 P None (chunk2 ++ drop (length chunk2) buf1)).
  assert (Hs : (0 < length start)%nat) by (destruct start; [done|simpl; lia]).
  assert (He : (0 < length stop)%nat) by (destruct stop; [done|simpl; lia]).
  split; [|split; [reflexivity|split; [|split; reflexivity]]].
  - rewrite readEvents_chunk by done. fold buf1.
    replace (length body1 + 2 + fuel)%nat with (S (length body1 + (1 + fuel)))%nat by lia.
    rewrite (loop_paste_start _ _ _ _ _ (length start)).
    + unfold input.setPaste. cbn [input.rd input.parser input.buf app Nat.add].
      pose proof (loop_accumulate (inl chunk2 :: rd0) P (drop (length chunk1) buf0)
                    start [] body1 [] [] (1 + fuel) [input.PasteStartEvent]) as Hacc.
      cbv zeta in Hacc. cbn [app length Nat.add] in Hacc.
      rewrite !app_nil_r, Nat.add_0_r in Hacc. fold chunk1 in Hacc. fold buf1 in Hacc.
      rewrite Hacc.
      * rewrite loop_done by (subst chunk1; rewrite length_app; lia). reflexivity.
      * intros k Hk. rewrite app_nil_r. now apply Hno1.
    + subst chunk1. rewrite length_app. lia.
    + reflexivity.
    + subst buf1. rewrite view_chunk by lia. exact Hps.
  - rewrite readEvents_chunk by (try done; lia).
    set (tail := drop (length chunk2) buf1).
    pose proof (loop_accumulate rd0 P tail [] stop body2 [] body1 (2 + fuel) [] Hno2) as Hacc.
    cbv zeta in Hacc. cbn [app length Nat.add] in Hacc. fold chunk2 in Hacc.
    replace (length body2 + 2 + fuel)%nat with (length body2 + S (S fuel))%nat by lia.
    rewrite Hacc.
    rewrite (loop_paste_end _ _ _ _ _ (length stop)).
    + unfold input.setPaste. cbn [input.rd input.parser input.buf input.paste default].
      rewrite loop_done by (subst chunk2; rewrite length_app; lia).
      reflexivity.
    + subst chunk2. rewrite length_app. lia.
    + rewrite view_chunk by (subst chunk2; rewrite length_app; lia).
      subst chunk2. rewrite drop_app_length. exact Hpe.
Qed.

(** An end marker without a paste.  When the driver is in no paste and a
    read gives the end marker alone, the call returns a paste event that
    carries no rune, and then the end of the paste. *)
Theorem paste_end_without_start fuel rd0 P buf0 stop :
  (length stop <= length buf0)%nat ->
  stop <> [] ->
  input.LookupSequence P stop = None ->
  input.ParseSequence P stop = (length stop, Some input.PasteEndEvent) ->
  input.readEvents (2 + fuel) (input.mkDriver (inl stop :: rd0) P None buf0)
  = Returns ([input.PasteEvent []; input.PasteEndEvent], None,
             input.mkDriver rd0 P None (stop ++ drop (length stop) buf0)).
Proof.
  intros Hfit Hstop Hlook Hpe.
  assert (He : (0 < length stop)%nat) by (destruct stop; [done|simpl; lia]).
  rewrite readEvents_chunk by done.
  change (2 + fuel)%nat with (S (S fuel)).
  rewrite (loop_paste_end _ _ _ _ _ (length stop)); [|lia|].
  - unfold input.setPaste. cbn [input.rd input.parser input.buf input.paste default].
    rewrite loop_done by lia. reflexivity.
  - rewrite view_chunk by lia. exact Hpe.
Qed.

Lemma decode_encodeRunes rs : forall passes,
  Forall (fun r => utf8.ValidRune r = true) rs ->
  (length rs <= passes)%nat ->
  input.decode passes (encodeRunes rs)
  = filter (fun r => r <> utf8.RuneError) rs.
Proof.
  induction rs as [|r rs IH]; intros passes Hv Hn.
  - destruct passes; reflexivity.
  - apply Forall_cons in Hv as [Hr Hv].
    destruct passes as [|passes]; [simpl in Hn; lia|].
    unfold encodeRunes in *. cbn [flat_map].
    pose proof (EncodeRune_length r) as Hlen.
    destruct (utf8.EncodeRune r ++ flat_map utf8.EncodeRune rs) as [|b0 tl0] eqn:El.
    { apply (f_equal (@length _)) in El. rewrite length_app in El. simpl in El. lia. }
    cbn [input.decode]. rewrite <- El.
    rewrite decode_encoded by done.
    rewrite drop_app_length, IH by (try done; simpl in Hn; lia).
    rewrite filter_cons.
    destruct (Z.eqb_spec r utf8.RuneError) as [E|E]; destruct (decide (r <> utf8.RuneError));
      try done.
Qed.

(** The runes of a paste.  The decoding of a paste that is the UTF-8 encoding
    of valid runes gives these runes back in their order, except the
    replacement rune U+FFFD: a pasted U+FFFD is dropped like an invalid
    byte. *)
Theorem decodePaste_encodeRunes rs :
  Forall (fun r => utf8.ValidRune r = true) rs ->
  input.decodePaste (encodeRunes rs) = filter (fun r => r <> utf8.RuneError) rs.
Proof.
  intros Hv. unfold input.decodePaste. apply decode_encodeRunes; [done|].
  apply length_encodeRunes.
Qed.

End Reads.

(** The sample parser is well behaved. *)
Lemma sample_parser_wellBehaved : wellBehaved sample.parser.
Proof.
  assert (Htake : forall (l pat : list byte) k, take k l = pat -> length pat = k ->
            (k <= length l)%nat).
  { intros l pat k <- Hk. rewrite length_take in Hk. lia. }
  intros l n ev Hne. cbn [input.ParseSequence sample.parser]. unfold sample.ParseSequence.
  case_bool_decide as E1.
  { apply Htake in E1; [|reflexivity]. intros [= <- _]. lia. }
  case_bool_decide as E2.
  { apply Htake in E2; [|reflexivity]. intros [= <- _]. lia. }
  case_bool_decide as E3.
  { apply Htake in E3; [|reflexivity]. intros [= <- _]. lia. }
  destruct l as [|b l]; [done|]. intros [= <- _]. simpl. lia.
Qed.

(** The theorem at a read of a ESC [ A with the sample parser. *)
Lemma readEvents_returns_witness :
  exists r,
    input.readEvents (S (length sample.emptyBuf) + 0)
      (input.mkDriver [inl [x61; x1b; x5b; x41]] sample.parser None sample.emptyBuf)
    = Returns r.
Proof.
  apply (readEvents_returns 0
           (input.mkDriver [inl [x61; x1b; x5b; x41]] sample.parser None sample.emptyBuf)).
  exact sample_parser_wellBehaved.
Defined.

(** The theorem at a read of a ESC [ A during a paste that holds the byte b. *)
Lemma paste_accumulates_verbatim_witness :
  input.readEvents (length [x61; x1b; x5b; x41] + 1 + 0)
    (input.mkDriver [inl [x61; x1b; x5b; x41]] sample.parser (Some [x62]) sample.emptyBuf)
  = Returns ([], None,
             input.mkDriver [] sample.parser (Some ([x62] ++ [x61; x1b; x5b; x41]))
               ([x61; x1b; x5b; x41] ++ drop (length [x61; x1b; x5b; x41]) sample.emptyBuf)).
Proof.
  apply (paste_accumulates_verbatim 0 [] sample.parser [x62] sample.emptyBuf
           [x61; x1b; x5b; x41]).
  - vm_compute. lia.
  - reflexivity.
  - intros k Hk. do 4 (destruct k as [|k]; [reflexivity|]). simpl in Hk. lia.
Defined.

(** The theorem at a paste of a b that two reads bring in, the start marker
    and a first, b and the end marker then. *)
Lemma paste_spans_reads_witness :
  exists d1 d2,
    input.readEvents (length [x61] + 2 + 0)
      (input.mkDriver [inl (sample.pasteStart ++ [x61]); inl ([x62] ++ sample.pasteEnd)]
         sample.parser None sample.emptyBuf)
    = Returns ([input.PasteStartEvent], None, d1) /\
    input.paste d1 = Some [x61] /\
    input.readEvents (length [x62] + 2 + 0) d1
    = Returns ([input.PasteEvent (input.decodePaste ([x61] ++ [x62]));
                input.PasteEndEvent], None, d2) /\
    input.paste d2 = None /\ input.rd d2 = [].
Proof.
  apply (paste_spans_reads 0 [] sample.parser sample.emptyBuf
           sample.pasteStart [x61] [x62] sample.pasteEnd).
  - vm_compute. lia.
  - vm_compute. lia.
  - discriminate.
  - discriminate.
  - reflexivity.
  - reflexivity.
  - reflexivity.
  - intros k Hk. destruct k as [|k]; [reflexivity|]. simpl in Hk. lia.
  - intros k Hk. destruct k as [|k]; [reflexivity|]. simpl in Hk. lia.
  - reflexivity.
Defined.

(** The theorem at a read of the end marker with the sample parser. *)
Lemma paste_end_without_start_witness :
  input.readEvents 2
    (input.mkDriver [inl sample.pasteEnd] sample.parser None sample.emptyBuf)
  = Returns ([input.PasteEvent []; input.PasteEndEvent], None,
             input.mkDriver [] sample.parser None
               (sample.pasteEnd ++ drop (length sample.pasteEnd) sample.emptyBuf)).
Proof.
  apply (paste_end_without_start 0 [] sample.parser sample.emptyBuf sample.pasteEnd).
  - vm_compute. lia.
  - discriminate.
  - reflexivity.
  - reflexivity.
Defined.

(** The theorem at the runes a, U+FFFD, U+1F600: the paste holds a and
    U+1F600. *)
Lemma decodePaste_encodeRunes_witness :
  input.decodePaste (encodeRunes [0x61; 0xFFFD; 0x1F600])
  = filter (fun r => r <> utf8.RuneError) [0x61; 0xFFFD; 0x1F600].
Proof.
  apply (decodePaste_encodeRunes [0x61; 0xFFFD; 0x1F600]).
  repeat constructor.
Defined.
